(** * homebridge-simplisafe3: the SimpliSafe 3 API client and the alarm accessory

    A shallow embedding of [src/simplisafe.js] (class [SimpliSafe3]) and of the
    alarm accessory (class [SS3Alarm]).  JavaScript numbers that the code uses
    as integers (timestamps and durations in milliseconds, counters, HTTP status
    codes, event codes, subscription ids) are [Z].  An [async] function is cut
    at its [await]s: the part that runs synchronously is a function on the
    state, and the answer of the network (or of a timer) is an event that
    resumes it. *)

From Stdlib Require Import ZArith Bool Ascii String List Lia.
From stdpp Require Import base option list sorting gmap strings.
Import ListNotations.

Set Warnings "-register-all".

Local Open Scope string_scope.
Local Open Scope list_scope.
Local Open Scope Z_scope.

(** ** JavaScript values *)

Module JS.

(** A JSON value as [JSON.parse] (axios) hands it to the code, with
    [undefined] for a missing property. *)
Inductive json :=
  | JUndefined
  | JNull
  | JBool (b : bool)
  | JNum (n : Z)
  | JStr (s : string)
  | JArr (xs : list json)
  | JObj (fields : list (string * json)).

Fixpoint assoc (name : string) (fields : list (string * json)) : json :=
  match fields with
  | [] => JUndefined
  | (k, v) :: rest => if String.eqb k name then v else assoc name rest
  end.

(** [v.name]: reading a property of [undefined] or [null] throws a TypeError
    ([None]); a property that is not there reads as [undefined]. *)
Definition prop (name : string) (v : json) : option json :=
  match v with
  | JUndefined | JNull => None
  | JObj fields => Some (assoc name fields)
  | _ => Some JUndefined
  end.

(** Truthiness of a value ([if (v)], [!v]). *)
Definition truthy (v : json) : bool :=
  match v with
  | JUndefined | JNull => false
  | JBool b => b
  | JNum n => negb (n =? 0)
  | JStr s => negb (String.eqb s "")
  | JArr _ | JObj _ => true
  end.

(** *** [parseInt] *)

Definition is_space (c : ascii) : bool :=
  let n := nat_of_ascii c in
  ((9 <=? n) && (n <=? 13))%nat || (n =? 32)%nat.

Definition digit_of (c : ascii) : option Z :=
  let n := Z.of_nat (nat_of_ascii c) in
  if (48 <=? n) && (n <=? 57) then Some (n - 48)
  else if (97 <=? n) && (n <=? 122) then Some (n - 87)
  else if (65 <=? n) && (n <=? 90) then Some (n - 55)
  else None.

Fixpoint skip_spaces (s : string) : string :=
  match s with
  | String c rest => if is_space c then skip_spaces rest else s
  | EmptyString => s
  end.





(** *** [Number(v)], [v == n] and [v > 0] for integers *)

Definition blank (s : string) : bool :=
  match skip_spaces s with EmptyString => true | _ => false end.

(** A whole string of digits of the radix, blanks allowed at the end. *)
Fixpoint numeral (radix : Z) (acc : option Z) (s : string) : option Z :=
  match s with
  | EmptyString => acc
  | String c rest =>
      match digit_of c with
      | Some d =>
          if d <? radix then numeral radix (Some (radix * default 0 acc + d)) rest
          else None
      | None => if blank s then acc else None
      end
  end.

(** [Number(s)] for a string that spells an integer (no fraction, no
    exponent); [None] is [NaN]. *)
Definition Number_string (s : string) : option Z :=
  match skip_spaces s with
  | EmptyString => Some 0
  | String "0" (String "x" rest) | String "0" (String "X" rest) => numeral 16 None rest
  | String "-" rest => Z.opp <$> numeral 10 None rest
  | String "+" rest => numeral 10 None rest
  | rest => numeral 10 None rest
  end.

Definition to_number (v : json) : option Z :=
  match v with
  | JUndefined => None
  | JNull => Some 0
  | JBool b => Some (if b then 1 else 0)
  | JNum n => Some n
  | JStr s => Number_string s
  | JArr [] => Some 0
  | JArr [JNum n] => Some n
  | JArr [JStr s] => Number_string s
  | JArr _ | JObj _ => None
  end.

(** [v == n] for a number [n]: [null] and [undefined] equal no number. *)
Definition loose_eq (v : json) (n : Z) : bool :=
  match v with
  | JUndefined | JNull => false
  | _ => match to_number v with Some m => m =? n | None => false end
  end.

(** [v > 0] *)
Definition gt_zero (v : json) : bool :=
  match to_number v with Some m => 0 <? m | None => false end.

(** [v.length]; reading it off [undefined] or [null] throws. *)
Definition js_length (v : json) : option json :=
  match v with
  | JArr xs => Some (JNum (Z.of_nat (List.length xs)))
  | JStr s => Some (JNum (Z.of_nat (String.length s)))
  | _ => prop "length" v
  end.

(** *** [String.prototype.toLowerCase] on the letters A-Z *)

Definition lower_ascii (c : ascii) : ascii :=
  let n := nat_of_ascii c in
  if ((65 <=? n) && (n <=? 90))%nat then ascii_of_nat (n + 32) else c.

Fixpoint toLowerCase (s : string) : string :=
  match s with
  | EmptyString => EmptyString
  | String c rest => String (lower_ascii c) (toLowerCase rest)
  end.

(** [xs.indexOf(x) == -1] *)
Definition indexOf_is_minus_one (xs : list string) (x : string) : bool :=
  negb (existsb (String.eqb x) xs).

(** *** Thrown values *)

Inductive error :=
  | RateLimitError (message : json)   (* new RateLimitError(...) *)
  | Error (message : string)          (* new Error(...) *)
  | TypeError                         (* a property of undefined was read *)
  | Thrown (v : json).                (* any other rejection value, by its properties *)

(** [err.name] for a property [name] the code reads ([status], [statusCode],
    [response]): the built-in error objects do not have them. *)
Definition err_prop (name : string) (e : error) : option json :=
  match e with
  | Thrown v => prop name v
  | _ => Some JUndefined
  end.

(** [err instanceof RateLimitError] *)
Definition instanceof_RateLimitError (e : error) : bool :=
  match e with RateLimitError _ => true | _ => false end.

(** The outcome of a call, or of a promise once it has settled. *)
Inductive result (A : Type) :=
  | Return (a : A)
  | Throw (e : error).
Arguments Return {A} a.
Arguments Throw {A} e.

End JS.
Import JS.

(** ** Constants of [simplisafe.js] *)

Definition subscriptionCacheTime : Z := 3000.
Definition sensorCacheTime : Z := 3000.
Definition rateLimitInitialInterval : Z := 60000.
Definition rateLimitMaxInterval : Z := 2 * 60 * 60 * 1000.
Definition sensorRefreshLockoutDuration : Z := 15000.
Definition SOCKET_RETRY_INTERVAL : Z := 1000.

Definition validAlarmStates : list string := ["off"; "home"; "away"].

Inductive EVENT_TYPES :=
  | ALARM_TRIGGER | ALARM_OFF | ALARM_DISARM | ALARM_CANCEL
  | HOME_EXIT_DELAY | HOME_ARM | AWAY_EXIT_DELAY | AWAY_ARM
  | MOTION | ENTRY | CAMERA_MOTION | DOORBELL
  | DOORLOCK_LOCKED | DOORLOCK_UNLOCKED | DOORLOCK_ERROR
  | CONNECTED | DISCONNECT | CONNECTION_LOST.

(** ** The client object *)

(** The fields of [class SimpliSafe3] that the modelled methods read or
    write.  A timer handle ([setTimeout], [setInterval]) and a promise are
    named by a number; a field that holds one is truthy.
    [lastSubscriptionRequests] is the object used as a map from subscription
    id to promise: [None] is an absent key, [Some None] a key set to [null]. *)
Record SimpliSafe3 := mkSimpliSafe3 {
  subId : option Z;
  lastSubscriptionRequests : gmap Z (option nat);
  sensorRefreshInterval : option nat;
  sensorRefreshTime : Z;
  sensorRefreshLockoutTimeout : option nat;
  sensorRefreshLockoutEnabled : bool;
  sensorSubscriptions : list (string * nat);
  isBlocked : bool;
  nextBlockInterval : Z;
  nextAttempt : Z
}.

Definition set_subId (v : option Z) (s : SimpliSafe3) : SimpliSafe3 :=
  mkSimpliSafe3 v (lastSubscriptionRequests s) (sensorRefreshInterval s)
    (sensorRefreshTime s) (sensorRefreshLockoutTimeout s)
    (sensorRefreshLockoutEnabled s) (sensorSubscriptions s)
    (isBlocked s) (nextBlockInterval s) (nextAttempt s).

Definition set_lastSubscriptionRequests (v : gmap Z (option nat)) (s : SimpliSafe3) : SimpliSafe3 :=
  mkSimpliSafe3 (subId s) v (sensorRefreshInterval s)
    (sensorRefreshTime s) (sensorRefreshLockoutTimeout s)
    (sensorRefreshLockoutEnabled s) (sensorSubscriptions s)
    (isBlocked s) (nextBlockInterval s) (nextAttempt s).

Definition set_sensorRefreshInterval (v : option nat) (s : SimpliSafe3) : SimpliSafe3 :=
  mkSimpliSafe3 (subId s) (lastSubscriptionRequests s) v
    (sensorRefreshTime s) (sensorRefreshLockoutTimeout s)
    (sensorRefreshLockoutEnabled s) (sensorSubscriptions s)
    (isBlocked s) (nextBlockInterval s) (nextAttempt s).

Definition set_sensorRefreshLockoutTimeout (v : option nat) (s : SimpliSafe3) : SimpliSafe3 :=
  mkSimpliSafe3 (subId s) (lastSubscriptionRequests s) (sensorRefreshInterval s)
    (sensorRefreshTime s) v
    (sensorRefreshLockoutEnabled s) (sensorSubscriptions s)
    (isBlocked s) (nextBlockInterval s) (nextAttempt s).

Definition set_sensorRefreshLockoutEnabled (v : bool) (s : SimpliSafe3) : SimpliSafe3 :=
  mkSimpliSafe3 (subId s) (lastSubscriptionRequests s) (sensorRefreshInterval s)
    (sensorRefreshTime s) (sensorRefreshLockoutTimeout s)
    v (sensorSubscriptions s)
    (isBlocked s) (nextBlockInterval s) (nextAttempt s).

Definition set_sensorSubscriptions (v : list (string * nat)) (s : SimpliSafe3) : SimpliSafe3 :=
  mkSimpliSafe3 (subId s) (lastSubscriptionRequests s) (sensorRefreshInterval s)
    (sensorRefreshTime s) (sensorRefreshLockoutTimeout s)
    (sensorRefreshLockoutEnabled s) v
    (isBlocked s) (nextBlockInterval s) (nextAttempt s).

Definition set_rateLimit (blocked : bool) (interval attempt : Z) (s : SimpliSafe3) : SimpliSafe3 :=
  mkSimpliSafe3 (subId s) (lastSubscriptionRequests s) (sensorRefreshInterval s)
    (sensorRefreshTime s) (sensorRefreshLockoutTimeout s)
    (sensorRefreshLockoutEnabled s) (sensorSubscriptions s)
    blocked interval attempt.

(** *** The rate-limit guard *)

Definition _resetRateLimitHandler (s : SimpliSafe3) : SimpliSafe3 :=
  set_rateLimit false rateLimitInitialInterval (nextAttempt s) s.

(** [now] is the value of [Date.now()]. *)
Definition _setRateLimitHandler (now : Z) (s : SimpliSafe3) : SimpliSafe3 :=
  set_rateLimit true
    (if nextBlockInterval s <? rateLimitMaxInterval
     then nextBlockInterval s * 2 else nextBlockInterval s)
    (now + nextBlockInterval s) s.

(** [this.isBlocked && Date.now() < this.nextAttempt] *)
Definition rate_limited (now : Z) (s : SimpliSafe3) : bool :=
  isBlocked s && (now <? nextAttempt s).

(** The object as the constructor leaves it ([sensorRefreshTime] defaults to
    15000). *)
Definition new_SimpliSafe3 (refreshTime : Z) : SimpliSafe3 :=
  _resetRateLimitHandler
    (mkSimpliSafe3 None ∅ None refreshTime None false []
       false rateLimitInitialInterval 0).

(** Consecutive engagements of the guard, at the given times, with no reset
    in between. *)
Definition engagements (times : list Z) (s : SimpliSafe3) : SimpliSafe3 :=
  fold_left (fun acc t => _setRateLimitHandler t acc) times s.

(** ** The JavaScript runtime *)

(** The callbacks the client hands to [setTimeout] and [setInterval]. *)
Inductive timer_body :=
  | CacheEvict (subscriptionId : Z)   (* this.lastSubscriptionRequests[subscriptionId] = null *)
  | LockoutExpire                     (* this.sensorRefreshLockoutTimeout = undefined *)
  | SensorRefresh.                    (* the function given to setInterval by subscribeToSensor *)

Record timer := mkTimer {
  tm_id : nat;
  tm_due : Z;
  tm_repeat : option Z;     (* the period of a setInterval timer *)
  tm_body : timer_body
}.

(** Where a call of [this.request] was made, with the parameters of the call:
    the promise it returns is consumed there. *)
Inductive continuation :=
  | KCaller                                            (* some other method awaits it *)
  | KSubscription (subscriptionId : Z)                 (* getSubscription: .then .catch .finally *)
  | KSetAlarmState (sub : option Z) (state : string).  (* setAlarmState: the POST *)

(** An [async] call suspended at an [await]. *)
Inductive task :=
  | AwaitHttp (tokenRefreshed : bool) (k : continuation)   (* await ssApi.request(...) *)
  | AwaitRefresh (k : continuation)                        (* authManager.refreshCredentials() *)
  | AwaitSubscriptions (forceRefresh : bool)               (* getSubscription: await this.getSubscriptions() *)
  | AwaitSubscription (state : string).                    (* setAlarmState: await this.getSubscription() *)

Record world := mkWorld {
  this : SimpliSafe3;
  clock : Z;                              (* Date.now() *)
  timers : list timer;                    (* pending timers, in the order they were set *)
  inflight : gmap nat task;
  promises : gmap nat (result json);      (* the cached promises that have settled *)
  next_id : nat                           (* next fresh handle *)
}.

Definition set_this (s : SimpliSafe3) (w : world) : world :=
  mkWorld s (clock w) (timers w) (inflight w) (promises w) (next_id w).
Definition set_clock (t : Z) (w : world) : world :=
  mkWorld (this w) t (timers w) (inflight w) (promises w) (next_id w).
Definition set_timers (ts : list timer) (w : world) : world :=
  mkWorld (this w) (clock w) ts (inflight w) (promises w) (next_id w).
Definition set_inflight (m : gmap nat task) (w : world) : world :=
  mkWorld (this w) (clock w) (timers w) m (promises w) (next_id w).
Definition set_promises (m : gmap nat (result json)) (w : world) : world :=
  mkWorld (this w) (clock w) (timers w) (inflight w) m (next_id w).
Definition set_next_id (n : nat) (w : world) : world :=
  mkWorld (this w) (clock w) (timers w) (inflight w) (promises w) n.

Definition new_world (refreshTime : Z) : world :=
  mkWorld (new_SimpliSafe3 refreshTime) 0 [] ∅ ∅ 0.

(** [setTimeout(body, delay)] and [setInterval(body, period)] return the new
    handle. *)
Definition setTimeout (body : timer_body) (delay : Z) (w : world) : nat * world :=
  (next_id w,
   set_next_id (S (next_id w))
     (set_timers (timers w ++ [mkTimer (next_id w) (clock w + delay) None body]) w)).

Definition setInterval (body : timer_body) (period : Z) (w : world) : nat * world :=
  (next_id w,
   set_next_id (S (next_id w))
     (set_timers (timers w ++ [mkTimer (next_id w) (clock w + period) (Some period) body]) w)).

(** [clearTimeout(h)] and [clearInterval(h)]: the timer is taken off the list;
    nothing happens for [undefined] or for a handle that is no longer pending.
    The variable that held [h] keeps its value. *)
Definition clearTimeout (h : option nat) (w : world) : world :=
  match h with
  | Some i => set_timers (filter (fun tm => tm_id tm ≠ i) (timers w)) w
  | None => w
  end.

Definition clearInterval := clearTimeout.

(** What one run of the poller's function does. *)
Inductive poll :=
  | PollNoSubscribers      (* sensorSubscriptions.length == 0: return *)
  | PollLockedOut          (* sensorRefreshLockoutTimeout is set: return *)
  | PollGetSensors.        (* await this.getSensors(true) *)

(** The payload of an [event] message of the socket, by the properties the
    code reads. *)
Record push := mkPush {
  sid : Z;
  eventType : string;
  eventCid : Z;
  sensorType : option Z
}.

(** What a step of the client lets an observer see: the calls it makes to its
    collaborators, the promises that settle, the timers that fire. *)
Inductive obs :=
  | ObsRequest (id : nat) (k : continuation)        (* a method called this.request(...) *)
  | ObsHttp (id : nat) (k : continuation)           (* ssApi.request(...) was called: network I/O *)
  | ObsRefreshCredentials (id : nat)                (* authManager.refreshCredentials() was called *)
  | ObsSettled (id : nat) (r : result json)         (* the promise of call [id] settled *)
  | ObsJoined (subscriptionId : Z) (p : nat)        (* a getSubscription call awaits promise [p] *)
  | ObsGetSubscriptions (id : nat)                  (* this.getSubscriptions() was called *)
  | ObsGetSubscription (id : nat)                   (* this.getSubscription() was called *)
  | ObsThrown (e : error)                           (* the call threw before its first await *)
  | ObsCallback (ev : option EVENT_TYPES) (data : option push)   (* callback(ev, data) *)
  | ObsFired (b : timer_body)                       (* a timer called its body *)
  | ObsPoll (d : poll).

(** ** The methods of [SimpliSafe3] *)

Definition update_this (f : SimpliSafe3 -> SimpliSafe3) (w : world) : world :=
  set_this (f (this w)) w.

(** [handleSensorRefreshLockout()] *)
Definition handleSensorRefreshLockout (w : world) : world :=
  if negb (sensorRefreshLockoutEnabled (this w)) then w
  else
    let w1 := clearTimeout (sensorRefreshLockoutTimeout (this w)) w in
    let '(h, w2) := setTimeout LockoutExpire sensorRefreshLockoutDuration w1 in
    update_this (set_sensorRefreshLockoutTimeout (Some h)) w2.

(** The promise returned by [this.request] settles with [r] and the code that
    consumes it runs: the [.then .catch .finally] chain of getSubscription
    (whose promise is the one kept in the cache, and whose [.finally] sets the
    eviction timer), or the rest of setAlarmState. *)
Definition settle (id : nat) (k : continuation) (r : result json) (w : world)
  : world * list obs :=
  match k with
  | KCaller => (w, [ObsSettled id r])
  | KSubscription subscriptionId =>
      let w1 := set_promises (<[id := r]> (promises w)) w in
      let '(_, w2) := setTimeout (CacheEvict subscriptionId) subscriptionCacheTime w1 in
      (w2, [ObsSettled id r])
  | KSetAlarmState _ _ =>
      match r with
      | Return data => (handleSensorRefreshLockout w, [ObsSettled id r])
      | Throw _ => (w, [ObsSettled id r])
      end
  end.

(** The [.catch(async err => ...)] of the refresh-and-retry chain in
    [request]. *)
Definition refresh_catch (now : Z) (err : error) (s : SimpliSafe3) : SimpliSafe3 * error :=
  match err_prop "status" err with
  | None => (s, TypeError)
  | Some statusCode =>
      if loose_eq statusCode 403 then
        (_setRateLimitHandler now s,
         match err_prop "response" err ≫= prop "data" with
         | Some data => RateLimitError data
         | None => TypeError
         end)
      else (s, err)
  end.

(** One invocation of [request] is over with outcome [r].  The retry
    ([tokenRefreshed = true]) runs inside the refresh chain, so its rejection
    passes through [refresh_catch] before it reaches the caller. *)
Definition finish (id : nat) (tokenRefreshed : bool) (k : continuation)
    (r : result json) (w : world) : world * list obs :=
  let w0 := set_inflight (delete id (inflight w)) w in
  match tokenRefreshed, r with
  | true, Throw e =>
      let '(s, e') := refresh_catch (clock w0) e (this w0) in
      settle id k (Throw e') (set_this s w0)
  | _, _ => settle id k r w0
  end.

(** [request(params, tokenRefreshed)] up to its first [await]: the guard, then
    the call of [ssApi.request]. *)
Definition request (id : nat) (tokenRefreshed : bool) (k : continuation) (w : world)
  : world * list obs :=
  if rate_limited (clock w) (this w) then
    finish id tokenRefreshed k
      (Throw (RateLimitError (JStr "Blocking request: rate limited"))) w
  else
    (set_inflight (<[id := AwaitHttp tokenRefreshed k]> (inflight w)) w, [ObsHttp id k]).

(** A method calls [this.request(params)]: [k] stands for the method and the
    parameters. *)
Definition call_request (id : nat) (k : continuation) (w : world) : world * list obs :=
  let '(w', o) := request id false k w in (w', ObsRequest id k :: o).

(** What [ssApi.request] can answer. *)
Inductive http_reply :=
  | Reply2xx (data : json)
  | NoResponse (message : string)           (* the error has no [response] *)
  | ReplyError (status : Z) (data : json).  (* err.response.status, err.response.data *)

(** [request] from the answer of [ssApi.request] on. *)
Definition request_resume (id : nat) (tokenRefreshed : bool) (k : continuation)
    (reply : http_reply) (w : world) : world * list obs :=
  match reply with
  | Reply2xx data =>
      finish id tokenRefreshed k (Return data) (update_this _resetRateLimitHandler w)
  | NoResponse message =>
      finish id tokenRefreshed k (Throw (RateLimitError (JStr message))) w
  | ReplyError statusCode data =>
      if (statusCode =? 401) && negb tokenRefreshed then
        (set_inflight (<[id := AwaitRefresh k]> (inflight w)) w, [ObsRefreshCredentials id])
      else if statusCode =? 403 then
        finish id tokenRefreshed k (Throw (RateLimitError data))
          (update_this (_setRateLimitHandler (clock w)) w)
      else
        finish id tokenRefreshed k (Throw (Thrown data)) w
  end.

(** [request] from the answer of [authManager.refreshCredentials()] on:
    [.then(() => this.request(params, true))] or the [.catch]. *)
Definition request_refreshed (id : nat) (k : continuation) (r : result unit) (w : world)
  : world * list obs :=
  match r with
  | Return _ => request id true k w
  | Throw e => finish id true k (Throw e) w
  end.

(** [!subscriptionId] for an id that is a number or [undefined]. *)
Definition no_id (o : option Z) : bool :=
  match o with Some z => z =? 0 | None => true end.

(** getSubscription, lines 281-299: the cache.  The promise is put under the
    key in the same synchronous run that calls [request]. *)
Definition getSubscription_fetch (subscriptionId : Z) (forceRefresh : bool) (w : world)
  : world * list obs :=
  match forceRefresh, lastSubscriptionRequests (this w) !! subscriptionId with
  | false, Some (Some p) => (w, [ObsJoined subscriptionId p])
  | _, _ =>
      let p := next_id w in
      let w1 :=
        update_this
          (fun s => set_lastSubscriptionRequests
                      (<[subscriptionId := Some p]> (lastSubscriptionRequests s)) s)
          (set_next_id (S p) w) in
      let '(w2, o) := call_request p (KSubscription subscriptionId) w1 in
      (w2, o ++ [ObsJoined subscriptionId p])
  end.

(** [getSubscription(subId, forceRefresh)] up to its first [await]. *)
Definition getSubscription (sub : option Z) (forceRefresh : bool) (w : world)
  : world * list obs :=
  let subscriptionId := if no_id sub then subId (this w) else sub in
  match subscriptionId with
  | Some i =>
      if no_id subscriptionId then
        (set_next_id (S (next_id w))
           (set_inflight (<[next_id w := AwaitSubscriptions forceRefresh]> (inflight w)) w),
         [ObsGetSubscriptions (next_id w)])
      else getSubscription_fetch i forceRefresh w
  | None =>
      (set_next_id (S (next_id w))
         (set_inflight (<[next_id w := AwaitSubscriptions forceRefresh]> (inflight w)) w),
       [ObsGetSubscriptions (next_id w)])
  end.

(** getSubscription from the answer of [getSubscriptions()] on; the list
    holds the [sid]s of the plans it returns.  getSubscriptions itself keeps
    the id in [this.subId] when there is exactly one plan.  The message for
    several plans goes on with their account numbers, left out here. *)
Definition getSubscription_resume (id : nat) (forceRefresh : bool)
    (r : result (list Z)) (w : world) : world * list obs :=
  let w0 := set_inflight (delete id (inflight w)) w in
  match r with
  | Throw e => (w0, [ObsSettled id (Throw e)])
  | Return [i] =>
      getSubscription_fetch i forceRefresh (update_this (set_subId (Some i)) w0)
  | Return [] =>
      (w0, [ObsSettled id (Throw (Error "No matching monitoring plans found. Check your account and ensure you have an active plan."))])
  | Return _ =>
      (w0, [ObsSettled id (Throw (Error "Multiple plans found."))])
  end.

(** What a caller of getSubscription gets from the promise it awaits:
    [data.subscription] or the rejection; [None] while it is pending. *)
Definition awaited (p : nat) (w : world) : option (result json) :=
  match promises w !! p with
  | Some (Return data) =>
      Some (match prop "subscription" data with
            | Some v => Return v
            | None => Throw TypeError
            end)
  | Some (Throw e) => Some (Throw e)
  | None => None
  end.

(** [setAlarmState(newState)] up to its first [await]. *)
Definition setAlarmState (newState : string) (w : world) : world * list obs :=
  let state := toLowerCase newState in
  if indexOf_is_minus_one validAlarmStates state then
    (w, [ObsThrown (Error "Invalid target state")])
  else
    let id := next_id w in
    let w1 := set_next_id (S id) w in
    if no_id (subId (this w)) then
      (set_inflight (<[id := AwaitSubscription state]> (inflight w1)) w1,
       [ObsGetSubscription id])
    else call_request id (KSetAlarmState (subId (this w)) state) w1.

(** setAlarmState from the answer of [this.getSubscription()] on. *)
Definition setAlarmState_resume (id : nat) (state : string) (r : result json) (w : world)
  : world * list obs :=
  let w0 := set_inflight (delete id (inflight w)) w in
  match r with
  | Throw e => (w0, [ObsSettled id (Throw e)])
  | Return _ => call_request id (KSetAlarmState (subId (this w)) state) w0
  end.

(** getLocks after [await this.lastLockRequest]:
    [this.sensorRefreshLockoutEnabled = data.length > 0]. *)
Definition getLocks_resume (data : json) (w : world) : world :=
  match js_length data with
  | Some n => update_this (set_sensorRefreshLockoutEnabled (gt_zero n)) w
  | None => w
  end.

(** [_socketCallback(data)], the listener for the [event] message of the
    socket in subscribeToEvents; [callback] is the subscriber's function. *)
Definition _socketCallback (data : push) (w : world) : world * list obs :=
  if negb (bool_decide (Some (sid data) = subId (this w))) then (w, [])
  else if String.eqb (eventType data) "alarm" then
    (w, [ObsCallback (Some ALARM_TRIGGER) (Some data)])
  else if String.eqb (eventType data) "alarmCancel" then
    (w, [ObsCallback (Some ALARM_OFF) (Some data)])
  else
    match eventCid data with
    | 1400 | 1407 =>
        (handleSensorRefreshLockout w, [ObsCallback (Some ALARM_DISARM) (Some data)])
    | 1406 =>
        (handleSensorRefreshLockout w, [ObsCallback (Some ALARM_CANCEL) (Some data)])
    | 1409 => (w, [ObsCallback (Some MOTION) (Some data)])
    | 9441 => (w, [ObsCallback (Some HOME_EXIT_DELAY) (Some data)])
    | 3441 | 3491 =>
        (handleSensorRefreshLockout w, [ObsCallback (Some HOME_ARM) (Some data)])
    | 9401 | 9407 => (w, [ObsCallback (Some AWAY_EXIT_DELAY) (Some data)])
    | 3401 | 3407 | 3487 | 3481 =>
        (handleSensorRefreshLockout w, [ObsCallback (Some AWAY_ARM) (Some data)])
    | 1429 => (w, [ObsCallback (Some ENTRY) (Some data)])
    | 1110 | 1154 | 1159 | 1162 | 1132 | 1134 | 1120 =>
        (w, [ObsCallback (Some ALARM_TRIGGER) (Some data)])
    | 1170 => (w, [ObsCallback (Some CAMERA_MOTION) (Some data)])
    | 1458 => (w, [ObsCallback (Some DOORBELL) (Some data)])
    | 9700 => (w, [ObsCallback (Some DOORLOCK_UNLOCKED) (Some data)])
    | 9701 => (w, [ObsCallback (Some DOORLOCK_LOCKED) (Some data)])
    | 9703 => (w, [ObsCallback (Some DOORLOCK_ERROR) (Some data)])
    | 1602 => (w, [])
    | _ => (w, [ObsCallback None (Some data)])
    end.

(** [subscribeToSensor(id, callback)] *)
Definition subscribeToSensor (id : string) (callback : nat) (w : world) : world :=
  let w1 :=
    match sensorRefreshInterval (this w) with
    | None =>
        let '(h, w') := setInterval SensorRefresh (sensorRefreshTime (this w)) w in
        update_this (set_sensorRefreshInterval (Some h)) w'
    | Some _ => w
    end in
  update_this (fun s => set_sensorSubscriptions (sensorSubscriptions s ++ [(id, callback)]) s) w1.

(** [unsubscribeFromSensor(id)] *)
Definition unsubscribeFromSensor (id : string) (w : world) : world :=
  let w1 :=
    update_this
      (fun s => set_sensorSubscriptions
                  (filter (fun sub => sub.1 ≠ id) (sensorSubscriptions s)) s) w in
  if (length (sensorSubscriptions (this w1)) =? 0)%nat
  then clearInterval (sensorRefreshInterval (this w1)) w1
  else w1.

(** The function given to [setInterval], up to its [await]. *)
Definition sensorRefresh_body (w : world) : poll :=
  if (length (sensorSubscriptions (this w)) =? 0)%nat then PollNoSubscribers
  else match sensorRefreshLockoutTimeout (this w) with
       | Some _ => PollLockedOut
       | None => PollGetSensors
       end.

(** *** Timers firing *)

Definition call_body (b : timer_body) (w : world) : world * list obs :=
  match b with
  | CacheEvict i =>
      (update_this
         (fun s => set_lastSubscriptionRequests (<[i := None]> (lastSubscriptionRequests s)) s) w,
       [ObsFired b])
  | LockoutExpire =>
      (update_this (set_sensorRefreshLockoutTimeout None) w, [ObsFired b])
  | SensorRefresh => (w, [ObsFired b; ObsPoll (sensorRefresh_body w)])
  end.

Fixpoint call_all (due : list timer) (w : world) : world * list obs :=
  match due with
  | [] => (w, [])
  | tm :: rest =>
      let '(w1, o1) := call_body (tm_body tm) w in
      let '(w2, o2) := call_all rest w1 in
      (w2, o1 ++ o2)
  end.

Definition due_le (a b : timer) : Prop := tm_due a ≤ tm_due b.

#[local] Instance due_le_dec : RelDecision due_le :=
  fun a b => Z_le_dec (tm_due a) (tm_due b).

(** A [setInterval] timer is put back, one period after the time it fired. *)
Definition rearm (t : Z) (tm : timer) : list timer :=
  match tm_repeat tm with
  | Some period => [mkTimer (tm_id tm) (t + period) (Some period) (tm_body tm)]
  | None => []
  end.

(** The clock reaches [now]: the timers that are due fire, earliest first. *)
Definition tick (now : Z) (w : world) : world * list obs :=
  let t := Z.max (clock w) now in
  let due := merge_sort due_le (filter (fun tm => tm_due tm ≤ t) (timers w)) in
  let later := filter (fun tm => ¬ tm_due tm ≤ t) (timers w) in
  call_all due (set_timers (later ++ flat_map (rearm t) due) (set_clock t w)).

(** ** The client as a transition system *)

Inductive event :=
  | Tick (now : Z)
  | CallRequest                                             (* a method calls this.request *)
  | CallGetSubscription (sub : option Z) (forceRefresh : bool)
  | CallSetAlarmState (newState : string)
  | CallSubscribeToSensor (id : string) (callback : nat)
  | CallUnsubscribeFromSensor (id : string)
  | HttpReply (id : nat) (reply : http_reply)               (* ssApi.request settles *)
  | RefreshReply (id : nat) (r : result unit)               (* refreshCredentials settles *)
  | SubscriptionsReply (id : nat) (r : result (list Z))     (* getSubscriptions settles *)
  | SubscriptionReply (id : nat) (r : result json)          (* getSubscription settles *)
  | LocksReply (data : json)                                (* getLocks: the lock request settles *)
  | SocketEvent (data : push).                              (* the socket delivers [event] *)

Definition step (e : event) (w : world) : world * list obs :=
  match e with
  | Tick now => tick now w
  | CallRequest => call_request (next_id w) KCaller (set_next_id (S (next_id w)) w)
  | CallGetSubscription sub forceRefresh => getSubscription sub forceRefresh w
  | CallSetAlarmState newState => setAlarmState newState w
  | CallSubscribeToSensor id callback => (subscribeToSensor id callback w, [])
  | CallUnsubscribeFromSensor id => (unsubscribeFromSensor id w, [])
  | HttpReply id reply =>
      match inflight w !! id with
      | Some (AwaitHttp tokenRefreshed k) => request_resume id tokenRefreshed k reply w
      | _ => (w, [])
      end
  | RefreshReply id r =>
      match inflight w !! id with
      | Some (AwaitRefresh k) => request_refreshed id k r w
      | _ => (w, [])
      end
  | SubscriptionsReply id r =>
      match inflight w !! id with
      | Some (AwaitSubscriptions forceRefresh) => getSubscription_resume id forceRefresh r w
      | _ => (w, [])
      end
  | SubscriptionReply id r =>
      match inflight w !! id with
      | Some (AwaitSubscription state) => setAlarmState_resume id state r w
      | _ => (w, [])
      end
  | LocksReply data => (getLocks_resume data w, [])
  | SocketEvent data => _socketCallback data w
  end.

Fixpoint run (es : list event) (w : world) : world * list obs :=
  match es with
  | [] => (w, [])
  | e :: rest =>
      let '(w1, o1) := step e w in
      let '(w2, o2) := run rest w1 in
      (w2, o1 ++ o2)
  end.

(** [subscribeToEvents(callback)] before it touches the socket: the guard. *)
Definition subscribeToEvents_guard (w : world) : option error :=
  if rate_limited (clock w) (this w)
  then Some (RateLimitError (JStr "Login request blocked (rate limit)."))
  else None.

(** ** The alarm accessory, [class SS3Alarm] *)

Module SS3Alarm.


(** [Characteristic.SecuritySystemTargetState] and
    [Characteristic.SecuritySystemCurrentState] of HomeKit. *)
Inductive SecuritySystemTargetState :=
  | TARGET_STAY_ARM | TARGET_AWAY_ARM | TARGET_NIGHT_ARM | TARGET_DISARM.
Inductive SecuritySystemCurrentState :=
  | CURRENT_STAY_ARM | CURRENT_AWAY_ARM | CURRENT_NIGHT_ARM | DISARMED | ALARM_TRIGGERED.

Definition TARGET_HOMEKIT_TO_SS3 (homekitState : SecuritySystemTargetState) : option string :=
  match homekitState with
  | TARGET_DISARM => Some "OFF"
  | TARGET_STAY_ARM => Some "HOME"
  | TARGET_AWAY_ARM => Some "AWAY"
  | TARGET_NIGHT_ARM => None
  end.

(** [SENSOR_TYPES.APP], [KEYPAD], [KEYCHAIN], [DOORLOCK] *)
Definition alarm_sensor_types : list Z := [0; 1; 2; 16].

(** The fields of the accessory that its methods count with; [service] says
    whether [this.service] is set. *)
Record alarm := mkAlarm {
  service : bool;
  nRetries : Z;
  nSocketConnectFailures : Z
}.

(** The accessory as its constructor leaves it. *)
Definition new_alarm : alarm := mkAlarm false 0 0.

(** The functions the accessory gives to [setTimeout]. *)
Inductive action :=
  | RetrySetTargetState (homekitState : SecuritySystemTargetState)
  | StartListening
  | RefreshState.

#[local] Instance SecuritySystemTargetState_eq_dec : EqDecision SecuritySystemTargetState.
Proof. solve_decision. Defined.

#[local] Instance action_eq_dec : EqDecision action.
Proof. solve_decision. Defined.

Inductive callback_error :=
  | NotLinked                  (* new Error('Alarm not linked to Homebridge service') *)
  | SetFailed (err : error).   (* new Error(`An error occurred while setting the alarm state: ${err}`) *)

Inductive effect :=
  | CallSetAlarmState (state : option string)     (* this.simplisafe.setAlarmState(state) *)
  | SetTimeout (f : action) (delay : Z)
  | Callback (err : option callback_error)        (* callback(null) or callback(new Error(...)) *)
  | UpdateCurrentState (v : SecuritySystemCurrentState)
  | UpdateTargetState (v : SecuritySystemTargetState)
  | SetFault (fault : bool)
  | Uncaught (e : error).                         (* thrown inside the catch block *)





(** startListening: the [catch] block around [subscribeToEvents].  The power
    [2 ** n] is exact in JavaScript for every count below 1024. *)
Definition startListening_catch (err : error) (a : alarm) : alarm * list effect :=
  if instanceof_RateLimitError err then
    let retryInterval := 2 ^ nSocketConnectFailures a * SOCKET_RETRY_INTERVAL in
    (mkAlarm (service a) (nRetries a) (nSocketConnectFailures a + 1),
     [SetTimeout StartListening retryInterval])
  else (a, []).

(** The second [switch] of the function given to subscribeToEvents. *)
Definition characteristic_updates (event : option EVENT_TYPES) : list effect :=
  match event with
  | Some ALARM_DISARM | Some ALARM_CANCEL | Some ALARM_OFF =>
      [UpdateTargetState TARGET_DISARM; UpdateCurrentState DISARMED]
  | Some HOME_ARM => [UpdateTargetState TARGET_STAY_ARM; UpdateCurrentState CURRENT_STAY_ARM]
  | Some AWAY_ARM => [UpdateTargetState TARGET_AWAY_ARM; UpdateCurrentState CURRENT_AWAY_ARM]
  | Some HOME_EXIT_DELAY => [UpdateTargetState TARGET_STAY_ARM]
  | Some AWAY_EXIT_DELAY => [UpdateTargetState TARGET_AWAY_ARM]
  | _ => []
  end.

(** The function given to subscribeToEvents, [(event, data) => ...]. *)
Definition on_event (event : option EVENT_TYPES) (data : option push) (a : alarm)
  : alarm * list effect :=
  let '(a1, effs) :=
    match event with
    | Some CONNECTED => (mkAlarm (service a) (nRetries a) 0, [])
    | Some CONNECTION_LOST => (a, [SetTimeout StartListening SOCKET_RETRY_INTERVAL])
    | _ => (a, [])
    end in
  match data with
  | Some d =>
      if service a1 &&
         match sensorType d with
         | Some t => existsb (Z.eqb t) alarm_sensor_types
         | None => false
         end
      then (a1, effs ++ characteristic_updates event)
      else (a1, effs)
  | None => (a1, effs)
  end.

(** [startListening()] with what follows from it: either subscribeToEvents
    throws, or it registers the function and the socket then delivers the
    events of the list. *)
Inductive listening :=
  | SubscribeThrows (err : error)
  | Subscribed (events : list (option EVENT_TYPES * option push)).

Definition startListening (l : listening) (a : alarm) : alarm * list effect :=
  match l with
  | SubscribeThrows err => startListening_catch err a
  | Subscribed events =>
      fold_left
        (fun acc ev =>
           let '(a1, effs) := on_event ev.1 ev.2 acc.1 in (a1, acc.2 ++ effs))
        events (a, [])
  end.

(** Successive calls of startListening, each made by the timer the previous
    one set. *)
Fixpoint listen_all (ls : list listening) (a : alarm) : alarm * list effect :=
  match ls with
  | [] => (a, [])
  | l :: rest =>
      let '(a1, effs) := startListening l a in
      let '(a2, effs2) := listen_all rest a1 in
      (a2, effs ++ effs2)
  end.

(** The delays of the timers set for [f]. *)
Definition delays (f : action) (effs : list effect) : list Z :=
  flat_map (fun e => match e with
                     | SetTimeout g d => if bool_decide (g = f) then [d] else []
                     | _ => []
                     end) effs.

Definition callbacks (effs : list effect) : list (option callback_error) :=
  flat_map (fun e => match e with Callback c => [c] | _ => [] end) effs.


(** startListening failing [n] times in a row on a RateLimitError. *)
Definition rate_limited_attempts (messages : list json) : list listening :=
  map (fun m => SubscribeThrows (RateLimitError m)) messages.

End SS3Alarm.

(** ** Readings of a world and of a list of observations *)

#[local] Instance timer_body_eq_dec : EqDecision timer_body.
Proof. solve_decision. Defined.

(** The pending timers of the lockout and of the sensor poller. *)
Definition lockouts (w : world) : list timer :=
  filter (fun tm => tm_body tm = LockoutExpire) (timers w).

Definition pollers (w : world) : list timer :=
  filter (fun tm => tm_body tm = SensorRefresh) (timers w).

(** The lockout is armed: the field holds the handle [h] of the one pending
    lockout timer, due at [due]. *)
Definition lockout_pending (h : nat) (due : Z) (w : world) : Prop :=
  sensorRefreshLockoutTimeout (this w) = Some h ∧
  lockouts w = [mkTimer h due None LockoutExpire].

(** How many times a timer body was called. *)
Definition fired (b : timer_body) (o : list obs) : nat :=
  length (List.filter
            (fun x => match x with ObsFired b' => bool_decide (b' = b) | _ => false end) o).

(** The promise in the cache for a subscription id, if there is one. *)
Definition live (subscriptionId : Z) (w : world) : option nat :=
  match lastSubscriptionRequests (this w) !! subscriptionId with
  | Some (Some p) => Some p
  | _ => None
  end.

(** The calls of [this.request] made by getSubscription for an id, and the
    promises its callers were given. *)
Definition requests (subscriptionId : Z) (o : list obs) : list nat :=
  flat_map (fun x => match x with
                     | ObsRequest id (KSubscription i) =>
                         if bool_decide (i = subscriptionId) then [id] else []
                     | _ => []
                     end) o.

Definition joined (subscriptionId : Z) (o : list obs) : list nat :=
  flat_map (fun x => match x with
                     | ObsJoined i p => if bool_decide (i = subscriptionId) then [p] else []
                     | _ => []
                     end) o.

(** Network calls ([ssApi.request]) among the observations. *)
Definition network_calls (o : list obs) : list nat :=
  flat_map (fun x => match x with ObsHttp id _ => [id] | _ => [] end) o.

(** The event is a request coming back with a success. *)
Definition succeeds (e : event) : bool :=
  match e with HttpReply _ (Reply2xx _) => true | _ => false end.

(** The event is not a getSubscription call that forces a refresh of the
    subscription [K]: a call with forceRefresh names another subscription. *)
Definition unforced (K : Z) (e : event) : bool :=
  match e with
  | CallGetSubscription sub true =>
      match sub with
      | Some i => negb (i =? 0) && negb (i =? K)
      | None => false
      end
  | _ => true
  end.

(** No getSubscription call with forceRefresh is waiting for the list of
    plans. *)
Definition no_forced_discovery (w : world) : Prop :=
  ∀ id, inflight w !! id ≠ Some (AwaitSubscriptions true).

(** No such call has been added from [m] to [m']. *)
Definition tasks_ok (m m' : gmap nat task) : Prop :=
  ∀ id, m' !! id = Some (AwaitSubscriptions true) -> m !! id = Some (AwaitSubscriptions true).

(** An observation that says nothing about the subscription cache. *)
Definition cache_quiet (x : obs) : Prop :=
  match x with
  | ObsJoined _ _ | ObsRequest _ (KSubscription _) | ObsFired (CacheEvict _) => False
  | _ => True
  end.

(** From [w] to [w'] the cache is untouched and no forced call was added. *)
Definition cache_frame (w w' : world) : Prop :=
  lastSubscriptionRequests (this w') = lastSubscriptionRequests (this w) ∧
  tasks_ok (inflight w) (inflight w').

(** From [w] to [w'] the rate-limit guard is untouched. *)
Definition guard_same (w w' : world) : Prop :=
  isBlocked (this w') = isBlocked (this w) ∧
  nextBlockInterval (this w') = nextBlockInterval (this w) ∧
  nextAttempt (this w') = nextAttempt (this w) ∧
  clock w' = clock w.

(** What one step may do to the cache entry of [K], as its observations tell:
    a live entry stays and is the one every caller joins, unless its eviction
    timer fires; with no live entry, either nothing happens for [K], or one
    call of [this.request] is made and its promise is stored and joined. *)
Definition cache_step (K : Z) (w w' : world) (o : list obs) : Prop :=
  match live K w with
  | Some p =>
      fired (CacheEvict K) o = 0%nat ->
      live K w' = Some p ∧ requests K o = [] ∧ Forall (eq p) (joined K o)
  | None =>
      (live K w' = None ∧ requests K o = [] ∧ joined K o = []) ∨
      (∃ p, live K w' = Some p ∧ requests K o = [p] ∧ joined K o = [p])
  end.

(** From [w] to [w'] no timer was set or cleared and the two fields that
    hold timer handles are as they were. *)
Definition timers_kept (w w' : world) : Prop :=
  timers w' = timers w ∧ (next_id w <= next_id w')%nat ∧
  sensorRefreshInterval (this w') = sensorRefreshInterval (this w) ∧
  sensorRefreshLockoutTimeout (this w') = sensorRefreshLockoutTimeout (this w).

(** How the client keeps its timers: handles are fresh when they are given
    out, the handle of the poller never names a lockout timer, and at most
    one lockout timer is pending, the one the field holds. *)
Definition timers_wf (w : world) : Prop :=
  (∀ tm, tm ∈ timers w -> (tm_id tm < next_id w)%nat) ∧
  (∀ h, sensorRefreshInterval (this w) = Some h ->
        (h < next_id w)%nat ∧
        ∀ tm, tm ∈ timers w -> tm_id tm = h -> tm_body tm ≠ LockoutExpire) ∧
  (lockouts w = [] ∨ ∃ h due, lockout_pending h due w).

(** ** Readings for the runs of the client *)

(** The calls of [authManager.refreshCredentials()] among the observations. *)
Definition refreshes (o : list obs) : list nat :=
  flat_map (fun x => match x with ObsRefreshCredentials id => [id] | _ => [] end) o.

(** What the guard holds: the interval is the floor doubled some number of
    times, seven at most, and an open guard has the floor itself. *)
Definition guard_wf (s : SimpliSafe3) : Prop :=
  (∃ k, 0 ≤ k ≤ 7 ∧ nextBlockInterval s = rateLimitInitialInterval * 2 ^ k) ∧
  (isBlocked s = false -> nextBlockInterval s = rateLimitInitialInterval).

(** What one step may do to the guard: nothing, or one call of
    [_resetRateLimitHandler], or one call of [_setRateLimitHandler]. *)
Definition guard_move (s s' : SimpliSafe3) : Prop :=
  (isBlocked s' = isBlocked s ∧ nextBlockInterval s' = nextBlockInterval s ∧
   nextAttempt s' = nextAttempt s) ∨
  (isBlocked s' = false ∧ nextBlockInterval s' = rateLimitInitialInterval ∧
   nextAttempt s' = nextAttempt s) ∨
  (∃ now, isBlocked s' = true ∧
          nextBlockInterval s' = nextBlockInterval (_setRateLimitHandler now s) ∧
          nextAttempt s' = now + nextBlockInterval s).

(** The promise [p] has settled with [r]: its handle was given out, no call
    is waiting under it any more, and [r] is what awaiting it gives. *)
Definition settled_as (p : nat) (r : result json) (w : world) : Prop :=
  promises w !! p = Some r ∧ inflight w !! p = None ∧ (p < next_id w)%nat.

(** What the runs of the poller's function decided, in order. *)
Definition polls (o : list obs) : list poll :=
  flat_map (fun x => match x with ObsPoll d => [d] | _ => [] end) o.

(** The poller has been started once and no timer of it is pending. *)
Definition poller_stopped (w : world) : Prop :=
  is_Some (sensorRefreshInterval (this w)) ∧ pollers w = [].

(** At most one timer of the poller is pending: the one whose handle
    sensorRefreshInterval holds, with the period [refreshTime]. *)
Definition poller_single (refreshTime : Z) (w : world) : Prop :=
  sensorRefreshTime (this w) = refreshTime ∧
  match sensorRefreshInterval (this w) with
  | None => pollers w = []
  | Some h =>
      pollers w = [] ∨
      ∃ due, pollers w = [mkTimer h due (Some refreshTime) SensorRefresh]
  end.

(** ** More of the client *)

(** *** getSubscriptions *)

(** A monitoring plan of [data.subscriptions], by the properties the code
    reads: [sid], [sStatus] (a number) and [location.account] (a string, as
    the account number of the configuration is). *)
Record plan := mkPlan {
  plan_sid : Z;
  sStatus : Z;
  account : string
}.

(** getSubscriptions from the answer of its request on; [accountNumber] is
    the field of that name, [None] while it is undefined. *)
Definition getSubscriptions_resume (accountNumber : option string) (data : list plan)
    (w : world) : world * list plan :=
  let subscriptions := List.filter (fun s => existsb (Z.eqb (sStatus s)) [7; 10; 20]) data in
  let subscriptions :=
    match accountNumber with
    | Some a =>
        if truthy (JStr a)
        then List.filter (fun s => String.eqb (account s) a) subscriptions
        else subscriptions
    | None => subscriptions
    end in
  match subscriptions with
  | [s] => (update_this (set_subId (Some (plan_sid s))) w, subscriptions)
  | _ => (w, subscriptions)
  end.

(** getSubscription with no id at hand, from the answer to the request of
    getSubscriptions on: lines 269-278 and then the cache. *)
Definition discover (id : nat) (forceRefresh : bool) (accountNumber : option string)
    (data : list plan) (w : world) : world * list obs :=
  let '(w1, subs) := getSubscriptions_resume accountNumber data w in
  getSubscription_resume id forceRefresh (Return (map plan_sid subs)) w1.

(** The plan is one getSubscriptions keeps. *)
Definition matching (accountNumber : option string) (s : plan) : Prop :=
  sStatus s ∈ [7; 10; 20] ∧
  match accountNumber with
  | Some a => a = EmptyString ∨ account s = a
  | None => True
  end.

#[local] Instance matching_dec (accountNumber : option string) (s : plan) :
  Decision (matching accountNumber s).
Proof. unfold matching. destruct accountNumber; apply _. Defined.

(** *** getAlarmState *)

Definition validStates : list string :=
  ["OFF"; "HOME"; "AWAY"; "AWAY_COUNT"; "HOME_COUNT"; "ALARM_COUNT"; "ALARM"].

Inductive alarm_state :=
  | StateIs (state : string)   (* return ... *)
  | RetryForced                (* await this.getAlarmState(true, true) *)
  | Fails (e : error).         (* throw ... *)

(** [xs.includes(v)]: the string [v] is, when it is one of [xs]. *)
Definition includes (xs : list string) (v : json) : option string :=
  match v with
  | JStr x => if existsb (String.eqb x) xs then Some x else None
  | _ => None
  end.

(** getAlarmState from the answer of getSubscription on.  A value that is
    truthy is neither [undefined] nor [null], so its properties can be
    read. *)
Definition getAlarmState_resume (retry : bool) (subscription : json) : alarm_state :=
  match prop "location" subscription with
  | None => Fails TypeError
  | Some location =>
      (* subscription.location && subscription.location.system *)
      let system :=
        if truthy location then default JUndefined (prop "system" location)
        else location in
      if truthy system then
        if truthy (default JUndefined (prop "isAlarming" system)) then StateIs "ALARM"
        else
          match includes validStates (default JUndefined (prop "alarmState" system)) with
          | Some alarmState => StateIs alarmState
          | None =>
              if negb retry then RetryForced
              else Fails (Error "Alarm state not understood")
          end
      else Fails (Error "Subscription format not understood")
  end.

(** [getAlarmState(forceRefresh, retry)]: [answers] are the outcomes of the
    successive calls of getSubscription, and the first component of the
    result lists the [forceRefresh] of each call made.  With no answer left
    the call is still waiting. *)
Fixpoint getAlarmState (forceRefresh retry : bool) (answers : list (result json))
  : list bool * option (result string) :=
  match answers with
  | [] => ([forceRefresh], None)
  | Throw e :: _ => ([forceRefresh], Some (Throw e))
  | Return subscription :: rest =>
      match getAlarmState_resume retry subscription with
      | StateIs state => ([forceRefresh], Some (Return state))
      | Fails e => ([forceRefresh], Some (Throw e))
      | RetryForced =>
          let '(calls, out) := getAlarmState true true rest in
          (forceRefresh :: calls, out)
      end
  end.

(** The subscription has a [location.system], both truthy, whose
    [isAlarming] and [alarmState] are the two values. *)
Definition reports (subscription isAlarming alarmState : json) : Prop :=
  ∃ location system,
    prop "location" subscription = Some location ∧ truthy location = true ∧
    prop "system" location = Some system ∧ truthy system = true ∧
    prop "isAlarming" system = Some isAlarming ∧
    prop "alarmState" system = Some alarmState.

(** The value is not one of the strings of [validStates]. *)
Definition unknown_state (alarmState : json) : Prop :=
  ∀ state, alarmState = JStr state -> state ∉ validStates.

(** ** More of the alarm accessory *)

Module SS3AlarmState.
Import SS3Alarm.

(** The tables of the constructor, read at a state: [None] is [undefined],
    what a key that is not in the table gives. *)
Definition CURRENT_SS3_TO_HOMEKIT (state : string) : option SecuritySystemCurrentState :=
  if String.eqb state "OFF" then Some DISARMED
  else if String.eqb state "HOME" then Some CURRENT_STAY_ARM
  else if String.eqb state "AWAY" then Some CURRENT_AWAY_ARM
  else if String.eqb state "HOME_COUNT" then Some DISARMED
  else if String.eqb state "AWAY_COUNT" then Some DISARMED
  else if String.eqb state "ALARM_COUNT" then Some CURRENT_AWAY_ARM
  else if String.eqb state "ALARM" then Some ALARM_TRIGGERED
  else None.

Definition TARGET_SS3_TO_HOMEKIT (state : string) : option SecuritySystemTargetState :=
  if String.eqb state "OFF" then Some TARGET_DISARM
  else if String.eqb state "HOME" then Some TARGET_STAY_ARM
  else if String.eqb state "AWAY" then Some TARGET_AWAY_ARM
  else if String.eqb state "HOME_COUNT" then Some TARGET_STAY_ARM
  else if String.eqb state "AWAY_COUNT" then Some TARGET_AWAY_ARM
  else None.

(** What refreshState writes; [None] is [undefined]. *)
Inductive write :=
  | WriteCurrentState (v : option SecuritySystemCurrentState)
  | WriteTargetState (v : option SecuritySystemTargetState)
  | WriteFault (fault : bool)
  | Unhandled (e : error).         (* the promise of refreshState is rejected *)

(** [setFault(fault)] *)
Definition setFault (fault : bool) (a : alarm) : list write :=
  if service a then [WriteFault fault] else [Unhandled TypeError].

(** refreshState from the answer of getAlarmState on. *)
Definition refreshState (out : result string) (a : alarm) : list write :=
  match out with
  | Return state =>
      if service a then
        [WriteCurrentState (CURRENT_SS3_TO_HOMEKIT state);
         WriteTargetState (TARGET_SS3_TO_HOMEKIT state)] ++ setFault false a
      else setFault true a
  | Throw _ => setFault true a
  end.

End SS3AlarmState.

(** *** The listeners of the socket, subscribeToEvents lines 615-639 *)

(** What the socket emits besides [event]. *)
Inductive socket_message :=
  | SocketConnect
  | SocketError (err : json)
  | SocketReconnectFailed
  | SocketDisconnect (reason : string).

(** [unsubscribeFromEvents()]; the boolean says whether [this.socket] is
    set. *)
Definition unsubscribeFromEvents (socket : bool) : bool :=
  if socket then false else socket.

(** The listener for the message: the new [this.socket] and the events the
    subscriber's function is called with (it gets no data). *)
Definition socket_listener (m : socket_message) (socket : bool)
  : bool * list EVENT_TYPES :=
  match m with
  | SocketConnect => (socket, [CONNECTED])
  | SocketError err =>
      if truthy err then (unsubscribeFromEvents socket, [CONNECTION_LOST])
      else (socket, [])
  | SocketReconnectFailed => (unsubscribeFromEvents socket, [CONNECTION_LOST])
  | SocketDisconnect reason =>
      if String.eqb reason "io server disconnect"
      then (unsubscribeFromEvents socket, [CONNECTION_LOST])
      else (socket, [DISCONNECT])
  end.

(** The accessory's function called with each of the events, in order. *)
Fixpoint on_events (events : list EVENT_TYPES) (a : SS3Alarm.alarm)
  : SS3Alarm.alarm * list SS3Alarm.effect :=
  match events with
  | [] => (a, [])
  | ev :: rest =>
      let '(a1, effs) := SS3Alarm.on_event (Some ev) None a in
      let '(a2, effs2) := on_events rest a1 in
      (a2, effs ++ effs2)
  end.

(** *** The function of the sensor poller, from the answer of getSensors on *)

(** A sensor of [data.sensors], by its [serial]; the rest of it is handed to
    the callbacks as it is. *)
Record sensor := mkSensor {
  serial : string;
  reading : json
}.

(** Lines 672-676: the calls [sub.callback(sensor)], in order. *)
Definition notify (subscriptions : list (string * nat)) (sensors : list sensor)
  : list (nat * sensor) :=
  flat_map
    (fun sensor =>
       map (fun sub => (sub.2, sensor))
           (filter (fun sub => sub.1 = serial sensor) subscriptions))
    sensors.

(** The two fields the [catch] block works with; the boolean says whether a
    timer is held by [errorSupperessionTimeout]. *)
Record suppression := mkSuppression {
  errorSupperessionTimeout : bool;
  nSuppressedErrors : option Z
}.

Inductive log_line :=
  | LogError (err : error)    (* this.log.error(..., err) *)
  | LogWarn (n : Z).          (* this.log.warn(`${n} error(s) ...`) *)

(** Lines 677-691: the [catch] block. *)
Definition sensorRefresh_catch (debug : bool) (err : error) (s : suppression)
  : suppression * list log_line :=
  if instanceof_RateLimitError err then (s, [])
  else if debug then (s, [LogError err])
  else if negb (errorSupperessionTimeout s) then (mkSuppression true (Some 1), [])
  else (mkSuppression true (Z.succ <$> nSuppressedErrors s), []).

(** Lines 684-686: the function given to [setTimeout] in the [catch] block. *)
Definition suppression_expire (debug : bool) (s : suppression) : suppression * list log_line :=
  (mkSuppression false (nSuppressedErrors s),
   match nSuppressedErrors s with
   | Some n => if negb debug && (0 <? n) then [LogWarn n] else []
   | None => []
   end).

Inductive poller_event :=
  | PollThrows (err : error)     (* getSensors or a callback threw *)
  | SuppressionExpires.          (* the timer of the catch block fires *)

Definition poller_step (debug : bool) (e : poller_event) (s : suppression)
  : suppression * list log_line :=
  match e with
  | PollThrows err => sensorRefresh_catch debug err s
  | SuppressionExpires =>
      if errorSupperessionTimeout s then suppression_expire debug s else (s, [])
  end.

Fixpoint poller_run (debug : bool) (es : list poller_event) (s : suppression)
  : suppression * list log_line :=
  match es with
  | [] => (s, [])
  | e :: rest =>
      let '(s1, l1) := poller_step debug e s in
      let '(s2, l2) := poller_run debug rest s1 in
      (s2, l1 ++ l2)
  end.

(** The errors the [catch] block counts. *)
Definition counted (errs : list error) : list error :=
  List.filter (fun e => negb (instanceof_RateLimitError e)) errs.

(** *** generateSimplisafeId *)

Definition supportedCharacters : string :=
  "ABCDEFGHJKLMNPQRSTUVWXYZabcdefghijkmnpqrstuvwxyz0123456789".

(** The loop of generateSimplisafeId: [rolls] are the successive values of
    [Math.floor(Math.random() * supportedCharacters.length)], which are below
    58.  An index past the end would push [undefined], which [join('')]
    writes as nothing. *)
Fixpoint pick (n : nat) (rolls : list nat) : string :=
  match n, rolls with
  | S n', i :: rest =>
      match String.get i supportedCharacters with
      | Some c => String c (pick n' rest)
      | None => pick n' rest
      end
  | _, _ => EmptyString
  end.

Definition generateSimplisafeId (rolls : list nat) : string :=
  let id := pick 10 rolls in
  String.substring 0 5 id ++ "-" ++ String.substring 5 (String.length id - 5) id.

(** ** The client and the accessory together *)

(** The accessory's function called for each [callback(event, data)] the
    client makes, in order. *)
Fixpoint deliver (o : list obs) (a : SS3Alarm.alarm) : SS3Alarm.alarm * list SS3Alarm.effect :=
  match o with
  | [] => (a, [])
  | ObsCallback ev data :: rest =>
      let '(a1, effs) := SS3Alarm.on_event ev data a in
      let '(a2, effs2) := deliver rest a1 in
      (a2, effs ++ effs2)
  | _ :: rest => deliver rest a
  end.

(** The calls of [setAlarmState] among the effects of the accessory. *)
Definition setAlarmState_calls (effs : list SS3Alarm.effect) : list (option string) :=
  flat_map (fun e => match e with SS3Alarm.CallSetAlarmState s => [s] | _ => [] end) effs.

(** * Properties *)

(** ** The rate-limit guard *)

Lemma nextBlockInterval_engage (now : Z) (s : SimpliSafe3) :
  nextBlockInterval (_setRateLimitHandler now s) =
    if nextBlockInterval s <? rateLimitMaxInterval
    then 2 * nextBlockInterval s else nextBlockInterval s.
Proof.
  unfold _setRateLimitHandler. simpl.
  destruct (nextBlockInterval s <? rateLimitMaxInterval); lia.
Qed.

Lemma engagements_snoc (times : list Z) (t : Z) (s : SimpliSafe3) :
  engagements (times ++ [t]) s = _setRateLimitHandler t (engagements times s).
Proof. unfold engagements. by rewrite fold_left_app. Qed.

Lemma nextBlockInterval_below_ceiling (times : list Z) (s : SimpliSafe3) :
  (length times <= 6)%nat ->
  nextBlockInterval (engagements times (_resetRateLimitHandler s)) =
    rateLimitInitialInterval * 2 ^ Z.of_nat (length times).
Proof.
  induction times as [|t times IH] using rev_ind; intros Hlen.
  - reflexivity.
  - rewrite length_app in Hlen. simpl in Hlen.
    rewrite engagements_snoc, nextBlockInterval_engage, IH by lia.
    rewrite length_app, Nat2Z.inj_add, Z.pow_add_r by lia. simpl length.
    assert (Hlt : rateLimitInitialInterval * 2 ^ Z.of_nat (length times)
                  < rateLimitMaxInterval).
    { assert (2 ^ Z.of_nat (length times) <= 2 ^ 5)
        by (apply Z.pow_le_mono_r; lia).
      unfold rateLimitInitialInterval, rateLimitMaxInterval. lia. }
    apply Z.ltb_lt in Hlt. rewrite Hlt. change (2 ^ Z.of_nat 1) with 2. lia.
Qed.

(** The arithmetic of the guard: a reset puts nextBlockInterval at the
    60-second floor; in a run of consecutive engagements with no reset in
    between, the interval is 60000 * 2^n after the first n <= 6 of them, an
    engagement doubles the interval when it finds it below
    rateLimitMaxInterval and leaves it as it is otherwise.  Each engagement
    blocks until the time of the engagement plus the interval it found. *)
Theorem nextBlockInterval_doubles_below_ceiling
    (s : SimpliSafe3) (times : list Z) (now : Z) :
  let blocked := engagements times (_resetRateLimitHandler s) in
  nextBlockInterval (_resetRateLimitHandler s) = 60000 ∧
  ((length times <= 6)%nat -> nextBlockInterval blocked = 60000 * 2 ^ Z.of_nat (length times)) ∧
  nextBlockInterval (_setRateLimitHandler now blocked) =
    (if nextBlockInterval blocked <? 7200000
     then 2 * nextBlockInterval blocked else nextBlockInterval blocked) ∧
  isBlocked (_setRateLimitHandler now blocked) = true ∧
  nextAttempt (_setRateLimitHandler now blocked) = now + nextBlockInterval blocked.
Proof.
  intros blocked. split; [reflexivity|]. split.
  - intros Hlen. exact (nextBlockInterval_below_ceiling times s Hlen).
  - split; [apply nextBlockInterval_engage|]. split; reflexivity.
Qed.

(** C3, the code at the failing input: seven requests, each made when the
    block of the one before is over and each answered with 403.  All seven
    reach the network.  The seventh engagement finds 3,840,000 ms, which is
    below rateLimitMaxInterval, and doubles it: the interval is then
    7,680,000 ms, above the 7,200,000 ms of the ceiling. *)
Theorem nextBlockInterval_exceeds_ceiling :
  let forbidden := fun id => HttpReply id (ReplyError 403 JNull) in
  let r :=
    run [CallRequest; forbidden 0%nat; Tick 60000;
         CallRequest; forbidden 1%nat; Tick 180000;
         CallRequest; forbidden 2%nat; Tick 420000;
         CallRequest; forbidden 3%nat; Tick 900000;
         CallRequest; forbidden 4%nat; Tick 1860000;
         CallRequest; forbidden 5%nat; Tick 3780000;
         CallRequest; forbidden 6%nat] (new_world 15000) in
  network_calls r.2 = [0; 1; 2; 3; 4; 5; 6]%nat ∧
  nextBlockInterval (this r.1) = 7680000 ∧
  nextBlockInterval
    (engagements [0; 60000; 180000; 420000; 900000; 1860000; 3780000]
       (new_SimpliSafe3 15000)) = 7680000 ∧
  rateLimitMaxInterval < 7680000.
Proof.
  cbv zeta. split; [vm_compute; reflexivity|]. split; [vm_compute; reflexivity|].
  split; [vm_compute; reflexivity | unfold rateLimitMaxInterval; lia].
Qed.

(** ** Timers *)

Lemma filter_none {A} (P : A -> Prop) `{!∀ x, Decision (P x)} (l : list A) :
  (∀ x, x ∈ l -> ¬ P x) -> filter P l = [].
Proof.
  induction l as [|x l IH]; intros Hl; [done|].
  rewrite filter_cons_False by (apply Hl; left).
  apply IH. intros y Hy. apply Hl. by right.
Qed.

Lemma filter_swap {A} (P Q : A -> Prop)
    `{!∀ x, Decision (P x)} `{!∀ x, Decision (Q x)} (l : list A) :
  filter P (filter Q l) = filter Q (filter P l).
Proof.
  rewrite !list_filter_filter. apply list_filter_iff. intros x. tauto.
Qed.

Lemma lockouts_clearTimeout (h : option nat) (w : world) :
  lockouts (clearTimeout h w) =
    match h with
    | Some i => filter (fun tm => tm_id tm ≠ i) (lockouts w)
    | None => lockouts w
    end.
Proof.
  destruct h as [i|]; [|done]. unfold lockouts, clearTimeout. simpl.
  apply filter_swap.
Qed.

Lemma handleSensorRefreshLockout_disabled (w : world) :
  sensorRefreshLockoutEnabled (this w) = false -> handleSensorRefreshLockout w = w.
Proof. intros H. unfold handleSensorRefreshLockout. by rewrite H. Qed.

(** Arming with lock hardware present: a fresh 15-second timer is set and the
    field holds its handle. *)
Lemma handleSensorRefreshLockout_arms (w : world) :
  sensorRefreshLockoutEnabled (this w) = true ->
  let w' := handleSensorRefreshLockout w in
  sensorRefreshLockoutTimeout (this w') = Some (next_id w) ∧
  timers w' =
    timers (clearTimeout (sensorRefreshLockoutTimeout (this w)) w)
    ++ [mkTimer (next_id w) (clock w + sensorRefreshLockoutDuration) None LockoutExpire] ∧
  clock w' = clock w ∧ next_id w' = S (next_id w) ∧
  sensorRefreshLockoutEnabled (this w') = true.
Proof.
  intros H. unfold handleSensorRefreshLockout. rewrite H. simpl.
  destruct (sensorRefreshLockoutTimeout (this w)); simpl; by rewrite ?H.
Qed.

(** Arming when at most the timer held by the field is pending leaves exactly
    one lockout timer, the new one. *)
Lemma handleSensorRefreshLockout_pending (w : world) :
  sensorRefreshLockoutEnabled (this w) = true ->
  lockouts w = [] ∨ (∃ h due, lockout_pending h due w) ->
  lockout_pending (next_id w) (clock w + sensorRefreshLockoutDuration)
    (handleSensorRefreshLockout w).
Proof.
  intros Hen Hw.
  destruct (handleSensorRefreshLockout_arms w Hen) as (Hf & Ht & _).
  split; [done|]. unfold lockouts at 1. rewrite Ht, filter_app.
  fold (lockouts (clearTimeout (sensorRefreshLockoutTimeout (this w)) w)).
  rewrite lockouts_clearTimeout.
  rewrite filter_cons_True, filter_nil by done.
  destruct Hw as [Hnil | (h & due & Hh & Hl)].
  - rewrite Hnil. by destruct (sensorRefreshLockoutTimeout (this w)).
  - rewrite Hh, Hl. by rewrite filter_cons_False by (simpl; auto).
Qed.

Lemma call_body_frame (b : timer_body) (w : world) :
  let w' := (call_body b w).1 in
  timers w' = timers w ∧ clock w' = clock w ∧ next_id w' = next_id w ∧
  inflight w' = inflight w ∧ promises w' = promises w ∧
  sensorRefreshLockoutEnabled (this w') = sensorRefreshLockoutEnabled (this w) ∧
  isBlocked (this w') = isBlocked (this w) ∧
  nextAttempt (this w') = nextAttempt (this w) ∧
  nextBlockInterval (this w') = nextBlockInterval (this w).
Proof. by destruct b. Qed.

Lemma call_all_frame (due : list timer) (w : world) :
  let w' := (call_all due w).1 in
  timers w' = timers w ∧ clock w' = clock w ∧ next_id w' = next_id w ∧
  inflight w' = inflight w ∧ promises w' = promises w ∧
  sensorRefreshLockoutEnabled (this w') = sensorRefreshLockoutEnabled (this w) ∧
  isBlocked (this w') = isBlocked (this w) ∧
  nextAttempt (this w') = nextAttempt (this w) ∧
  nextBlockInterval (this w') = nextBlockInterval (this w).
Proof.
  revert w. induction due as [|tm due IH]; intros w; [done|].
  simpl. pose proof (call_body_frame (tm_body tm) w) as Hb.
  destruct (call_body (tm_body tm) w) as [w1 o1] eqn:E1.
  specialize (IH w1). destruct (call_all due w1) as [w2 o2] eqn:E2.
  simpl in *. intuition congruence.
Qed.

Lemma fired_app (b : timer_body) (o1 o2 : list obs) :
  fired b (o1 ++ o2) = (fired b o1 + fired b o2)%nat.
Proof. unfold fired. by rewrite List.filter_app, length_app. Qed.

(** A run of timer bodies calls the lockout body once for each lockout timer
    in it; the field is cleared if there is one and untouched otherwise. *)
Lemma call_all_lockout (due : list timer) (w : world) :
  fired LockoutExpire (call_all due w).2
    = length (filter (fun tm => tm_body tm = LockoutExpire) due) ∧
  sensorRefreshLockoutTimeout (this (call_all due w).1)
    = match filter (fun tm => tm_body tm = LockoutExpire) due with
      | [] => sensorRefreshLockoutTimeout (this w)
      | _ => None
      end.
Proof.
  revert w. induction due as [|tm due IH]; intros w; [done|].
  simpl. rewrite filter_cons.
  destruct (call_body (tm_body tm) w) as [w1 o1] eqn:E1.
  specialize (IH w1). destruct (call_all due w1) as [w2 o2] eqn:E2.
  simpl in *. destruct IH as [IHf IHt]. rewrite fired_app, IHf, IHt.
  destruct (tm_body tm) eqn:Eb; simpl in E1; simplify_eq; simpl;
    (split; [done|]);
    by destruct (filter (λ tm0 : timer, tm_body tm0 = LockoutExpire) due).
Qed.

Lemma tick_unfold (now : Z) (w : world) :
  tick now w =
    let t := Z.max (clock w) now in
    let due := merge_sort due_le (filter (fun tm => tm_due tm ≤ t) (timers w)) in
    call_all due
      (set_timers (filter (fun tm => ¬ tm_due tm ≤ t) (timers w) ++ flat_map (rearm t) due)
         (set_clock t w)).
Proof. reflexivity. Qed.

Lemma tick_frame (now : Z) (w : world) :
  let w' := (tick now w).1 in
  clock w' = Z.max (clock w) now ∧ next_id w' = next_id w ∧
  inflight w' = inflight w ∧ promises w' = promises w ∧
  sensorRefreshLockoutEnabled (this w') = sensorRefreshLockoutEnabled (this w) ∧
  isBlocked (this w') = isBlocked (this w) ∧
  nextAttempt (this w') = nextAttempt (this w) ∧
  nextBlockInterval (this w') = nextBlockInterval (this w).
Proof.
  rewrite tick_unfold. cbv zeta.
  match goal with |- context [call_all ?d ?x] => pose proof (call_all_frame d x) as H end.
  simpl in *. intuition congruence.
Qed.

Lemma rearm_lockout_free (t : Z) (due : list timer) :
  (∀ tm, tm ∈ due -> tm_body tm = LockoutExpire -> tm_repeat tm = None) ->
  filter (fun tm => tm_body tm = LockoutExpire) (flat_map (rearm t) due) = [].
Proof.
  intros H. apply filter_none. intros x Hx Hb.
  apply list_elem_of_In, in_flat_map in Hx. destruct Hx as (tm & Htm & Hx).
  apply list_elem_of_In in Htm. unfold rearm in Hx.
  destruct (tm_repeat tm) as [period|] eqn:Er; [|done].
  destruct Hx as [<-|[]]. simpl in Hb. by rewrite (H tm Htm Hb) in Er.
Qed.

(** The clock reaches [now] while the lockout is armed: its timer fires once
    if it is due by then, and otherwise stays as it is. *)
Lemma tick_lockout_pending (h : nat) (due now : Z) (w : world) :
  lockout_pending h due w ->
  if decide (due ≤ Z.max (clock w) now)
  then fired LockoutExpire (tick now w).2 = 1%nat ∧
       lockouts (tick now w).1 = [] ∧
       sensorRefreshLockoutTimeout (this (tick now w).1) = None
  else fired LockoutExpire (tick now w).2 = 0%nat ∧
       lockout_pending h due (tick now w).1.
Proof.
  intros [Hf Hl]. rewrite tick_unfold. cbv zeta.
  set (t := Z.max (clock w) now).
  set (ds := merge_sort due_le (filter (fun tm => tm_due tm ≤ t) (timers w))).
  set (w0 := set_timers _ _).
  assert (Hds : filter (fun tm => tm_body tm = LockoutExpire) ds
                ≡ₚ filter (fun tm => tm_due tm ≤ t) (lockouts w)).
  { unfold ds. rewrite merge_sort_Permutation. unfold lockouts.
    by rewrite filter_swap. }
  assert (Hre : filter (fun tm => tm_body tm = LockoutExpire) (flat_map (rearm t) ds) = []).
  { apply rearm_lockout_free. intros tm Htm Hb.
    assert (Hin : tm ∈ lockouts w).
    { unfold lockouts. apply list_elem_of_filter. split; [done|].
      unfold ds in Htm. rewrite merge_sort_Permutation in Htm.
      by apply list_elem_of_filter in Htm as [_ ?]. }
    rewrite Hl in Hin. apply list_elem_of_singleton in Hin. by subst tm. }
  assert (Hlo : lockouts w0
                = filter (fun tm => ¬ tm_due tm ≤ t) (lockouts w)).
  { unfold lockouts, w0. simpl. rewrite filter_app, Hre, app_nil_r.
    apply filter_swap. }
  destruct (call_all_lockout ds w0) as [Hfired Hfield].
  destruct (call_all_frame ds w0) as (Htm & _).
  rewrite Hl in Hds, Hlo. rewrite filter_cons, filter_nil in Hds, Hlo. simpl in Hds, Hlo.
  destruct (decide (due ≤ t)) as [Hdue|Hdue].
  - rewrite decide_False in Hlo by tauto.
    apply Permutation_singleton_r in Hds. rewrite Hds in Hfired, Hfield.
    split; [done|]. split; [|done].
    unfold lockouts. rewrite Htm. exact Hlo.
  - rewrite decide_True in Hlo by tauto.
    apply Permutation_nil_r in Hds. rewrite Hds in Hfired, Hfield.
    split; [done|]. split.
    + by rewrite Hfield.
    + unfold lockouts. rewrite Htm. exact Hlo.
Qed.

(** With no lockout timer pending, none fires. *)
Lemma tick_lockout_idle (now : Z) (w : world) :
  lockouts w = [] ->
  fired LockoutExpire (tick now w).2 = 0%nat ∧ lockouts (tick now w).1 = [].
Proof.
  intros Hl. rewrite tick_unfold. cbv zeta.
  set (t := Z.max (clock w) now).
  set (ds := merge_sort due_le (filter (fun tm => tm_due tm ≤ t) (timers w))).
  set (w0 := set_timers _ _).
  assert (Hds : filter (fun tm => tm_body tm = LockoutExpire) ds = []).
  { apply Permutation_nil_r. unfold ds. rewrite merge_sort_Permutation.
    rewrite filter_swap. fold (lockouts w). by rewrite Hl. }
  destruct (call_all_lockout ds w0) as [Hfired _].
  destruct (call_all_frame ds w0) as (Htm & _).
  rewrite Hds in Hfired. split; [done|].
  unfold lockouts. rewrite Htm. unfold w0. simpl. rewrite filter_app.
  rewrite filter_swap. fold (lockouts w). rewrite Hl, filter_nil. simpl.
  apply rearm_lockout_free. intros tm Htm' Hb. exfalso.
  assert (Hin : tm ∈ lockouts w).
  { unfold lockouts. apply list_elem_of_filter. split; [done|].
    unfold ds in Htm'. rewrite merge_sort_Permutation in Htm'.
    by apply list_elem_of_filter in Htm' as [_ ?]. }
  rewrite Hl in Hin. by apply elem_of_nil in Hin.
Qed.

(** C7: arming the lockout when lock hardware has not been seen
    (sensorRefreshLockoutEnabled is false) changes nothing.  With lock hardware
    present, and at most the timer held by the field pending, arming leaves
    exactly one lockout timer, due 15 seconds later; arming again at a time t2
    inside that window fires nothing before, replaces the timer by one due at
    t2 + 15000, and from then on the lockout body runs exactly once: not while
    the clock is before t2 + 15000, once when it reaches it, and never again. *)
Theorem lockout_rearm_fires_once (w : world) (t2 now later : Z) :
  lockouts w = [] ∨ (∃ h due, lockout_pending h due w) ->
  clock w ≤ t2 < clock w + sensorRefreshLockoutDuration ->
  (sensorRefreshLockoutEnabled (this w) = false -> handleSensorRefreshLockout w = w) ∧
  (sensorRefreshLockoutEnabled (this w) = true ->
   let w1 := handleSensorRefreshLockout w in
   let w2 := (tick t2 w1).1 in
   let w3 := handleSensorRefreshLockout w2 in
   let w4 := (tick now w3).1 in
   lockout_pending (next_id w) (clock w + 15000) w1 ∧
   fired LockoutExpire (tick t2 w1).2 = 0%nat ∧
   lockout_pending (next_id w2) (t2 + 15000) w3 ∧
   fired LockoutExpire (tick now w3).2 = (if decide (t2 + 15000 ≤ now) then 1%nat else 0%nat) ∧
   (t2 + 15000 ≤ now ->
    sensorRefreshLockoutTimeout (this w4) = None ∧ lockouts w4 = [] ∧
    fired LockoutExpire (tick later w4).2 = 0%nat)).
Proof.
  intros Hw Ht2. split; [apply handleSensorRefreshLockout_disabled|].
  intros Hen w1 w2 w3 w4. unfold sensorRefreshLockoutDuration in Ht2.
  pose proof (handleSensorRefreshLockout_pending w Hen Hw) as H1.
  destruct (handleSensorRefreshLockout_arms w Hen) as (_ & _ & Hc1 & _ & Hen1).
  fold w1 in H1, Hc1, Hen1. change sensorRefreshLockoutDuration with 15000 in H1.
  pose proof (tick_lockout_pending _ _ t2 w1 H1) as H2.
  rewrite Hc1 in H2. rewrite decide_False in H2 by lia.
  destruct H2 as [Hfired2 H2]. fold w2 in H2.
  destruct (tick_frame t2 w1) as (Hc2 & _ & _ & _ & Hen2 & _).
  fold w2 in Hc2, Hen2. rewrite Hc1 in Hc2. rewrite Hen1 in Hen2.
  assert (Hclock2 : clock w2 = t2) by lia.
  assert (H3 : lockout_pending (next_id w2) (t2 + 15000) w3).
  { rewrite <- Hclock2 at 1.
    apply (handleSensorRefreshLockout_pending w2 Hen2). right. eauto. }
  destruct (handleSensorRefreshLockout_arms w2 Hen2) as (_ & _ & Hc3 & _).
  fold w3 in Hc3. rewrite Hclock2 in Hc3.
  pose proof (tick_lockout_pending _ _ now w3 H3) as H4. rewrite Hc3 in H4.
  assert (Hmax : ∀ d, d ≤ Z.max t2 now <-> d ≤ now ∨ d ≤ t2) by lia.
  split; [exact H1|]. split; [exact Hfired2|]. split; [exact H3|]. split.
  - destruct (decide (t2 + 15000 ≤ now)).
    + rewrite decide_True in H4 by lia. apply H4.
    + rewrite decide_False in H4 by lia. apply H4.
  - intros Hnow. rewrite decide_True in H4 by lia.
    destruct H4 as (_ & Hidle & Hnone). fold w4 in Hidle, Hnone.
    split; [exact Hnone|]. split; [exact Hidle|].
    by apply tick_lockout_idle.
Qed.

(** C7 at a client that has seen one lock: armed at time 0 and again at time
    4000, checked at time 19000. *)
Lemma lockout_rearm_fires_once_witness :
  let w := getLocks_resume (JArr [JObj []]) (new_world 15000) in
  sensorRefreshLockoutEnabled (this w) = true ∧
  fired LockoutExpire
    (tick 19000 (handleSensorRefreshLockout (tick 4000 (handleSensorRefreshLockout w)).1)).2
  = 1%nat.
Proof.
  intros w. split; [reflexivity|].
  assert (Hw : lockouts w = [] ∨ (∃ h due, lockout_pending h due w))
    by (left; reflexivity).
  assert (Ht : clock w ≤ 4000 < clock w + sensorRefreshLockoutDuration)
    by (split; by vm_compute).
  exact (proj1 (proj2 (proj2 (proj2
           (proj2 (lockout_rearm_fires_once w 4000 19000 20000 Hw Ht) eq_refl))))).
Defined.

(** ** The sensor poller *)

(** Once the field holds a handle, cleared or not, subscribeToSensor sets no
    timer. *)
Lemma subscribeToSensor_keeps_timers (id : string) (callback h : nat) (w : world) :
  sensorRefreshInterval (this w) = Some h ->
  timers (subscribeToSensor id callback w) = timers w.
Proof. intros H. unfold subscribeToSensor. by rewrite H. Qed.

(** unsubscribeFromSensor never empties the field. *)
Lemma unsubscribeFromSensor_keeps_handle (id : string) (w : world) :
  sensorRefreshInterval (this (unsubscribeFromSensor id w)) = sensorRefreshInterval (this w).
Proof.
  unfold unsubscribeFromSensor. simpl.
  destruct (_ =? _)%nat; [|done]. unfold clearInterval, clearTimeout.
  by destruct (sensorRefreshInterval (this w)) eqn:E.
Qed.

(** The first subscription starts the poller, and taking the last subscriber
    away stops it. *)
Lemma first_subscription_starts_poller (id : string) (callback : nat) :
  let w := subscribeToSensor id callback (new_world 15000) in
  pollers w = [mkTimer 0 15000 (Some 15000) SensorRefresh] ∧
  pollers (unsubscribeFromSensor id w) = [].
Proof.
  split; [reflexivity|].
  unfold unsubscribeFromSensor, subscribeToSensor. simpl.
  rewrite filter_cons_False, filter_nil by (simpl; auto). reflexivity.
Qed.

(** C5, the code at the failing input: a sensor subscribes, unsubscribes
    (the registry is empty and the timer cleared), and another one subscribes.
    The registry then holds one subscriber and no poller timer is pending, so
    no tick of the clock polls: sensorRefreshInterval still holds the cleared
    handle, and subscribeToSensor starts a timer only when that field is
    falsy. *)
Theorem resubscribe_leaves_poller_stopped (now : Z) :
  let w :=
    (run [CallSubscribeToSensor "A" 1%nat; CallUnsubscribeFromSensor "A";
          CallSubscribeToSensor "B" 2%nat] (new_world 15000)).1 in
  sensorSubscriptions (this w) = [("B", 2%nat)] ∧
  sensorRefreshInterval (this w) = Some 0%nat ∧
  pollers w = [] ∧
  (tick now w).2 = [].
Proof.
  intros w. assert (Ht : timers w = []) by reflexivity.
  split; [reflexivity|]. split; [reflexivity|]. split; [reflexivity|].
  rewrite tick_unfold, Ht. reflexivity.
Qed.

(** ** setAlarmState *)

Lemma indexOf_is_minus_one_spec (xs : list string) (x : string) :
  indexOf_is_minus_one xs x = true <-> x ∉ xs.
Proof.
  unfold indexOf_is_minus_one. rewrite negb_true_iff, <- not_true_iff_false.
  rewrite existsb_exists. split.
  - intros H Hin. apply H. exists x. split; [by apply list_elem_of_In|].
    apply String.eqb_refl.
  - intros H (y & Hy & Heq). apply String.eqb_eq in Heq. subst y.
    by apply H, list_elem_of_In.
Qed.

Lemma call_request_head (id : nat) (k : continuation) (w : world) :
  ∃ rest, (call_request id k w).2 = ObsRequest id k :: rest.
Proof. unfold call_request. destruct (request id false k w). simpl. eauto. Qed.

(** C9: when the lowercased newState is not 'off', 'home' or 'away',
    setAlarmState throws 'Invalid target state' at once: no call of the
    network, no other effect, the client and the runtime exactly as before.
    When it is one of them, whatever the case of the letters given, nothing is
    thrown: the call goes on to [this.getSubscription()] (no subscription id
    yet) or to [this.request] for the POST of that lowercased state. *)
Theorem setAlarmState_validates (newState : string) (w : world) :
  (toLowerCase newState ∉ validAlarmStates ->
   setAlarmState newState w = (w, [ObsThrown (Error "Invalid target state")]) ∧
   network_calls (setAlarmState newState w).2 = []) ∧
  (toLowerCase newState ∈ validAlarmStates ->
   ∃ rest,
     (setAlarmState newState w).2 =
       (if no_id (subId (this w)) then ObsGetSubscription (next_id w)
        else ObsRequest (next_id w)
               (KSetAlarmState (subId (this w)) (toLowerCase newState))) :: rest).
Proof.
  split.
  - intros H. apply indexOf_is_minus_one_spec in H.
    unfold setAlarmState. rewrite H. done.
  - intros H. unfold setAlarmState.
    destruct (indexOf_is_minus_one _ _) eqn:E.
    + apply indexOf_is_minus_one_spec in E. done.
    + destruct (no_id (subId (this w))); [by eexists|].
      apply call_request_head.
Qed.




(** ** The realtime events *)

(** C6: for a push of this account whose eventType is neither 'alarm' nor
    'alarmCancel', event code 1407 calls the subscriber once, with ALARM_DISARM
    and the push, and runs handleSensorRefreshLockout (which, with lock
    hardware seen, leaves the lockout armed for 15 seconds); event code 1602
    calls nothing and changes nothing. *)
Theorem socket_1407_disarms_1602_is_silent (data : push) (w : world) :
  subId (this w) = Some (sid data) ->
  eventType data ≠ "alarm" -> eventType data ≠ "alarmCancel" ->
  (eventCid data = 1407 ->
   step (SocketEvent data) w
     = (handleSensorRefreshLockout w, [ObsCallback (Some ALARM_DISARM) (Some data)]) ∧
   (sensorRefreshLockoutEnabled (this w) = true ->
    sensorRefreshLockoutTimeout (this (step (SocketEvent data) w).1) = Some (next_id w) ∧
    mkTimer (next_id w) (clock w + 15000) None LockoutExpire
      ∈ timers (step (SocketEvent data) w).1)) ∧
  (eventCid data = 1602 -> step (SocketEvent data) w = (w, [])).
Proof.
  intros Hsid Halarm Hcancel.
  assert (Hstep : ∀ cid, eventCid data = cid ->
            step (SocketEvent data) w =
              match cid with
              | 1407 => (handleSensorRefreshLockout w,
                         [ObsCallback (Some ALARM_DISARM) (Some data)])
              | 1602 => (w, [])
              | _ => step (SocketEvent data) w
              end).
  { intros cid Hcid. unfold step, _socketCallback.
    rewrite Hsid, bool_decide_eq_true_2 by done. simpl.
    apply String.eqb_neq in Halarm, Hcancel. rewrite Halarm, Hcancel, Hcid.
    by repeat case_match. }
  split.
  - intros Hcid. rewrite (Hstep 1407 Hcid). split; [done|].
    intros Hen. simpl.
    destruct (handleSensorRefreshLockout_arms w Hen) as (Hf & Ht & _).
    split; [done|]. rewrite Ht. apply elem_of_app. right. by left.
  - intros Hcid. by rewrite (Hstep 1602 Hcid).
Qed.

(** C6 on the pushes of a disarm by remote and of an automatic test, for the
    account 42 with a lock. *)
Lemma socket_1407_disarms_1602_is_silent_witness :
  let w := update_this (set_subId (Some 42))
             (getLocks_resume (JArr [JObj []]) (new_world 15000)) in
  let disarm := mkPush 42 "activity" 1407 (Some 1) in
  (step (SocketEvent disarm) w).2 = [ObsCallback (Some ALARM_DISARM) (Some disarm)] ∧
  sensorRefreshLockoutTimeout (this (step (SocketEvent disarm) w).1) = Some 0%nat ∧
  (step (SocketEvent (mkPush 42 "activity" 1602 None)) w).2 = [].
Proof.
  intros w disarm.
  assert (H1 : eventType disarm ≠ "alarm") by discriminate.
  assert (H2 : eventType disarm ≠ "alarmCancel") by discriminate.
  pose proof (socket_1407_disarms_1602_is_silent disarm w eq_refl H1 H2) as [Hd _].
  pose proof (socket_1407_disarms_1602_is_silent (mkPush 42 "activity" 1602 None) w
                eq_refl H1 H2) as [_ Ht].
  destruct (Hd eq_refl) as [Hs Harm]. split; [by rewrite Hs|].
  split; [exact (proj1 (Harm eq_refl))|]. by rewrite (Ht eq_refl).
Defined.

(** ** The alarm accessory *)

Module AlarmProperties.
Import SS3Alarm.

Lemma delays_app (f : action) (l1 l2 : list effect) :
  delays f (l1 ++ l2) = delays f l1 ++ delays f l2.
Proof. unfold delays. apply flat_map_app. Qed.

Lemma callbacks_app (l1 l2 : list effect) :
  callbacks (l1 ++ l2) = callbacks l1 ++ callbacks l2.
Proof. unfold callbacks. apply flat_map_app. Qed.





Lemma listen_all_rate_limited (messages : list json) (a : alarm) :
  0 ≤ nSocketConnectFailures a ->
  let r := listen_all (rate_limited_attempts messages) a in
  nSocketConnectFailures r.1 = nSocketConnectFailures a + Z.of_nat (length messages) ∧
  delays StartListening r.2
    = map (fun i => 1000 * 2 ^ (nSocketConnectFailures a + Z.of_nat i))
        (seq 0 (length messages)).
Proof.
  revert a. induction messages as [|m messages IH]; intros a Hn.
  - simpl. split; [lia|done].
  - cbn [rate_limited_attempts map listen_all startListening startListening_catch
         instanceof_RateLimitError].
    set (a1 := mkAlarm (service a) (nRetries a) (nSocketConnectFailures a + 1)).
    specialize (IH a1). fold (rate_limited_attempts messages).
    destruct (listen_all (rate_limited_attempts messages) a1) as [a2 effs2] eqn:E.
    destruct IH as [IH1 IH2]; [simpl; lia|]. simpl in IH1, IH2. simpl.
    split; [lia|]. rewrite ?bool_decide_eq_true_2 by done. simpl.
    unfold SOCKET_RETRY_INTERVAL. f_equal; [rewrite Z.add_0_r; lia|].
    rewrite IH2, <- seq_shift, map_map. apply map_ext. intros i.
    f_equal. f_equal. lia.
Qed.

(** C4, as the code has it: each call of startListening that fails on a
    RateLimitError sets the next call 1000 * 2^n ms later, n being the count
    of such failures so far, and adds one to the count, so that failures in a
    row from a count of 0 wait 1 s, 2 s, 4 s, ... with every delay twice the
    one before; a CONNECTED event puts the count back to 0; a CONNECTION_LOST
    event sets the next call 1000 ms later whatever the count. *)
Theorem reconnect_backoff_doubles (a : alarm) (m : json) (data : option push)
    (messages : list json) :
  startListening (SubscribeThrows (RateLimitError m)) a
    = (mkAlarm (service a) (nRetries a) (nSocketConnectFailures a + 1),
       [SetTimeout StartListening (2 ^ nSocketConnectFailures a * 1000)]) ∧
  delays StartListening
    (listen_all (rate_limited_attempts messages)
       (mkAlarm (service a) (nRetries a) 0)).2
    = map (fun i => 1000 * 2 ^ Z.of_nat i) (seq 0 (length messages)) ∧
  nSocketConnectFailures (on_event (Some CONNECTED) data a).1 = 0 ∧
  delays StartListening (on_event (Some CONNECTION_LOST) data a).2 = [1000] ∧
  nSocketConnectFailures (on_event (Some CONNECTION_LOST) data a).1
    = nSocketConnectFailures a.
Proof.
  split; [reflexivity|]. split.
  - by destruct (listen_all_rate_limited messages (mkAlarm (service a) (nRetries a) 0))
      as [_ H].
  - unfold on_event. simpl. destruct data as [d|]; simpl; [|done].
    destruct (service a && _); simpl; rewrite ?bool_decide_eq_true_2 by done; done.
Qed.

(** C4, the claim as stated fails: the delay has no cap.  Whatever bound is
    proposed, enough failures in a row set a timer beyond it. *)
Lemma reconnect_backoff_has_no_cap :
  ¬ ∃ cap : Z, ∀ messages : list json,
      Forall (fun delay => delay ≤ cap)
        (delays StartListening (listen_all (rate_limited_attempts messages) new_alarm).2).
Proof.
  intros [cap Hcap].
  set (n := Z.to_nat (Z.max 0 cap)).
  specialize (Hcap (repeat JNull (S n))).
  destruct (listen_all_rate_limited (repeat JNull (S n)) new_alarm) as [_ Hd];
    [done|].
  cbv zeta in Hd. rewrite Hd, repeat_length in Hcap. clear Hd.
  rewrite Forall_forall in Hcap.
  specialize (Hcap (1000 * 2 ^ (nSocketConnectFailures new_alarm + Z.of_nat n))).
  assert (Hpow : Z.of_nat n < 2 ^ Z.of_nat n) by (apply Z.pow_gt_lin_r; lia).
  simpl nSocketConnectFailures in Hcap.
  assert (cap < 1000 * 2 ^ (0 + Z.of_nat n)).
  { rewrite Z.add_0_l. unfold n in *. lia. }
  apply Zlt_not_le in H. apply H, Hcap.
  apply list_elem_of_In, in_map_iff. exists n. split; [done|].
  apply in_seq. lia.
Qed.

End AlarmProperties.

(** ** What each method leaves alone *)

Lemma tasks_ok_refl (m : gmap nat task) : tasks_ok m m.
Proof. by intros id. Qed.

Lemma tasks_ok_trans (m1 m2 m3 : gmap nat task) :
  tasks_ok m1 m2 -> tasks_ok m2 m3 -> tasks_ok m1 m3.
Proof. intros H1 H2 id H. by apply H1, H2. Qed.

Lemma tasks_ok_delete (id : nat) (m : gmap nat task) : tasks_ok m (delete id m).
Proof.
  intros i H. destruct (decide (id = i)) as [->|Hne].
  - by rewrite lookup_delete_eq in H.
  - by rewrite lookup_delete_ne in H.
Qed.

Lemma tasks_ok_insert (id : nat) (t : task) (m : gmap nat task) :
  t ≠ AwaitSubscriptions true -> tasks_ok m (<[id := t]> m).
Proof.
  intros Ht i H. destruct (decide (id = i)) as [->|Hne].
  - rewrite lookup_insert_eq in H. congruence.
  - by rewrite lookup_insert_ne in H.
Qed.

Lemma cache_frame_refl (w : world) : cache_frame w w.
Proof. split; [done|apply tasks_ok_refl]. Qed.

Lemma cache_frame_trans (w1 w2 w3 : world) :
  cache_frame w1 w2 -> cache_frame w2 w3 -> cache_frame w1 w3.
Proof.
  intros [H1 H1'] [H2 H2']. split; [congruence|by eapply tasks_ok_trans].
Qed.

Lemma guard_same_refl (w : world) : guard_same w w.
Proof. by repeat split. Qed.

Lemma guard_same_trans (w1 w2 w3 : world) :
  guard_same w1 w2 -> guard_same w2 w3 -> guard_same w1 w3.
Proof. unfold guard_same. intuition congruence. Qed.

Lemma handleSensorRefreshLockout_frame (w : world) :
  cache_frame w (handleSensorRefreshLockout w) ∧
  guard_same w (handleSensorRefreshLockout w).
Proof.
  unfold handleSensorRefreshLockout, cache_frame, guard_same.
  destruct (sensorRefreshLockoutEnabled (this w)); simpl;
    [destruct (sensorRefreshLockoutTimeout (this w)); simpl|];
    repeat split; try done; apply tasks_ok_refl.
Qed.

Lemma settle_frame (id : nat) (k : continuation) (r : result json) (w : world) :
  (settle id k r w).2 = [ObsSettled id r] ∧
  cache_frame w (settle id k r w).1 ∧ guard_same w (settle id k r w).1.
Proof.
  destruct k as [|i|sub state]; simpl.
  - split; [done|]. split; [apply cache_frame_refl|apply guard_same_refl].
  - split; [done|]. split; [split; [done|apply tasks_ok_refl]|by repeat split].
  - destruct r; simpl; (split; [done|]).
    + apply handleSensorRefreshLockout_frame.
    + split; [apply cache_frame_refl|apply guard_same_refl].
Qed.

Lemma refresh_catch_frame (now : Z) (e : error) (s : SimpliSafe3) :
  let r := refresh_catch now e s in
  lastSubscriptionRequests r.1 = lastSubscriptionRequests s ∧
  (isBlocked s = true -> isBlocked r.1 = true) ∧
  (∀ m, e = RateLimitError m -> r = (s, e)).
Proof.
  unfold refresh_catch. destruct (err_prop "status" e) as [v|] eqn:Ev.
  - destruct (loose_eq v 403) eqn:El; simpl; (split; [done|]); (split; [done|]).
    + intros m ->. simpl in Ev. by simplify_eq.
    + done.
  - simpl. split; [done|]. split; [done|]. by intros m ->.
Qed.

(** An invocation of request that is over says nothing about the cache, calls
    no network, and can only leave the guard blocked if it was. *)
Lemma finish_frame (id : nat) (tokenRefreshed : bool) (k : continuation)
    (r : result json) (w : world) :
  let f := finish id tokenRefreshed k r w in
  Forall cache_quiet f.2 ∧ network_calls f.2 = [] ∧ cache_frame w f.1 ∧
  (isBlocked (this w) = true -> isBlocked (this f.1) = true) ∧
  (tokenRefreshed = false ∨ (∃ m, r = Throw (RateLimitError m)) ∨ (∃ d, r = Return d) ->
   f.2 = [ObsSettled id r] ∧ guard_same w f.1).
Proof.
  unfold finish.
  set (w0 := set_inflight (delete id (inflight w)) w).
  assert (Hc0 : cache_frame w w0) by (split; [done|apply tasks_ok_delete]).
  assert (Hplain : let f := settle id k r w0 in
            Forall cache_quiet f.2 ∧ network_calls f.2 = [] ∧ cache_frame w f.1 ∧
            (isBlocked (this w) = true -> isBlocked (this f.1) = true) ∧
            f.2 = [ObsSettled id r] ∧ guard_same w f.1).
  { destruct (settle_frame id k r w0) as (Ho & Hc & Hg). cbv zeta. rewrite Ho.
    split; [by repeat constructor|]. split; [done|].
    split; [by eapply cache_frame_trans|].
    split; [|done]. destruct Hg as (-> & _). done. }
  destruct tokenRefreshed, r as [d|e]; try (cbv zeta in Hplain; tauto).
  pose proof (refresh_catch_frame (clock w0) e (this w0)) as (Hl & Hb & Hrl).
  destruct (refresh_catch (clock w0) e (this w0)) as [s e'] eqn:E. simpl in *.
  destruct (settle_frame id k (Throw e') (set_this s w0)) as (Ho & Hc & Hg).
  rewrite Ho. split; [by repeat constructor|]. split; [done|]. split.
  { eapply cache_frame_trans; [|exact Hc]. split; [done|apply tasks_ok_delete]. }
  split.
  { destruct Hg as (-> & _). exact Hb. }
  intros [?|[[m Hm]|[d Hd]]]; try done. simplify_eq.
  specialize (Hrl m eq_refl). simplify_eq. split; [done|].
  destruct Hg as (Hg1 & Hg2 & Hg3 & Hg4). by repeat split.
Qed.

(** request up to its await: blocked, it fails at once with a RateLimitError
    and no network call; otherwise it calls the network.  Either way the guard
    and the cache stay as they are. *)
Lemma request_frame (id : nat) (tokenRefreshed : bool) (k : continuation) (w : world) :
  let r := request id tokenRefreshed k w in
  Forall cache_quiet r.2 ∧ cache_frame w r.1 ∧ guard_same w r.1 ∧
  (if rate_limited (clock w) (this w)
   then r.2 = [ObsSettled id (Throw (RateLimitError (JStr "Blocking request: rate limited")))]
   else r.2 = [ObsHttp id k]).
Proof.
  unfold request. destruct (rate_limited (clock w) (this w)).
  - pose proof (finish_frame id tokenRefreshed k
                  (Throw (RateLimitError (JStr "Blocking request: rate limited"))) w)
      as (Hq & _ & Hc & _ & Hg).
    destruct Hg as [Ho Hg]; [right; left; eauto|]. done.
  - simpl. split; [by repeat constructor|]. split; [|split; [by repeat split|done]].
    split; [done|]. by apply tasks_ok_insert.
Qed.

Lemma call_request_frame (id : nat) (k : continuation) (w : world) :
  let r := call_request id k w in
  r.2 = ObsRequest id k :: (request id false k w).2 ∧
  cache_frame w r.1 ∧ guard_same w r.1.
Proof.
  unfold call_request.
  pose proof (request_frame id false k w) as (_ & Hc & Hg & _).
  by destruct (request id false k w).
Qed.

(** request from the answer of the network on. *)
Lemma request_resume_frame (id : nat) (tokenRefreshed : bool) (k : continuation)
    (reply : http_reply) (w : world) :
  let r := request_resume id tokenRefreshed k reply w in
  Forall cache_quiet r.2 ∧ network_calls r.2 = [] ∧ cache_frame w r.1 ∧
  clock r.1 = clock w ∧
  match reply with
  | Reply2xx _ =>
      isBlocked (this r.1) = false ∧ nextBlockInterval (this r.1) = rateLimitInitialInterval
  | ReplyError 403 _ =>
      isBlocked (this r.1) = true ∧
      nextAttempt (this r.1) = clock w + nextBlockInterval (this w)
  | _ => isBlocked (this w) = true -> isBlocked (this r.1) = true
  end.
Proof.
  unfold request_resume. destruct reply as [d|message|statusCode d].
  - pose proof (finish_frame id tokenRefreshed k (Return d)
                  (update_this _resetRateLimitHandler w)) as (Hq & Hn & Hc & _ & Hg).
    destruct Hg as [_ (Hg1 & Hg2 & _ & Hg4)]; [right; right; eauto|].
    split; [done|]. split; [done|]. split; [exact Hc|]. by rewrite Hg1, Hg2.
  - pose proof (finish_frame id tokenRefreshed k (Throw (RateLimitError (JStr message))) w)
      as (Hq & Hn & Hc & Hb & Hg).
    destruct Hg as [_ (_ & _ & _ & Hg4)]; [right; left; eauto|]. done.
  - destruct ((statusCode =? 401) && negb tokenRefreshed) eqn:E401.
    + simpl. split; [by repeat constructor|]. split; [done|].
      split; [split; [done|by apply tasks_ok_insert]|]. split; [done|].
      apply andb_true_iff in E401 as [E401 _]. apply Z.eqb_eq in E401. by subst.
    + destruct (statusCode =? 403) eqn:E403.
      * apply Z.eqb_eq in E403. subst statusCode.
        pose proof (finish_frame id tokenRefreshed k (Throw (RateLimitError d))
                      (update_this (_setRateLimitHandler (clock w)) w))
          as (Hq & Hn & Hc & _ & Hg).
        destruct Hg as [_ (Hg1 & _ & Hg3 & Hg4)]; [right; left; eauto|].
        split; [done|]. split; [done|]. split; [exact Hc|]. split; [done|].
        by rewrite Hg1, Hg3.
      * pose proof (finish_frame id tokenRefreshed k (Throw (Thrown d)) w)
          as (Hq & Hn & Hc & Hb & _).
        assert (Hclock : clock (finish id tokenRefreshed k (Throw (Thrown d)) w).1 = clock w).
        { unfold finish. destruct tokenRefreshed.
          - destruct (refresh_catch _ _ _) as [s e'].
            by destruct (settle_frame id k (Throw e')
                           (set_this s (set_inflight (delete id (inflight w)) w)))
              as (_ & _ & _ & _ & _ & ->).
          - by destruct (settle_frame id k (Throw (Thrown d))
                           (set_inflight (delete id (inflight w)) w))
              as (_ & _ & _ & _ & _ & ->). }
        split; [done|]. split; [done|]. split; [done|]. split; [done|].
        apply Z.eqb_neq in E403.
        destruct statusCode as [|q|q]; try done.
        repeat (destruct q as [q|q|]; try done).
Qed.

Lemma request_refreshed_frame (id : nat) (k : continuation) (r : result unit) (w : world) :
  let f := request_refreshed id k r w in
  Forall cache_quiet f.2 ∧ cache_frame w f.1 ∧
  (isBlocked (this w) = true -> isBlocked (this f.1) = true).
Proof.
  unfold request_refreshed. destruct r as [u|e].
  - pose proof (request_frame id true k w) as (Hq & Hc & (Hg & _) & _).
    split; [done|]. split; [done|]. by rewrite Hg.
  - pose proof (finish_frame id true k (Throw e) w) as (Hq & _ & Hc & Hb & _). done.
Qed.

(** The cache of getSubscription: a hit changes nothing and joins the stored
    promise; a miss (or a forced refresh) stores a fresh promise under the key,
    calls [this.request] once and joins that promise. *)
Lemma getSubscription_fetch_frame (i : Z) (forceRefresh : bool) (w : world) :
  let r := getSubscription_fetch i forceRefresh w in
  guard_same w r.1 ∧ tasks_ok (inflight w) (inflight r.1) ∧
  match forceRefresh, lastSubscriptionRequests (this w) !! i with
  | false, Some (Some p) => r = (w, [ObsJoined i p])
  | _, _ =>
      lastSubscriptionRequests (this r.1)
        = <[i := Some (next_id w)]> (lastSubscriptionRequests (this w)) ∧
      ∃ o, Forall cache_quiet o ∧
           r.2 = ObsRequest (next_id w) (KSubscription i) :: o ++ [ObsJoined i (next_id w)]
  end.
Proof.
  unfold getSubscription_fetch.
  set (w1 := update_this _ (set_next_id (S (next_id w)) w)).
  assert (Hmiss :
    let r := (let '(w2, o) := call_request (next_id w) (KSubscription i) w1 in
              (w2, o ++ [ObsJoined i (next_id w)])) in
    guard_same w r.1 ∧ tasks_ok (inflight w) (inflight r.1) ∧
    lastSubscriptionRequests (this r.1)
      = <[i := Some (next_id w)]> (lastSubscriptionRequests (this w)) ∧
    ∃ o, Forall cache_quiet o ∧
         r.2 = ObsRequest (next_id w) (KSubscription i) :: o ++ [ObsJoined i (next_id w)]).
  { pose proof (call_request_frame (next_id w) (KSubscription i) w1) as (Ho & [Hc Ht] & Hg).
    pose proof (request_frame (next_id w) false (KSubscription i) w1) as (Hq & _).
    destruct (call_request (next_id w) (KSubscription i) w1) as [w2 o]. simpl in *.
    split; [exact Hg|]. split; [exact Ht|]. split; [by rewrite Hc|].
    eexists. split; [exact Hq|]. by rewrite Ho. }
  cbv zeta in Hmiss.
  destruct forceRefresh; [exact Hmiss|].
  destruct (lastSubscriptionRequests (this w) !! i) as [[p|]|]; try exact Hmiss.
  simpl. split; [apply guard_same_refl|]. split; [apply tasks_ok_refl|done].
Qed.

Lemma getSubscription_guard (sub : option Z) (forceRefresh : bool) (w : world) :
  guard_same w (getSubscription sub forceRefresh w).1.
Proof.
  unfold getSubscription.
  destruct (if no_id sub then subId (this w) else sub) as [i|]; [|by repeat split].
  destruct (no_id (Some i)); [by repeat split|].
  apply getSubscription_fetch_frame.
Qed.

Lemma getSubscription_resume_guard (id : nat) (forceRefresh : bool)
    (r : result (list Z)) (w : world) :
  guard_same w (getSubscription_resume id forceRefresh r w).1.
Proof.
  unfold getSubscription_resume. destruct r as [[|i [|j l]]|e]; try by repeat split.
  match goal with |- context [getSubscription_fetch i forceRefresh ?x] =>
    pose proof (getSubscription_fetch_frame i forceRefresh x) as [Hg _] end.
  destruct Hg as (H1 & H2 & H3 & H4). by repeat split.
Qed.

Lemma setAlarmState_frame (newState : string) (w : world) :
  let r := setAlarmState newState w in
  Forall cache_quiet r.2 ∧ cache_frame w r.1 ∧ guard_same w r.1.
Proof.
  unfold setAlarmState. destruct (indexOf_is_minus_one _ _).
  { split; [by repeat constructor|]. split; [apply cache_frame_refl|apply guard_same_refl]. }
  destruct (no_id (subId (this w))).
  { split; [by repeat constructor|].
    split; [split; [done|by apply tasks_ok_insert]|by repeat split]. }
  match goal with |- context [call_request ?i ?k ?x] =>
    pose proof (call_request_frame i k x) as (Ho & Hc & Hg);
    pose proof (request_frame i false k x) as (Hq & _) end.
  rewrite Ho. split; [by constructor|]. split.
  - destruct Hc as [Hc1 Hc2]. by split.
  - destruct Hg as (H1 & H2 & H3 & H4). by repeat split.
Qed.

Lemma setAlarmState_resume_frame (id : nat) (state : string) (r : result json) (w : world) :
  let f := setAlarmState_resume id state r w in
  Forall cache_quiet f.2 ∧ cache_frame w f.1 ∧ guard_same w f.1.
Proof.
  unfold setAlarmState_resume. destruct r as [d|e].
  - match goal with |- context [call_request ?i ?k ?x] =>
      pose proof (call_request_frame i k x) as (Ho & Hc & Hg);
      pose proof (request_frame i false k x) as (Hq & _) end.
    rewrite Ho. split; [by constructor|]. split.
    + destruct Hc as [Hc1 Hc2]. split; [done|].
      eapply tasks_ok_trans; [apply (tasks_ok_delete id)|exact Hc2].
    + destruct Hg as (H1 & H2 & H3 & H4). by repeat split.
  - split; [by repeat constructor|].
    split; [split; [done|apply tasks_ok_delete]|by repeat split].
Qed.

Lemma _socketCallback_frame (data : push) (w : world) :
  let r := _socketCallback data w in
  Forall cache_quiet r.2 ∧ (r.1 = w ∨ r.1 = handleSensorRefreshLockout w).
Proof.
  unfold _socketCallback.
  destruct (negb _); [by split; [constructor|left]|].
  destruct (String.eqb _ "alarm"); [by split; [repeat constructor|left]|].
  destruct (String.eqb _ "alarmCancel"); [by split; [repeat constructor|left]|].
  repeat case_match; simpl; (split; [by repeat constructor|]); auto.
Qed.

Lemma sensor_frames (id : string) (callback : nat) (w : world) :
  (cache_frame w (subscribeToSensor id callback w) ∧
   guard_same w (subscribeToSensor id callback w)) ∧
  (cache_frame w (unsubscribeFromSensor id w) ∧
   guard_same w (unsubscribeFromSensor id w)).
Proof.
  split.
  - unfold subscribeToSensor. destruct (sensorRefreshInterval (this w)); simpl;
      (split; [split; [done|apply tasks_ok_refl]|by repeat split]).
  - unfold unsubscribeFromSensor, clearInterval, clearTimeout. simpl.
    destruct (_ =? _)%nat; [destruct (sensorRefreshInterval (this w))|];
      (split; [split; [done|apply tasks_ok_refl]|by repeat split]).
Qed.

Lemma getLocks_resume_frame (data : json) (w : world) :
  cache_frame w (getLocks_resume data w) ∧ guard_same w (getLocks_resume data w).
Proof.
  unfold getLocks_resume. destruct (js_length data);
    (split; [split; [done|apply tasks_ok_refl]|by repeat split]).
Qed.

(** ** The rate-limit guard on the runs of the client *)

(** No event but a success lifts the block. *)
Lemma step_keeps_block (e : event) (w : world) :
  succeeds e = false ->
  isBlocked (this w) = true -> isBlocked (this (step e w).1) = true.
Proof.
  intros He Hb. destruct e as [now| |sub f|newState|id cb|id|id reply|id r|id r|id r|data|data];
    cbn [step fst].
  - destruct (tick_frame now w) as (_ & _ & _ & _ & _ & -> & _). done.
  - match goal with |- context [call_request ?i ?k ?x] =>
      destruct (call_request_frame i k x) as (_ & _ & (-> & _)) end. done.
  - destruct (getSubscription_guard sub f w) as (-> & _). done.
  - destruct (setAlarmState_frame newState w) as (_ & _ & (-> & _)). done.
  - destruct (sensor_frames id cb w) as [[_ (-> & _)] _]. done.
  - destruct (sensor_frames id 0%nat w) as [_ [_ (-> & _)]]. done.
  - destruct (inflight w !! id) as [[tr k|k|f|st]|]; try done.
    pose proof (request_resume_frame id tr k reply w) as (_ & _ & _ & _ & H).
    destruct reply as [d|m|statusCode d]; [done|by apply H|].
    destruct statusCode as [|q|q]; try by apply H.
    repeat (destruct q as [q|q|]; try by apply H).
  - destruct (inflight w !! id) as [[tr k|k|f|st]|]; try done.
    by apply request_refreshed_frame.
  - destruct (inflight w !! id) as [[tr k|k|f|st]|]; try done.
    destruct (getSubscription_resume_guard id f r w) as (-> & _). done.
  - destruct (inflight w !! id) as [[tr k|k|f|st]|]; try done.
    destruct (setAlarmState_resume_frame id st r w) as (_ & _ & (-> & _)). done.
  - destruct (getLocks_resume_frame data w) as [_ (-> & _)]. done.
  - destruct (_socketCallback_frame data w) as [_ [-> | ->]]; [done|].
    destruct (handleSensorRefreshLockout_frame w) as [_ (-> & _)]. done.
Qed.

Lemma run_app (es1 es2 : list event) (w : world) :
  run (es1 ++ es2) w =
    let r1 := run es1 w in
    let r2 := run es2 r1.1 in (r2.1, r1.2 ++ r2.2).
Proof.
  revert w. induction es1 as [|e es1 IH]; intros w; simpl.
  - by destruct (run es2 w).
  - destruct (step e w) as [w1 o1]. rewrite IH. simpl.
    destruct (run es1 w1) as [w2 o2]. simpl.
    destruct (run es2 w2) as [w3 o3]. simpl. by rewrite app_assoc.
Qed.

Lemma run_keeps_block (es : list event) (w : world) :
  Forall (fun e => succeeds e = false) es ->
  isBlocked (this w) = true -> isBlocked (this (run es w).1) = true.
Proof.
  intros Hes. revert w. induction Hes as [|e es He Hes IH]; intros w Hb; [done|].
  simpl. pose proof (step_keeps_block e w He Hb) as H1.
  destruct (step e w) as [w1 o1]. specialize (IH w1 H1).
  by destruct (run es w1).
Qed.

(** C2, as the code has it: when a request in flight gets an HTTP 403,
    isBlocked is true and nextAttempt is the time of the answer plus the
    interval.  As long as no request comes back with a success in between (one
    that was already in flight when the 403 came), isBlocked stays true, and
    every call of request made while the clock is before nextAttempt fails
    at once with a RateLimitError, makes no network call and leaves the guard
    as it is; once the clock has reached nextAttempt a call goes to the
    network.  Any request that comes back with a success puts isBlocked to
    false and nextBlockInterval to its 60-second floor. *)
Theorem forbidden_reply_blocks_until_success
    (w : world) (id : nat) (tokenRefreshed : bool) (k : continuation) (data : json)
    (es : list event) :
  inflight w !! id = Some (AwaitHttp tokenRefreshed k) ->
  Forall (fun e => succeeds e = false) es ->
  let w1 := (step (HttpReply id (ReplyError 403 data)) w).1 in
  let w2 := (run es w1).1 in
  isBlocked (this w1) = true ∧
  nextAttempt (this w1) = clock w + nextBlockInterval (this w) ∧
  isBlocked (this w2) = true ∧
  (∀ id' tr' k', clock w2 < nextAttempt (this w2) ->
     (request id' tr' k' w2).2
       = [ObsSettled id' (Throw (RateLimitError (JStr "Blocking request: rate limited")))] ∧
     network_calls (request id' tr' k' w2).2 = [] ∧
     guard_same w2 (request id' tr' k' w2).1) ∧
  (∀ id' tr' k', nextAttempt (this w2) ≤ clock w2 ->
     (request id' tr' k' w2).2 = [ObsHttp id' k']) ∧
  (∀ id' tr' k' d, inflight w2 !! id' = Some (AwaitHttp tr' k') ->
     let w3 := (step (HttpReply id' (Reply2xx d)) w2).1 in
     isBlocked (this w3) = false ∧ nextBlockInterval (this w3) = 60000).
Proof.
  intros Hin Hes w1 w2.
  assert (H1 : isBlocked (this w1) = true ∧
               nextAttempt (this w1) = clock w + nextBlockInterval (this w)).
  { unfold w1. cbn [step]. rewrite Hin.
    by pose proof (request_resume_frame id tokenRefreshed k (ReplyError 403 data) w)
      as (_ & _ & _ & _ & H). }
  destruct H1 as [Hb1 Hn1].
  assert (Hb2 : isBlocked (this w2) = true) by by apply run_keeps_block.
  split; [done|]. split; [done|]. split; [done|]. split; [|split].
  - intros id' tr' k' Hlt.
    pose proof (request_frame id' tr' k' w2) as (_ & _ & Hg & Ho).
    assert (Hrl : rate_limited (clock w2) (this w2) = true).
    { unfold rate_limited. rewrite Hb2. by apply Z.ltb_lt. }
    rewrite Hrl in Ho. by rewrite Ho.
  - intros id' tr' k' Hge.
    pose proof (request_frame id' tr' k' w2) as (_ & _ & _ & Ho).
    assert (Hrl : rate_limited (clock w2) (this w2) = false).
    { unfold rate_limited. rewrite Hb2. by apply Z.ltb_ge. }
    by rewrite Hrl in Ho.
  - intros id' tr' k' d Hin' w3. unfold w3. cbn [step]. rewrite Hin'.
    by pose proof (request_resume_frame id' tr' k' (Reply2xx d) w2)
      as (_ & _ & _ & _ & H).
Qed.

(** C2 on a run: a request made at time 0 gets a 403 at time 100; a call made
    at time 300 is refused without a network call. *)
Lemma forbidden_reply_blocks_until_success_witness :
  let w := (run [CallRequest; Tick 100] (new_world 15000)).1 in
  let w2 := (run [Tick 200; CallSetAlarmState "bogus"; Tick 300]
               (step (HttpReply 0 (ReplyError 403 JNull)) w).1).1 in
  inflight w !! 0%nat = Some (AwaitHttp false KCaller) ∧
  nextAttempt (this w2) = 60100 ∧
  (request 1 false KCaller w2).2
    = [ObsSettled 1 (Throw (RateLimitError (JStr "Blocking request: rate limited")))].
Proof.
  intros w w2.
  assert (Hin : inflight w !! 0%nat = Some (AwaitHttp false KCaller))
    by (vm_compute; reflexivity).
  assert (Hes : Forall (fun e => succeeds e = false)
                  [Tick 200; CallSetAlarmState "bogus"; Tick 300])
    by (repeat constructor).
  assert (Hlt : clock w2 < nextAttempt (this w2)) by (vm_compute; reflexivity).
  split; [exact Hin|]. split; [vm_compute; reflexivity|].
  exact (proj1 (proj1 (proj2 (proj2 (proj2
           (forbidden_reply_blocks_until_success w 0 false KCaller JNull _ Hin Hes))))
           1%nat false KCaller Hlt)).
Defined.

(** C2, the claim as stated fails: two requests are in flight; the first gets
    a 403 at time 100, which blocks until time 60100; the second comes back
    with a success at time 200, which lifts the block; a request made at time
    300, before nextAttempt, is not refused: it calls the network. *)
Lemma in_flight_success_lifts_block :
  let w403 :=
    (run [CallRequest; CallRequest; Tick 100; HttpReply 0 (ReplyError 403 JNull)]
       (new_world 15000)).1 in
  let w := (run [Tick 200; HttpReply 1 (Reply2xx JNull); Tick 300] w403).1 in
  (isBlocked (this w403) = true ∧ nextAttempt (this w403) = 60100) ∧
  (clock w = 300 ∧ nextAttempt (this w) = 60100) ∧
  (step CallRequest w).2 = [ObsRequest 2 KCaller; ObsHttp 2 KCaller].
Proof. vm_compute. repeat split. Qed.

(** ** The subscription cache *)

Lemma joined_app (K : Z) (o1 o2 : list obs) :
  joined K (o1 ++ o2) = joined K o1 ++ joined K o2.
Proof. unfold joined. apply flat_map_app. Qed.

Lemma requests_app (K : Z) (o1 o2 : list obs) :
  requests K (o1 ++ o2) = requests K o1 ++ requests K o2.
Proof. unfold requests. apply flat_map_app. Qed.

Lemma joined_cons (K : Z) (x : obs) (o : list obs) :
  joined K (x :: o) = joined K [x] ++ joined K o.
Proof. apply (joined_app K [x] o). Qed.

Lemma requests_cons (K : Z) (x : obs) (o : list obs) :
  requests K (x :: o) = requests K [x] ++ requests K o.
Proof. apply (requests_app K [x] o). Qed.

Lemma quiet_readings (K : Z) (o : list obs) :
  Forall cache_quiet o ->
  joined K o = [] ∧ requests K o = [] ∧ fired (CacheEvict K) o = 0%nat.
Proof.
  induction 1 as [|x o Hx _ (IH1 & IH2 & IH3)]; [done|].
  change (x :: o) with ([x] ++ o). rewrite joined_app, requests_app, fired_app.
  rewrite IH1, IH2, IH3.
  destruct x as [id k| | | | | | | | |b|]; try done.
  - by destruct k.
  - by destruct b.
Qed.

(** A step that leaves the cache alone and says nothing about it. *)
Lemma quiet_cache_step (K : Z) (w w' : world) (o : list obs) :
  lastSubscriptionRequests (this w') = lastSubscriptionRequests (this w) ->
  Forall cache_quiet o -> cache_step K w w' o.
Proof.
  intros Hc Hq. destruct (quiet_readings K o Hq) as (Hj & Hr & _).
  assert (Hl : live K w' = live K w) by (unfold live; by rewrite Hc).
  unfold cache_step. rewrite Hl, Hj, Hr. destruct (live K w); [done|by left].
Qed.

Lemma fetch_cache_step (K i : Z) (forceRefresh : bool) (w : world) :
  forceRefresh = false ∨ i ≠ K ->
  cache_step K w (getSubscription_fetch i forceRefresh w).1
    (getSubscription_fetch i forceRefresh w).2.
Proof.
  intros Hf.
  pose proof (getSubscription_fetch_frame i forceRefresh w) as (_ & _ & H).
  set (r := getSubscription_fetch i forceRefresh w) in *.
  assert (Hmiss :
    lastSubscriptionRequests (this r.1)
      = <[i := Some (next_id w)]> (lastSubscriptionRequests (this w)) ∧
    (∃ o, Forall cache_quiet o ∧
          r.2 = ObsRequest (next_id w) (KSubscription i) :: o ++ [ObsJoined i (next_id w)]) ->
    (i = K -> live K w = None) -> cache_step K w r.1 r.2).
  { intros (Hc & o & Hq & Ho) HK. destruct (quiet_readings K o Hq) as (Hj & Hr & Hfi).
    assert (Hjo : joined K r.2 = if bool_decide (i = K) then [next_id w] else []).
    { rewrite Ho. rewrite joined_cons, joined_app, Hj. simpl.
      by destruct (bool_decide (i = K)). }
    assert (Hre : requests K r.2 = if bool_decide (i = K) then [next_id w] else []).
    { rewrite Ho. rewrite requests_cons, requests_app, Hr. simpl.
      by destruct (bool_decide (i = K)). }
    unfold cache_step. destruct (decide (i = K)) as [->|Hne].
    - rewrite HK by done. right. exists (next_id w).
      rewrite Hjo, Hre, !bool_decide_eq_true_2 by done.
      split; [|done]. unfold live. by rewrite Hc, lookup_insert_eq.
    - rewrite Hjo, Hre, !bool_decide_eq_false_2 by done.
      assert (Hl : live K r.1 = live K w)
        by (unfold live; by rewrite Hc, lookup_insert_ne).
      rewrite Hl. destruct (live K w); [done|by left]. }
  destruct forceRefresh.
  { apply Hmiss; [done|]. intros ->. by destruct Hf. }
  destruct (lastSubscriptionRequests (this w) !! i) as [[p|]|] eqn:El.
  - rewrite H. simpl. unfold cache_step.
    destruct (decide (i = K)) as [->|Hne].
    + unfold live. rewrite El. simpl. rewrite bool_decide_eq_true_2 by done.
      intros _. split; [done|]. split; [done|]. by repeat constructor.
    + simpl. rewrite bool_decide_eq_false_2 by done.
      destruct (live K w); [done|by left].
  - apply Hmiss; [done|]. intros ->. unfold live. by rewrite El.
  - apply Hmiss; [done|]. intros ->. unfold live. by rewrite El.
Qed.

(** Timer bodies: without an eviction of [K] its entry stays; an entry that
    is not live does not come to life. *)
Lemma call_all_cache (K : Z) (due : list timer) (w : world) :
  let r := call_all due w in
  joined K r.2 = [] ∧ requests K r.2 = [] ∧
  (fired (CacheEvict K) r.2 = 0%nat -> live K r.1 = live K w) ∧
  (live K w = None -> live K r.1 = None).
Proof.
  revert w. induction due as [|tm due IH]; intros w; [done|].
  cbn [call_all].
  destruct (call_body (tm_body tm) w) as [w1 o1] eqn:E1.
  specialize (IH w1). destruct (call_all due w1) as [w2 o2] eqn:E2.
  cbv zeta in IH. simpl in IH. simpl.
  destruct IH as (IHj & IHr & IHl & IHn).
  rewrite joined_app, requests_app, fired_app, IHj, IHr, !app_nil_r.
  destruct (tm_body tm) as [i| |] eqn:Eb; simpl in E1; simplify_eq; simpl.
  - split; [done|]. split; [done|]. split.
    + destruct (decide (i = K)) as [->|Hne].
      * unfold fired at 1. simpl. by rewrite bool_decide_eq_true_2.
      * unfold fired at 1. simpl.
        rewrite bool_decide_eq_false_2 by congruence. simpl. intros H0.
        rewrite IHl by done. unfold live. simpl. by rewrite lookup_insert_ne.
    + intros Hn. apply IHn. unfold live in *. simpl.
      destruct (decide (i = K)) as [->|Hne].
      * by rewrite lookup_insert_eq.
      * by rewrite lookup_insert_ne.
  - split; [done|]. split; [done|]. split; [exact IHl|exact IHn].
  - split; [done|]. split; [done|]. split; [exact IHl|exact IHn].
Qed.

Lemma tick_cache_step (K : Z) (now : Z) (w : world) :
  cache_step K w (tick now w).1 (tick now w).2.
Proof.
  rewrite tick_unfold. cbv zeta.
  match goal with |- context [call_all ?d ?x] =>
    pose proof (call_all_cache K d x) as (Hj & Hr & Hl & Hn);
    change (live K x) with (live K w) in Hl, Hn end.
  unfold cache_step. destruct (live K w) as [p|] eqn:E.
  - intros Hf. rewrite Hl, Hj, Hr by done. done.
  - left. by rewrite Hn, Hj, Hr.
Qed.

Lemma no_forced_discovery_step (w w' : world) :
  tasks_ok (inflight w) (inflight w') ->
  no_forced_discovery w -> no_forced_discovery w'.
Proof. intros Ht Hw id H. by apply (Hw id), Ht. Qed.

(** One step of the client, seen from the cache entry of [K]. *)
Lemma step_cache_step (K : Z) (e : event) (w : world) :
  unforced K e = true -> no_forced_discovery w ->
  cache_step K w (step e w).1 (step e w).2 ∧ no_forced_discovery (step e w).1.
Proof.
  intros He Hw.
  destruct e as [now| |sub f|newState|id cb|id|id reply|id r|id r|id r|data|data];
    cbn [step].
  - split; [apply tick_cache_step|].
    eapply no_forced_discovery_step; [|exact Hw].
    destruct (tick_frame now w) as (_ & _ & -> & _). apply tasks_ok_refl.
  - match goal with |- context [call_request ?i ?k ?x] =>
      pose proof (call_request_frame i k x) as (Ho & [Hc Ht] & _);
      pose proof (request_frame i false k x) as (Hq & _) end.
    split; [|by eapply no_forced_discovery_step].
    apply quiet_cache_step; [done|]. rewrite Ho. by constructor.
  - unfold getSubscription.
    assert (Hpark : ∀ w', w' = set_next_id (S (next_id w))
                            (set_inflight (<[next_id w := AwaitSubscriptions f]> (inflight w)) w) ->
              f = false ->
              cache_step K w w' [ObsGetSubscriptions (next_id w)] ∧ no_forced_discovery w').
    { intros w' -> ->. split; [apply quiet_cache_step; [done|by repeat constructor]|].
      eapply no_forced_discovery_step; [|exact Hw]. by apply tasks_ok_insert. }
    assert (Hfetch : ∀ i, f = false ∨ i ≠ K ->
              cache_step K w (getSubscription_fetch i f w).1 (getSubscription_fetch i f w).2 ∧
              no_forced_discovery (getSubscription_fetch i f w).1).
    { intros i Hi. split; [by apply fetch_cache_step|].
      destruct (getSubscription_fetch_frame i f w) as (_ & Ht & _).
      by eapply no_forced_discovery_step. }
    destruct f.
    + simpl in He. destruct sub as [i|]; [|done].
      apply andb_true_iff in He as [H0 HK].
      apply negb_true_iff in H0, HK. apply Z.eqb_neq in HK.
      simpl. rewrite H0. simpl. rewrite H0. apply Hfetch. by right.
    + destruct (if no_id sub then subId (this w) else sub) as [i|]; [|by apply Hpark].
      destruct (no_id (Some i)); [by apply Hpark|]. apply Hfetch. by left.
  - pose proof (setAlarmState_frame newState w) as (Hq & [Hc Ht] & _).
    split; [by apply quiet_cache_step|by eapply no_forced_discovery_step].
  - destruct (sensor_frames id cb w) as [[[Hc Ht] _] _].
    split; [by apply quiet_cache_step|by eapply no_forced_discovery_step].
  - destruct (sensor_frames id 0%nat w) as [_ [[Hc Ht] _]].
    split; [by apply quiet_cache_step|by eapply no_forced_discovery_step].
  - destruct (inflight w !! id) as [[tr k|k|f|st]|];
      try (split; [by apply quiet_cache_step|done]).
    pose proof (request_resume_frame id tr k reply w) as (Hq & _ & [Hc Ht] & _).
    split; [by apply quiet_cache_step|by eapply no_forced_discovery_step].
  - destruct (inflight w !! id) as [[tr k|k|f|st]|];
      try (split; [by apply quiet_cache_step|done]).
    pose proof (request_refreshed_frame id k r w) as (Hq & [Hc Ht] & _).
    split; [by apply quiet_cache_step|by eapply no_forced_discovery_step].
  - destruct (inflight w !! id) as [[tr k|k|f|st]|] eqn:Ein;
      try (split; [by apply quiet_cache_step|done]).
    assert (f = false) as -> by (destruct f; [by destruct (Hw id)|done]).
    unfold getSubscription_resume.
    set (w0 := set_inflight (delete id (inflight w)) w).
    assert (Hw0 : no_forced_discovery w0).
    { eapply no_forced_discovery_step; [|exact Hw]. apply tasks_ok_delete. }
    destruct r as [[|i [|j l]]|err];
      try (split; [apply quiet_cache_step; [done|by repeat constructor]|done]).
    set (w0' := update_this (set_subId (Some i)) w0).
    pose proof (fetch_cache_step K i false w0' (or_introl eq_refl)) as Hstep.
    destruct (getSubscription_fetch_frame i false w0') as (_ & Ht & _).
    split; [exact Hstep|]. by eapply no_forced_discovery_step.
  - destruct (inflight w !! id) as [[tr k|k|f|st]|];
      try (split; [by apply quiet_cache_step|done]).
    pose proof (setAlarmState_resume_frame id st r w) as (Hq & [Hc Ht] & _).
    split; [by apply quiet_cache_step|by eapply no_forced_discovery_step].
  - destruct (getLocks_resume_frame data w) as [[Hc Ht] _].
    split; [by apply quiet_cache_step|by eapply no_forced_discovery_step].
  - destruct (_socketCallback_frame data w) as [Hq Hw'].
    assert (Hc : cache_frame w (_socketCallback data w).1).
    { destruct Hw' as [-> | ->]; [apply cache_frame_refl|].
      apply handleSensorRefreshLockout_frame. }
    destruct Hc as [Hc Ht].
    split; [by apply quiet_cache_step|by eapply no_forced_discovery_step].
Qed.

Lemma run_cache (K : Z) (es : list event) (w : world) :
  no_forced_discovery w ->
  Forall (fun e => unforced K e = true) es ->
  fired (CacheEvict K) (run es w).2 = 0%nat ->
  match live K w with
  | Some p =>
      requests K (run es w).2 = [] ∧ Forall (eq p) (joined K (run es w).2)
  | None =>
      (requests K (run es w).2 = [] ∧ joined K (run es w).2 = []) ∨
      (∃ p, requests K (run es w).2 = [p] ∧ joined K (run es w).2 ≠ [] ∧
            Forall (eq p) (joined K (run es w).2))
  end.
Proof.
  intros Hw Hes. revert w Hw.
  induction Hes as [|e es He Hes IH]; intros w Hw Hf.
  - simpl. destruct (live K w); [done|by left].
  - cbn [run] in *.
    destruct (step_cache_step K e w He Hw) as [Hstep Hw1].
    destruct (step e w) as [w1 o1]. specialize (IH w1 Hw1).
    destruct (run es w1) as [w2 o2]. simpl in *.
    rewrite fired_app in Hf. assert (Hf1 : fired (CacheEvict K) o1 = 0%nat) by lia.
    assert (Hf2 : fired (CacheEvict K) o2 = 0%nat) by lia. specialize (IH Hf2).
    rewrite requests_app, joined_app. unfold cache_step in Hstep.
    destruct (live K w) as [p|].
    + destruct (Hstep Hf1) as (Hl & Hr & Hj). rewrite Hl in IH.
      destruct IH as [IHr IHj]. rewrite Hr, IHr. split; [done|].
      by apply Forall_app.
    + destruct Hstep as [(Hl & Hr & Hj) | (p & Hl & Hr & Hj)]; rewrite Hl in IH.
      * rewrite Hr, Hj. exact IH.
      * destruct IH as [IHr IHj]. right. exists p. rewrite Hr, Hj, IHr.
        split; [done|]. split; [done|]. apply Forall_app. split; [|done].
        by repeat constructor.
Qed.

(** The cache while no eviction timer of K fires: take any run of the client
    in which no getSubscription call forces a refresh of the subscription K
    (and none was waiting to) and in which no eviction timer of K fires.  All
    the getSubscription calls for K in the run await one and the same promise,
    so each gets what the others get, the same data or the same error.  If an
    entry for K was live at the start no call of [this.request] is made for K;
    if none was, exactly one is made, by the first of the calls, and the
    promise it returns is the one all of them await.  That first call puts the
    promise under the key in the same synchronous run that makes the request:
    when it returns, the request is in flight, nothing has settled, and the
    entry is live. *)
Theorem getSubscription_shares_one_request (K : Z) (es : list event) (w : world) :
  no_forced_discovery w ->
  Forall (fun e => unforced K e = true) es ->
  fired (CacheEvict K) (run es w).2 = 0%nat ->
  let o := (run es w).2 in
  (∃ p, Forall (eq p) (joined K o) ∧
        ∀ q w', q ∈ joined K o -> awaited q w' = awaited p w') ∧
  match live K w with
  | Some p => requests K o = [] ∧ Forall (eq p) (joined K o)
  | None =>
      (requests K o = [] ∧ joined K o = []) ∨
      (∃ p, requests K o = [p] ∧ joined K o ≠ [] ∧ Forall (eq p) (joined K o))
  end ∧
  (K ≠ 0 -> live K w = None -> rate_limited (clock w) (this w) = false ->
   let r := step (CallGetSubscription (Some K) false) w in
   r.2 = [ObsRequest (next_id w) (KSubscription K); ObsHttp (next_id w) (KSubscription K);
          ObsJoined K (next_id w)] ∧
   live K r.1 = Some (next_id w) ∧
   inflight r.1 !! next_id w = Some (AwaitHttp false (KSubscription K)) ∧
   promises r.1 = promises w).
Proof.
  intros Hw Hes Hf o. pose proof (run_cache K es w Hw Hes Hf) as H. fold o in H.
  assert (Hone : ∃ p, Forall (eq p) (joined K o)).
  { destruct (live K w) as [p|].
    - exists p. apply H.
    - destruct H as [[_ ->] | (p & _ & _ & Hp)]; [by exists 0%nat|by exists p]. }
  split; [|split; [exact H|]].
  - destruct Hone as [p Hp]. exists p. split; [done|].
    intros q w' Hq. rewrite Forall_forall in Hp. by rewrite (Hp q Hq).
  - intros HK Hl Hrl r. unfold r. cbn [step]. unfold getSubscription.
    apply Z.eqb_neq in HK. simpl. rewrite HK. simpl. rewrite HK.
    unfold getSubscription_fetch, call_request, request.
    assert (Hmiss : ∀ x, lastSubscriptionRequests (this w) !! K = x ->
              match x with Some (Some _) => False | _ => True end).
    { intros x <-. unfold live in Hl.
      by destruct (lastSubscriptionRequests (this w) !! K) as [[?|]|]. }
    specialize (Hmiss _ eq_refl).
    unfold rate_limited in *.
    destruct (lastSubscriptionRequests (this w) !! K) as [[?|]|]; [done| |];
      simpl; rewrite Hrl; simpl; unfold live; simpl;
      by rewrite !lookup_insert_eq.
Qed.

(** On a run: four calls for subscription 7, two while the request is in
    flight and two after it has come back, none of them after the entry was
    evicted. *)
Lemma getSubscription_shares_one_request_witness :
  let es := [CallGetSubscription (Some 7) false; CallGetSubscription (Some 7) false;
             Tick 50; HttpReply 0 (Reply2xx (JObj [("subscription", JStr "plan")]));
             CallGetSubscription (Some 7) false; Tick 3049;
             CallGetSubscription (Some 7) false] in
  let o := (run es (new_world 15000)).2 in
  fired (CacheEvict 7) o = 0%nat ∧
  joined 7 o = [0; 0; 0; 0]%nat ∧
  ((requests 7 o = [] ∧ joined 7 o = []) ∨
   (∃ p, requests 7 o = [p] ∧ joined 7 o ≠ [] ∧ Forall (eq p) (joined 7 o))).
Proof.
  intros es o.
  assert (Hw : no_forced_discovery (new_world 15000)).
  { intros id. simpl. by rewrite lookup_empty. }
  assert (Hes : Forall (fun e => unforced 7 e = true) es) by (repeat constructor).
  assert (Hf : fired (CacheEvict 7) (run es (new_world 15000)).2 = 0%nat)
    by (vm_compute; reflexivity).
  split; [exact Hf|]. split; [vm_compute; reflexivity|].
  exact (proj1 (proj2 (getSubscription_shares_one_request 7 es (new_world 15000)
                         Hw Hes Hf))).
Defined.

(** C1, the code at the failing input: subscription 7 is fetched and
    answered at time 0, so the eviction timer of that entry is due at 3000.
    At 2900 a call with forceRefresh replaces the entry by a new request,
    promise 2, and the timer stays.  Then come two calls without forceRefresh,
    both while that request is in flight: the first, at 2950, joins promise
    2; at 3000 the old timer fires and empties the entry; the second, at
    3010, finds no entry, sends a second request and awaits promise 3.  The
    two callers can get different answers. *)
Theorem getSubscription_stale_timer_splits_callers :
  let plan := fun v => Reply2xx (JObj [("subscription", JStr v)]) in
  let w :=
    (run [CallGetSubscription (Some 7) false; HttpReply 0 (plan "first"); Tick 2900;
          CallGetSubscription (Some 7) true; Tick 2950] (new_world 15000)).1 in
  let es := [CallGetSubscription (Some 7) false; Tick 3000;
             CallGetSubscription (Some 7) false; Tick 3010] in
  let r := run es w in
  let w' := (run [HttpReply 2 (plan "second"); HttpReply 3 (plan "third")] r.1).1 in
  (live 7 w = Some 2%nat ∧ inflight w !! 2%nat = Some (AwaitHttp false (KSubscription 7))) ∧
  Forall (fun e => unforced 7 e = true) es ∧
  joined 7 r.2 = [2; 3]%nat ∧
  requests 7 r.2 = [3]%nat ∧
  network_calls r.2 = [3]%nat ∧
  (inflight r.1 !! 2%nat = Some (AwaitHttp false (KSubscription 7)) ∧
   inflight r.1 !! 3%nat = Some (AwaitHttp false (KSubscription 7))) ∧
  awaited 2 w' = Some (Return (JStr "second")) ∧
  awaited 3 w' = Some (Return (JStr "third")).
Proof.
  cbv zeta. split; [split; reflexivity|]. split; [repeat constructor|].
  repeat split; reflexivity.
Qed.

(** ** The timers of every reachable world *)

Lemma timers_kept_refl (w : world) : timers_kept w w.
Proof. by repeat split. Qed.

Lemma timers_kept_trans (w1 w2 w3 : world) :
  timers_kept w1 w2 -> timers_kept w2 w3 -> timers_kept w1 w3.
Proof.
  intros (H1 & H2 & H3 & H4) (H1' & H2' & H3' & H4').
  repeat split; try congruence. lia.
Qed.

Lemma timers_wf_kept (w w' : world) : timers_kept w w' -> timers_wf w -> timers_wf w'.
Proof.
  intros (Ht & Hn & Hi & Hl) (H1 & H2 & H3).
  unfold timers_wf, lockout_pending, lockouts in *.
  rewrite Ht, Hi, Hl. split; [|split].
  - intros tm Htm. specialize (H1 tm Htm). lia.
  - intros h Hh. destruct (H2 h Hh) as [Hlt Hb]. split; [lia|done].
  - exact H3.
Qed.

(** Setting a timer that is not a lockout timer. *)
Lemma timers_wf_add (b : timer_body) (due : Z) (period : option Z) (w : world) :
  b ≠ LockoutExpire -> timers_wf w ->
  timers_wf (set_next_id (S (next_id w))
               (set_timers (timers w ++ [mkTimer (next_id w) due period b]) w)).
Proof.
  intros Hb (H1 & H2 & H3). unfold timers_wf, lockout_pending, lockouts in *. simpl.
  split; [|split].
  - intros tm Htm. apply elem_of_app in Htm as [Htm|Htm].
    + specialize (H1 tm Htm). lia.
    + apply list_elem_of_singleton in Htm. subst tm. simpl. lia.
  - intros h Hh. destruct (H2 h Hh) as [Hlt Hbody]. split; [lia|].
    intros tm Htm Hid. apply elem_of_app in Htm as [Htm|Htm]; [by apply Hbody|].
    apply list_elem_of_singleton in Htm. by subst tm.
  - rewrite filter_app, filter_cons_False, filter_nil, app_nil_r by done. exact H3.
Qed.

Lemma timers_wf_handle (w : world) : timers_wf w -> timers_wf (handleSensorRefreshLockout w).
Proof.
  intros Hw. destruct (sensorRefreshLockoutEnabled (this w)) eqn:Hen;
    [|by rewrite handleSensorRefreshLockout_disabled].
  destruct Hw as (H1 & H2 & H3).
  pose proof (handleSensorRefreshLockout_pending w Hen H3) as Hp.
  destruct (handleSensorRefreshLockout_arms w Hen) as (Hf & Ht & _ & Hn & _).
  assert (Hsub : ∀ tm, tm ∈ timers (clearTimeout (sensorRefreshLockoutTimeout (this w)) w)
                  -> tm ∈ timers w).
  { intros tm. unfold clearTimeout. destruct (sensorRefreshLockoutTimeout (this w)); [|done].
    simpl. rewrite list_elem_of_filter. tauto. }
  assert (Hi : sensorRefreshInterval (this (handleSensorRefreshLockout w))
               = sensorRefreshInterval (this w)).
  { unfold handleSensorRefreshLockout. rewrite Hen. simpl.
    by destruct (sensorRefreshLockoutTimeout (this w)). }
  split; [|split].
  - intros tm. rewrite Ht, Hn. intros Htm. apply elem_of_app in Htm as [Htm|Htm].
    + specialize (H1 tm (Hsub tm Htm)). lia.
    + apply list_elem_of_singleton in Htm. subst tm. simpl. lia.
  - intros h. rewrite Hi, Ht, Hn. intros Hh. destruct (H2 h Hh) as [Hlt Hbody].
    split; [lia|]. intros tm Htm Hid. apply elem_of_app in Htm as [Htm|Htm].
    + apply Hbody; [by apply Hsub|done].
    + apply list_elem_of_singleton in Htm. subst tm. simpl in Hid. lia.
  - right. eauto.
Qed.

Lemma timers_wf_settle (id : nat) (k : continuation) (r : result json) (w : world) :
  timers_wf w -> timers_wf (settle id k r w).1.
Proof.
  intros Hw. destruct k as [|i|sub state]; simpl; [done| |].
  - apply (timers_wf_add (CacheEvict i) _ None (set_promises _ w)); [done|].
    by apply (timers_wf_kept w).
  - destruct r; [by apply timers_wf_handle|done].
Qed.

Lemma refresh_catch_fields (now : Z) (e : error) (s : SimpliSafe3) :
  sensorRefreshInterval (refresh_catch now e s).1 = sensorRefreshInterval s ∧
  sensorRefreshLockoutTimeout (refresh_catch now e s).1 = sensorRefreshLockoutTimeout s.
Proof.
  unfold refresh_catch. destruct (err_prop "status" e) as [v|]; [|done].
  by destruct (loose_eq v 403).
Qed.

Lemma timers_wf_finish (id : nat) (tokenRefreshed : bool) (k : continuation)
    (r : result json) (w : world) :
  timers_wf w -> timers_wf (finish id tokenRefreshed k r w).1.
Proof.
  intros Hw. unfold finish.
  set (w0 := set_inflight (delete id (inflight w)) w).
  assert (Hw0 : timers_wf w0) by by apply (timers_wf_kept w).
  destruct tokenRefreshed, r as [d|e]; try by apply timers_wf_settle.
  destruct (refresh_catch_fields (clock w0) e (this w0)) as [Hi Hl].
  destruct (refresh_catch (clock w0) e (this w0)) as [s e']. simpl in *.
  apply timers_wf_settle. apply (timers_wf_kept w0); [|done]. by repeat split.
Qed.

Lemma timers_wf_request (id : nat) (tokenRefreshed : bool) (k : continuation) (w : world) :
  timers_wf w -> timers_wf (request id tokenRefreshed k w).1.
Proof.
  intros Hw. unfold request. destruct (rate_limited _ _).
  - by apply timers_wf_finish.
  - by apply (timers_wf_kept w).
Qed.

Lemma timers_wf_call_request (id : nat) (k : continuation) (w : world) :
  timers_wf w -> timers_wf (call_request id k w).1.
Proof.
  intros Hw. unfold call_request.
  pose proof (timers_wf_request id false k w Hw).
  by destruct (request id false k w).
Qed.

Lemma timers_wf_fetch (i : Z) (forceRefresh : bool) (w : world) :
  timers_wf w -> timers_wf (getSubscription_fetch i forceRefresh w).1.
Proof.
  intros Hw. unfold getSubscription_fetch.
  set (w1 := update_this _ (set_next_id (S (next_id w)) w)).
  assert (Hw1 : timers_wf w1).
  { apply (timers_wf_kept w); [|done]. repeat split; simpl; lia. }
  pose proof (timers_wf_call_request (next_id w) (KSubscription i) w1 Hw1) as H.
  destruct (call_request (next_id w) (KSubscription i) w1) as [w2 o].
  destruct forceRefresh; [exact H|].
  by destruct (lastSubscriptionRequests (this w) !! i) as [[p|]|].
Qed.

Lemma call_all_interval (due : list timer) (w : world) :
  sensorRefreshInterval (this (call_all due w).1) = sensorRefreshInterval (this w).
Proof.
  revert w. induction due as [|tm due IH]; intros w; [done|]. simpl.
  destruct (call_body (tm_body tm) w) as [w1 o1] eqn:E1. specialize (IH w1).
  destruct (call_all due w1) as [w2 o2]. simpl in *. rewrite IH.
  by destruct (tm_body tm); simpl in E1; simplify_eq.
Qed.

Lemma timers_wf_tick (now : Z) (w : world) : timers_wf w -> timers_wf (tick now w).1.
Proof.
  intros (H1 & H2 & H3).
  assert (Hl : lockouts (tick now w).1 = [] ∨ ∃ h due, lockout_pending h due (tick now w).1).
  { destruct H3 as [Hidle | (h & due & Hp)].
    - left. by apply tick_lockout_idle.
    - pose proof (tick_lockout_pending h due now w Hp) as H.
      destruct (decide (due ≤ Z.max (clock w) now)); [left; apply H|right].
      exists h, due. apply H. }
  revert Hl. rewrite tick_unfold. cbv zeta.
  set (t := Z.max (clock w) now).
  set (ds := merge_sort due_le (filter (fun tm => tm_due tm ≤ t) (timers w))).
  set (w0 := set_timers _ _). intros Hl.
  assert (Hin : ∀ tm, tm ∈ timers w0 ->
            ∃ tm', tm' ∈ timers w ∧ tm_id tm' = tm_id tm ∧ tm_body tm' = tm_body tm).
  { intros tm. unfold w0. simpl. intros Htm. apply elem_of_app in Htm as [Htm|Htm].
    - apply list_elem_of_filter in Htm as [_ Htm]. eauto.
    - apply list_elem_of_In, in_flat_map in Htm. destruct Htm as (tm' & Htm' & Htm).
      apply list_elem_of_In in Htm'. unfold ds in Htm'.
      rewrite merge_sort_Permutation in Htm'.
      apply list_elem_of_filter in Htm' as [_ Htm'].
      unfold rearm in Htm. destruct (tm_repeat tm'); [|done].
      destruct Htm as [<-|[]]. eauto. }
  pose proof (call_all_interval ds w0) as Hi.
  destruct (call_all_frame ds w0) as (Htm & _ & Hn & _).
  change (sensorRefreshInterval (this w0)) with (sensorRefreshInterval (this w)) in Hi.
  change (next_id w0) with (next_id w) in Hn.
  split; [|split; [|exact Hl]].
  - intros tm. rewrite Htm, Hn. intros Hx. destruct (Hin tm Hx) as (tm' & Hx' & <- & _).
    by apply H1.
  - intros h. rewrite Hi, Htm, Hn. intros Hh. destruct (H2 h Hh) as [Hlt Hbody].
    split; [done|]. intros tm Hx Hid. destruct (Hin tm Hx) as (tm' & Hx' & Hid' & <-).
    apply Hbody; [done|congruence].
Qed.

Lemma timers_wf_subscribeToSensor (id : string) (callback : nat) (w : world) :
  timers_wf w -> timers_wf (subscribeToSensor id callback w).
Proof.
  intros Hw. unfold subscribeToSensor.
  destruct (sensorRefreshInterval (this w)) as [h|] eqn:Eh.
  - apply (timers_wf_kept w); [|done]. by repeat split.
  - simpl.
    pose proof (timers_wf_add SensorRefresh (clock w + sensorRefreshTime (this w))
                  (Some (sensorRefreshTime (this w))) w) as Hadd.
    destruct Hadd as (H1 & H2 & H3); [done|done|]. destruct Hw as (H1' & _ & _).
    split; [exact H1|]. split; [|exact H3]. simpl.
    intros h [= <-]. split; [lia|]. intros tm Htm Hid.
    apply elem_of_app in Htm as [Htm|Htm].
    + specialize (H1' tm Htm). lia.
    + apply list_elem_of_singleton in Htm. by subst tm.
Qed.

Lemma filter_filter_subsumed {A} (P Q : A -> Prop)
    `{!∀ x, Decision (P x)} `{!∀ x, Decision (Q x)} (l : list A) :
  (∀ x, x ∈ l -> P x -> Q x) -> filter P (filter Q l) = filter P l.
Proof.
  induction l as [|x l IH]; intros Hl; [done|].
  assert (IH' : filter P (filter Q l) = filter P l).
  { apply IH. intros y Hy. apply Hl. by right. }
  rewrite (filter_cons Q). destruct (decide (Q x)) as [Hq|Hq].
  - rewrite !filter_cons. by rewrite IH'.
  - rewrite IH', filter_cons_False; [done|].
    intros Hp. apply Hq, Hl; [by left|done].
Qed.

Lemma timers_wf_unsubscribeFromSensor (id : string) (w : world) :
  timers_wf w -> timers_wf (unsubscribeFromSensor id w).
Proof.
  intros Hw. unfold unsubscribeFromSensor.
  set (w1 := update_this _ w).
  assert (Hw1 : timers_wf w1) by (apply (timers_wf_kept w); [by repeat split|done]).
  destruct (_ =? _)%nat; [|done].
  unfold clearInterval, clearTimeout.
  destruct (sensorRefreshInterval (this w1)) as [h|] eqn:Eh; [|done].
  destruct Hw1 as (H1 & H2 & H3). destruct (H2 h Eh) as [Hlt Hbody].
  assert (Hlo : lockouts (set_timers (filter (fun tm => tm_id tm ≠ h) (timers w1)) w1)
                = lockouts w1).
  { unfold lockouts. simpl. apply filter_filter_subsumed.
    intros tm Htm Hb Hid. by apply (Hbody tm Htm Hid). }
  split; [|split].
  - intros tm. simpl. rewrite list_elem_of_filter. intros [_ Htm]. by apply H1.
  - intros h'. simpl. intros Hh'. destruct (H2 h' Hh') as [Hlt' Hbody'].
    split; [done|]. intros tm. rewrite list_elem_of_filter. intros [_ Htm]. by apply Hbody'.
  - unfold lockout_pending. rewrite Hlo. exact H3.
Qed.

(** Every step of the client keeps its timers in order. *)
Lemma timers_wf_step (e : event) (w : world) : timers_wf w -> timers_wf (step e w).1.
Proof.
  intros Hw.
  assert (Hnext : timers_wf (set_next_id (S (next_id w)) w)).
  { apply (timers_wf_kept w); [|done]. repeat split; simpl; lia. }
  destruct e as [now| |sub f|newState|id cb|id|id reply|id r|id r|id r|data|data];
    cbn [step fst].
  - by apply timers_wf_tick.
  - by apply timers_wf_call_request.
  - unfold getSubscription.
    assert (Hpark : timers_wf
              (set_next_id (S (next_id w))
                 (set_inflight (<[next_id w := AwaitSubscriptions f]> (inflight w)) w))).
    { apply (timers_wf_kept w); [|done]. repeat split; simpl; lia. }
    destruct (if no_id sub then subId (this w) else sub) as [i|]; [|done].
    destruct (no_id (Some i)); [done|]. by apply timers_wf_fetch.
  - unfold setAlarmState. destruct (indexOf_is_minus_one _ _); [done|].
    destruct (no_id (subId (this w))).
    + apply (timers_wf_kept w); [|done]. repeat split; simpl; lia.
    + by apply timers_wf_call_request.
  - by apply timers_wf_subscribeToSensor.
  - by apply timers_wf_unsubscribeFromSensor.
  - destruct (inflight w !! id) as [[tr k|k|f|st]|]; try done.
    unfold request_resume. destruct reply as [d|m|statusCode d].
    + apply timers_wf_finish. by apply (timers_wf_kept w).
    + by apply timers_wf_finish.
    + destruct ((statusCode =? 401) && negb tr).
      * by apply (timers_wf_kept w).
      * destruct (statusCode =? 403); apply timers_wf_finish; [|done].
        by apply (timers_wf_kept w).
  - destruct (inflight w !! id) as [[tr k|k|f|st]|]; try done.
    unfold request_refreshed. destruct r.
    + by apply timers_wf_request.
    + by apply timers_wf_finish.
  - destruct (inflight w !! id) as [[tr k|k|f|st]|]; try done.
    unfold getSubscription_resume.
    set (w0 := set_inflight (delete id (inflight w)) w).
    assert (Hw0 : timers_wf w0) by by apply (timers_wf_kept w).
    destruct r as [[|i [|j l]]|err]; try done.
    apply timers_wf_fetch. by apply (timers_wf_kept w0).
  - destruct (inflight w !! id) as [[tr k|k|f|st]|]; try done.
    unfold setAlarmState_resume.
    set (w0 := set_inflight (delete id (inflight w)) w).
    assert (Hw0 : timers_wf w0) by by apply (timers_wf_kept w).
    destruct r; [|done]. by apply timers_wf_call_request.
  - unfold getLocks_resume. destruct (js_length data); [|done].
    by apply (timers_wf_kept w).
  - destruct (_socketCallback_frame data w) as [_ [-> | ->]]; [done|].
    by apply timers_wf_handle.
Qed.

(** In every world the client can reach from its construction, at most the
    lockout timer held by sensorRefreshLockoutTimeout is pending. *)
Lemma reachable_lockout_held (refreshTime : Z) (es : list event) :
  let w := (run es (new_world refreshTime)).1 in
  lockouts w = [] ∨ ∃ h due, lockout_pending h due w.
Proof.
  assert (H : ∀ es w, timers_wf w -> timers_wf (run es w).1).
  { clear es. induction es as [|e es IH]; intros w Hw; [done|]. simpl.
    pose proof (timers_wf_step e w Hw) as H1.
    destruct (step e w) as [w1 o1]. specialize (IH w1 H1).
    by destruct (run es w1). }
  apply (H es (new_world refreshTime)).
  split; [|split].
  - intros tm Htm. by apply elem_of_nil in Htm.
  - by intros h.
  - by left.
Qed.

(** ** The accessory on a blocked client *)

(** subscribeToEvents called while the guard blocks throws a RateLimitError
    before it touches the socket; startListening answers it with the
    exponential delay. *)
Lemma subscribeToEvents_blocked_backs_off (w : world) (a : SS3Alarm.alarm) :
  rate_limited (clock w) (this w) = true ->
  ∃ err,
    subscribeToEvents_guard w = Some err ∧
    SS3Alarm.delays SS3Alarm.StartListening
      (SS3Alarm.startListening (SS3Alarm.SubscribeThrows err) a).2
    = [2 ^ SS3Alarm.nSocketConnectFailures a * SOCKET_RETRY_INTERVAL].
Proof.
  intros H. unfold subscribeToEvents_guard. rewrite H. eexists. split; [done|].
  reflexivity.
Qed.

(** On a client blocked by a 403, with three failures counted: the delay is 8000 ms. *)
Lemma subscribeToEvents_blocked_backs_off_witness :
  let w := (run [CallRequest; HttpReply 0 (ReplyError 403 JNull)] (new_world 15000)).1 in
  ∃ err,
    subscribeToEvents_guard w = Some err ∧
    SS3Alarm.delays SS3Alarm.StartListening
      (SS3Alarm.startListening (SS3Alarm.SubscribeThrows err) (SS3Alarm.mkAlarm true 0 3)).2
    = [2 ^ 3 * SOCKET_RETRY_INTERVAL].
Proof.
  exact (subscribeToEvents_blocked_backs_off
           (run [CallRequest; HttpReply 0 (ReplyError 403 JNull)] (new_world 15000)).1
           (SS3Alarm.mkAlarm true 0 3) eq_refl).
Defined.

(** ** One call of [request], from the answer of the network on *)

Lemma handleSensorRefreshLockout_tasks (w : world) :
  inflight (handleSensorRefreshLockout w) = inflight w ∧
  promises (handleSensorRefreshLockout w) = promises w.
Proof.
  unfold handleSensorRefreshLockout. destruct (negb _); [done|].
  by destruct (sensorRefreshLockoutTimeout (this w)).
Qed.

Lemma settle_tasks (id : nat) (k : continuation) (r : result json) (w : world) :
  inflight (settle id k r w).1 = inflight w.
Proof.
  destruct k; simpl; try done.
  destruct r; simpl; [apply handleSensorRefreshLockout_tasks|done].
Qed.

Lemma finish_settles (id : nat) (tokenRefreshed : bool) (k : continuation)
    (r : result json) (w : world) :
  ∃ r', (finish id tokenRefreshed k r w).2 = [ObsSettled id r'] ∧
        inflight (finish id tokenRefreshed k r w).1 = delete id (inflight w) ∧
        (∀ data, r = Return data -> r' = r) ∧
        ((∀ data, r ≠ Return data) -> ∃ e, r' = Throw e).
Proof.
  unfold finish.
  destruct tokenRefreshed, r as [data|e];
    try destruct (refresh_catch _ _ _) as [s e'];
    eexists; (split; [apply settle_frame|]); rewrite settle_tasks;
    (split; [done|]); split; try done; try by eauto.
  all: intros H; by destruct (H data).
Qed.

(** A request that fails without an answer of the server is raised as a
    RateLimitError, and a first attempt that fails with a status other than
    401 and 403 raises the body of the answer; in both cases the call settles
    at once, no credentials are refreshed, nothing is retried and the guard
    is as it was. *)
Theorem request_failure_leaves_guard (w : world) (id : nat) (tokenRefreshed : bool)
    (k : continuation) (reply : http_reply) :
  inflight w !! id = Some (AwaitHttp tokenRefreshed k) ->
  match reply with
  | Reply2xx _ => False
  | NoResponse _ => True
  | ReplyError statusCode _ => tokenRefreshed = false ∧ statusCode ≠ 401 ∧ statusCode ≠ 403
  end ->
  let r := step (HttpReply id reply) w in
  r.2 = [ObsSettled id (Throw match reply with
                               | NoResponse message => RateLimitError (JStr message)
                               | ReplyError _ data | Reply2xx data => Thrown data
                               end)] ∧
  guard_same w r.1 ∧ inflight r.1 !! id = None ∧
  refreshes r.2 = [] ∧ network_calls r.2 = [].
Proof.
  intros Hid Hreply r. subst r. cbn [step]. rewrite Hid.
  destruct reply as [data|message|statusCode data]; [done| |].
  - cbn [request_resume].
    pose proof (finish_frame id tokenRefreshed k
                  (Throw (RateLimitError (JStr message))) w) as (_ & _ & _ & _ & H).
    destruct H as [-> Hg]; [right; left; eauto|].
    destruct (finish_settles id tokenRefreshed k
                (Throw (RateLimitError (JStr message))) w) as (r' & _ & Hin & _).
    rewrite Hin, lookup_delete_eq. split; [done|]. split; [exact Hg|]. by repeat split.
  - destruct Hreply as (-> & H401 & H403). cbn [request_resume].
    rewrite (proj2 (Z.eqb_neq _ _) H401), (proj2 (Z.eqb_neq _ _) H403). cbn [andb].
    pose proof (finish_frame id false k (Throw (Thrown data)) w) as (_ & _ & _ & _ & H).
    destruct H as [-> Hg]; [by left|].
    destruct (finish_settles id false k (Throw (Thrown data)) w) as (r' & _ & Hin & _).
    rewrite Hin, lookup_delete_eq. split; [done|]. split; [exact Hg|]. by repeat split.
Qed.

(** On a request whose connection is reset. *)
Lemma request_failure_leaves_guard_witness :
  (step (HttpReply 0 (NoResponse "ECONNRESET")) (run [CallRequest] (new_world 15000)).1).2
  = [ObsSettled 0 (Throw (RateLimitError (JStr "ECONNRESET")))].
Proof.
  apply (request_failure_leaves_guard
           (run [CallRequest] (new_world 15000)).1 0 false KCaller (NoResponse "ECONNRESET"));
    [reflexivity|exact I].
Defined.




(** When refreshCredentials itself is rejected, the status of the rejection
    decides: 403 engages the guard and the caller gets a RateLimitError made
    of the body, any other status hands the rejection to the caller as it is
    and leaves the guard alone.  No network call is made either way. *)
Theorem refresh_rejection_engages_guard_on_403 (w : world) (id : nat) (k : continuation)
    (err statusCode : json) :
  inflight w !! id = Some (AwaitRefresh k) ->
  prop "status" err = Some statusCode ->
  let r := step (RefreshReply id (Throw (Thrown err))) w in
  network_calls r.2 = [] ∧ inflight r.1 !! id = None ∧
  if loose_eq statusCode 403 then
    isBlocked (this r.1) = true ∧
    nextAttempt (this r.1) = clock w + nextBlockInterval (this w) ∧
    r.2 = [ObsSettled id (Throw match prop "response" err ≫= prop "data" with
                                 | Some data => RateLimitError data
                                 | None => TypeError
                                 end)]
  else r.2 = [ObsSettled id (Throw (Thrown err))] ∧ guard_same w r.1.
Proof.
  intros Hid Hst r. subst r. cbn [step]. rewrite Hid. cbn [request_refreshed].
  pose proof (finish_frame id true k (Throw (Thrown err)) w) as (_ & Hnet & _).
  destruct (finish_settles id true k (Throw (Thrown err)) w) as (out & _ & Hin & _).
  split; [done|]. split; [rewrite Hin; apply lookup_delete_eq|].
  clear Hnet Hin out.
  unfold finish, refresh_catch. cbn [err_prop]. rewrite Hst.
  set (w0 := set_inflight (delete id (inflight w)) w).
  destruct (loose_eq statusCode 403).
  - pose proof (settle_frame id k
                  (Throw match prop "response" err ≫= prop "data" with
                         | Some data => RateLimitError data
                         | None => TypeError
                         end)
                  (set_this (_setRateLimitHandler (clock w0) (this w0)) w0))
      as (Ho & _ & Hb & _ & Hn & _).
    cbn [err_prop]. by rewrite Ho, Hb, Hn.
  - pose proof (settle_frame id k (Throw (Thrown err)) (set_this (this w0) w0))
      as (Ho & _ & Hg).
    by rewrite Ho.
Qed.

(** On a refresh rejected with 403 at time 500: the guard blocks until 60500. *)
Lemma refresh_rejection_engages_guard_on_403_witness :
  let w := (run [CallRequest; HttpReply 0 (ReplyError 401 JNull); Tick 500]
              (new_world 15000)).1 in
  let err := JObj [("status", JNum 403); ("response", JObj [("data", JStr "blocked")])] in
  let r := step (RefreshReply 0 (Throw (Thrown err))) w in
  isBlocked (this r.1) = true ∧ nextAttempt (this r.1) = 60500 ∧
  r.2 = [ObsSettled 0 (Throw (RateLimitError (JStr "blocked")))].
Proof.
  exact (proj2 (proj2
    (refresh_rejection_engages_guard_on_403
       (run [CallRequest; HttpReply 0 (ReplyError 401 JNull); Tick 500] (new_world 15000)).1
       0 KCaller
       (JObj [("status", JNum 403); ("response", JObj [("data", JStr "blocked")])])
       (JNum 403) eq_refl eq_refl))).
Defined.

(** ** The guard on every run *)

Lemma guard_move_same (w w' : world) : guard_same w w' -> guard_move (this w) (this w').
Proof. intros (? & ? & ? & _). by left. Qed.

Lemma guard_move_then_same (s : SimpliSafe3) (w w' : world) :
  guard_move s (this w) -> guard_same w w' -> guard_move s (this w').
Proof.
  intros H (Hb & Hi & Ha & _). unfold guard_move in *. rewrite Hb, Hi, Ha. exact H.
Qed.

Lemma refresh_catch_move (now : Z) (e : error) (s : SimpliSafe3) :
  guard_move s (refresh_catch now e s).1.
Proof.
  unfold refresh_catch. destruct (err_prop "status" e) as [v|]; [|by left].
  destruct (loose_eq v 403); [|by left].
  right; right. by exists now.
Qed.

Lemma finish_move (id : nat) (tokenRefreshed : bool) (k : continuation)
    (r : result json) (w : world) :
  guard_move (this w) (this (finish id tokenRefreshed k r w).1).
Proof.
  unfold finish. set (w0 := set_inflight (delete id (inflight w)) w).
  destruct tokenRefreshed, r as [d|e];
    try (apply (guard_move_same w); apply (settle_frame id k _ w0)).
  pose proof (refresh_catch_move (clock w0) e (this w0)) as H.
  destruct (refresh_catch (clock w0) e (this w0)) as [s e'].
  apply (guard_move_then_same _ (set_this s w0)); [exact H|apply settle_frame].
Qed.

Lemma step_guard_move (e : event) (w : world) : guard_move (this w) (this (step e w).1).
Proof.
  destruct e as [now| |sub f|st|sid cb|sid|id reply|id r|id r|id r|data|data]; cbn [step fst].
  - pose proof (tick_frame now w) as (_ & _ & _ & _ & _ & ? & ? & ?). by left.
  - apply (guard_move_then_same _ (set_next_id (S (next_id w)) w)); [by left|].
    apply call_request_frame.
  - apply guard_move_same, getSubscription_guard.
  - apply guard_move_same, setAlarmState_frame.
  - apply guard_move_same. exact (proj2 (proj1 (sensor_frames sid cb w))).
  - apply guard_move_same. exact (proj2 (proj2 (sensor_frames sid 0%nat w))).
  - destruct (inflight w !! id) as [[tr k|?|?|?]|]; try (left; by repeat split).
    destruct reply as [d|m|statusCode d]; cbn [request_resume].
    + pose proof (finish_frame id tr k (Return d) (update_this _resetRateLimitHandler w))
        as (_ & _ & _ & _ & H).
      destruct H as [_ (Hb & Hi & Ha & _)]; [right; right; eauto|].
      right; left. by rewrite Hb, Hi, Ha.
    + apply finish_move.
    + destruct ((statusCode =? 401) && negb tr); [by left|].
      destruct (statusCode =? 403); [|apply finish_move].
      pose proof (finish_frame id tr k (Throw (RateLimitError d))
                    (update_this (_setRateLimitHandler (clock w)) w))
        as (_ & _ & _ & _ & H).
      destruct H as [_ (Hb & Hi & Ha & _)]; [right; left; eauto|].
      right; right. exists (clock w). by rewrite Hb, Hi, Ha.
  - destruct (inflight w !! id) as [[?|k|?|?]|]; try (left; by repeat split).
    destruct r as [[]|e]; cbn [request_refreshed].
    + apply guard_move_same, request_frame.
    + apply finish_move.
  - destruct (inflight w !! id) as [[?|?|f|?]|]; try (left; by repeat split).
    apply guard_move_same, getSubscription_resume_guard.
  - destruct (inflight w !! id) as [[?|?|?|st]|]; try (left; by repeat split).
    apply guard_move_same, setAlarmState_resume_frame.
  - apply guard_move_same, getLocks_resume_frame.
  - destruct (_socketCallback_frame data w) as (_ & [-> | ->]); [by left|].
    apply guard_move_same, handleSensorRefreshLockout_frame.
Qed.

Lemma guard_wf_move (s s' : SimpliSafe3) : guard_wf s -> guard_move s s' -> guard_wf s'.
Proof.
  intros [(k & Hk & Hi) Hopen] [(Hb & Hi' & _) | [(Hb & Hi' & _) | (now & Hb & Hi' & _)]].
  - split; [exists k; by rewrite Hi'|]. rewrite Hb, Hi'. exact Hopen.
  - split; [exists 0; by rewrite Hi'|done].
  - split; [|by rewrite Hb].
    rewrite Hi', nextBlockInterval_engage, Hi.
    unfold rateLimitInitialInterval, rateLimitMaxInterval.
    destruct (decide (k = 7)) as [->|Hne].
    + exists 7. split; [lia|]. reflexivity.
    + exists (k + 1). split; [lia|].
      assert (Hlt : (60000 * 2 ^ k <? 2 * 60 * 60 * 1000) = true).
      { apply Z.ltb_lt.
        assert (2 ^ k ≤ 2 ^ 6) by (apply Z.pow_le_mono_r; lia). lia. }
      rewrite Hlt, Z.pow_add_r by lia. lia.
Qed.

(** On every run of the client from its construction, the interval of the
    guard is 60000 ms doubled at most seven times, so it lies between 60000
    and 7680000, and whenever the guard is open the interval is back at
    60000.  The runs are those of [step]; the listener for [error] that
    subscribeToEvents adds with debug logging, which sets isBlocked and
    nothing else, is not one of its events. *)
Theorem reachable_guard_interval (refreshTime : Z) (es : list event) :
  let s := this (run es (new_world refreshTime)).1 in
  guard_wf s ∧ 60000 ≤ nextBlockInterval s ≤ 7680000.
Proof.
  assert (H : ∀ es w, guard_wf (this w) -> guard_wf (this (run es w).1)).
  { clear es. induction es as [|e es IH]; intros w Hw; [done|]. simpl.
    pose proof (guard_wf_move _ _ Hw (step_guard_move e w)) as H1.
    destruct (step e w) as [w1 o1]. specialize (IH w1 H1).
    by destruct (run es w1). }
  intros s.
  assert (Hs : guard_wf s).
  { apply H. split; [exists 0; split; [lia|reflexivity]|done]. }
  split; [exact Hs|].
  destruct Hs as [(k & Hk & ->) _]. unfold rateLimitInitialInterval.
  assert (2 ^ 0 ≤ 2 ^ k) by (apply Z.pow_le_mono_r; lia).
  assert (2 ^ k ≤ 2 ^ 7) by (apply Z.pow_le_mono_r; lia).
  lia.
Qed.

(** ** The subscription cache: failures and forced refreshes *)

(** The request of a cached promise fails: the rejected promise stays in the
    cache, its eviction timer is set 3000 ms from the failure, and a call of
    getSubscription made right then joins it. *)
Lemma subscription_request_fails (w : world) (K : Z) (p : nat)
    (reply : http_reply) :
  inflight w !! p = Some (AwaitHttp false (KSubscription K)) ->
  live K w = Some p ->
  match reply with
  | Reply2xx _ | ReplyError 401 _ => False
  | _ => True
  end ->
  let w' := (step (HttpReply p reply) w).1 in
  live K w' = Some p ∧
  awaited p w' = Some (Throw match reply with
                             | NoResponse message => RateLimitError (JStr message)
                             | ReplyError 403 data => RateLimitError data
                             | ReplyError _ data | Reply2xx data => Thrown data
                             end) ∧
  timers w' = timers w ++ [mkTimer (next_id w) (clock w + 3000) None (CacheEvict K)] ∧
  getSubscription_fetch K false w' = (w', [ObsJoined K p]).
Proof.
  intros Hid Hlive Hreply w'. subst w'. cbn [step]. rewrite Hid.
  unfold live in Hlive.
  destruct (lastSubscriptionRequests (this w) !! K) as [[q|]|] eqn:Hc; simplify_eq.
  assert (Hfetch : ∀ w1 : world,
            lastSubscriptionRequests (this w1) = lastSubscriptionRequests (this w) ->
            live K w1 = Some p ∧ getSubscription_fetch K false w1 = (w1, [ObsJoined K p])).
  { intros w1 Hw1. unfold live, getSubscription_fetch. by rewrite Hw1, Hc. }
  destruct reply as [d|m|statusCode d]; [done| |].
  - cbn [request_resume]. unfold finish, settle, setTimeout, awaited. simpl.
    rewrite lookup_insert_eq.
    destruct (Hfetch (set_next_id (S (next_id w))
                (set_timers (timers w ++ [mkTimer (next_id w) (clock w + subscriptionCacheTime)
                                            None (CacheEvict K)])
                   (set_promises (<[p := Throw (RateLimitError (JStr m))]> (promises w))
                      (set_inflight (delete p (inflight w)) w)))) eq_refl) as [H1 H2].
    done.
  - cbn [request_resume].
    destruct (statusCode =? 401) eqn:E401;
      [apply Z.eqb_eq in E401; by subst statusCode|].
    cbn [andb].
    destruct (statusCode =? 403) eqn:E403.
    + apply Z.eqb_eq in E403. subst statusCode.
      unfold finish, settle, setTimeout, awaited. simpl. rewrite lookup_insert_eq.
      destruct (Hfetch (set_next_id (S (next_id w))
                  (set_timers (timers w ++ [mkTimer (next_id w) (clock w + subscriptionCacheTime)
                                              None (CacheEvict K)])
                     (set_promises (<[p := Throw (RateLimitError d)]> (promises w))
                        (set_inflight (delete p (inflight w))
                           (update_this (_setRateLimitHandler (clock w)) w))))) eq_refl)
        as [H1 H2].
      done.
    + unfold finish, settle, setTimeout, awaited. simpl. rewrite lookup_insert_eq.
      destruct (Hfetch (set_next_id (S (next_id w))
                  (set_timers (timers w ++ [mkTimer (next_id w) (clock w + subscriptionCacheTime)
                                              None (CacheEvict K)])
                     (set_promises (<[p := Throw (Thrown d)]> (promises w))
                        (set_inflight (delete p (inflight w)) w)))) eq_refl) as [H1 H2].
      assert (Hm : match statusCode with 403 => RateLimitError d | _ => Thrown d end = Thrown d).
      { apply Z.eqb_neq in E403.
        repeat (match goal with |- context [match ?x with _ => _ end] => destruct x end;
                try done). }
      by rewrite Hm.
Qed.

(** *** A settled promise stays as it is *)

Lemma settled_as_kept (p : nat) (r : result json) (w w' : world) :
  promises w' = promises w -> inflight w' !! p = inflight w !! p ->
  (next_id w <= next_id w')%nat ->
  settled_as p r w -> settled_as p r w'.
Proof.
  intros Hp Hi Hn (H1 & H2 & H3). unfold settled_as. rewrite Hp, Hi.
  split; [done|]. split; [done|lia].
Qed.

Lemma settled_as_handle (p : nat) (r : result json) (w : world) :
  settled_as p r w -> settled_as p r (handleSensorRefreshLockout w).
Proof.
  destruct (handleSensorRefreshLockout_tasks w) as [Hi Hp].
  apply settled_as_kept; [done|by rewrite Hi|].
  destruct (sensorRefreshLockoutEnabled (this w)) eqn:E.
  - destruct (handleSensorRefreshLockout_arms w E) as (_ & _ & _ & -> & _). lia.
  - by rewrite handleSensorRefreshLockout_disabled.
Qed.

Lemma settled_as_settle (p : nat) (r : result json) (id : nat) (k : continuation)
    (r0 : result json) (w : world) :
  id ≠ p -> settled_as p r w -> settled_as p r (settle id k r0 w).1.
Proof.
  intros Hid Hw. destruct k as [|i|sub state]; simpl; [done| |].
  - destruct Hw as (H1 & H2 & H3). unfold settled_as. simpl.
    rewrite lookup_insert_ne by done. split; [done|]. split; [done|lia].
  - destruct r0; [by apply settled_as_handle|done].
Qed.

Lemma settled_as_finish (p : nat) (r : result json) (id : nat) (tokenRefreshed : bool)
    (k : continuation) (r0 : result json) (w : world) :
  id ≠ p -> settled_as p r w -> settled_as p r (finish id tokenRefreshed k r0 w).1.
Proof.
  intros Hid Hw. unfold finish.
  set (w0 := set_inflight (delete id (inflight w)) w).
  assert (Hw0 : settled_as p r w0).
  { revert Hw. apply settled_as_kept; [done| |done].
    simpl. by rewrite lookup_delete_ne. }
  destruct tokenRefreshed, r0 as [d|e]; try by apply settled_as_settle.
  destruct (refresh_catch (clock w0) e (this w0)) as [s e'].
  apply settled_as_settle; [done|]. revert Hw0. by apply settled_as_kept.
Qed.

Lemma settled_as_request (p : nat) (r : result json) (id : nat) (tokenRefreshed : bool)
    (k : continuation) (w : world) :
  id ≠ p -> settled_as p r w -> settled_as p r (request id tokenRefreshed k w).1.
Proof.
  intros Hid Hw. unfold request. destruct (rate_limited _ _).
  - by apply settled_as_finish.
  - revert Hw. apply settled_as_kept; [done| |done].
    simpl. by rewrite lookup_insert_ne.
Qed.

Lemma settled_as_call_request (p : nat) (r : result json) (id : nat) (k : continuation)
    (w : world) :
  id ≠ p -> settled_as p r w -> settled_as p r (call_request id k w).1.
Proof.
  intros Hid Hw. unfold call_request.
  pose proof (settled_as_request p r id false k w Hid Hw).
  by destruct (request id false k w).
Qed.

Lemma settled_as_fetch (p : nat) (r : result json) (i : Z) (forceRefresh : bool) (w : world) :
  settled_as p r w -> settled_as p r (getSubscription_fetch i forceRefresh w).1.
Proof.
  intros Hw. unfold getSubscription_fetch.
  set (w1 := update_this _ (set_next_id (S (next_id w)) w)).
  assert (Hne : next_id w ≠ p) by (destruct Hw as (_ & _ & ?); lia).
  assert (Hw1 : settled_as p r w1).
  { revert Hw. apply settled_as_kept; [done|done|simpl; lia]. }
  pose proof (settled_as_call_request p r (next_id w) (KSubscription i) w1 Hne Hw1) as H.
  destruct (call_request (next_id w) (KSubscription i) w1) as [w2 o].
  destruct forceRefresh; [exact H|].
  by destruct (lastSubscriptionRequests (this w) !! i) as [[q|]|].
Qed.

Lemma settled_as_step (p : nat) (r : result json) (e : event) (w : world) :
  settled_as p r w -> settled_as p r (step e w).1.
Proof.
  intros Hw.
  assert (Hne : next_id w ≠ p) by (destruct Hw as (_ & _ & ?); lia).
  assert (Hin : ∀ id t, inflight w !! id = Some t -> id ≠ p).
  { intros id t Hid ->. destruct Hw as (_ & Hnone & _). by rewrite Hnone in Hid. }
  assert (Hnext : settled_as p r (set_next_id (S (next_id w)) w)).
  { revert Hw. apply settled_as_kept; [done|done|simpl; lia]. }
  assert (Hdel : ∀ id, id ≠ p -> settled_as p r (set_inflight (delete id (inflight w)) w)).
  { intros id Hid. revert Hw. apply settled_as_kept; [done| |done].
    simpl. by rewrite lookup_delete_ne. }
  assert (Hpark : ∀ t, settled_as p r
            (set_next_id (S (next_id w))
               (set_inflight (<[next_id w := t]> (inflight w)) w))).
  { intros t. revert Hw. apply settled_as_kept; [done| |simpl; lia].
    simpl. by rewrite lookup_insert_ne. }
  destruct e as [now| |sub f|newState|id cb|id|id reply|id r0|id r0|id r0|data|data];
    cbn [step fst].
  - destruct (tick_frame now w) as (_ & Hn & Hi & Hp & _).
    revert Hw. apply settled_as_kept; [done|by rewrite Hi|lia].
  - apply settled_as_call_request; [exact Hne|exact Hnext].
  - unfold getSubscription.
    destruct (if no_id sub then subId (this w) else sub) as [i|]; [|apply Hpark].
    destruct (no_id (Some i)); [apply Hpark|]. by apply settled_as_fetch.
  - unfold setAlarmState. destruct (indexOf_is_minus_one _ _); [done|].
    destruct (no_id (subId (this w))).
    + revert Hw. apply settled_as_kept; [done| |simpl; lia].
      simpl. by rewrite lookup_insert_ne.
    + apply settled_as_call_request; [exact Hne|exact Hnext].
  - revert Hw. unfold subscribeToSensor.
    destruct (sensorRefreshInterval (this w)); apply settled_as_kept; try done; simpl; lia.
  - revert Hw. unfold unsubscribeFromSensor.
    destruct (_ =? _)%nat; [|by apply settled_as_kept].
    unfold clearInterval, clearTimeout. simpl.
    destruct (sensorRefreshInterval (this w)); by apply settled_as_kept.
  - destruct (inflight w !! id) as [[tr k|k|f|st]|] eqn:Hid; try done.
    specialize (Hin id _ Hid).
    unfold request_resume. destruct reply as [d|m|statusCode d].
    + apply settled_as_finish; [done|]. revert Hw. by apply settled_as_kept.
    + by apply settled_as_finish.
    + destruct ((statusCode =? 401) && negb tr).
      * revert Hw. apply settled_as_kept; [done| |done].
        simpl. by rewrite lookup_insert_ne.
      * destruct (statusCode =? 403); by apply settled_as_finish.
  - destruct (inflight w !! id) as [[tr k|k|f|st]|] eqn:Hid; try done.
    specialize (Hin id _ Hid).
    unfold request_refreshed. destruct r0.
    + by apply settled_as_request.
    + by apply settled_as_finish.
  - destruct (inflight w !! id) as [[tr k|k|f|st]|] eqn:Hid; try done.
    specialize (Hin id _ Hid). unfold getSubscription_resume.
    destruct r0 as [[|i [|j l]]|err]; try by apply Hdel.
    apply settled_as_fetch. generalize (Hdel id Hin). by apply settled_as_kept.
  - destruct (inflight w !! id) as [[tr k|k|f|st]|] eqn:Hid; try done.
    specialize (Hin id _ Hid). unfold setAlarmState_resume.
    destruct r0; [|by apply Hdel]. apply settled_as_call_request; [done|]. by apply Hdel.
  - unfold getLocks_resume. destruct (js_length data); [|done].
    revert Hw. by apply settled_as_kept.
  - destruct (_socketCallback_frame data w) as [_ [-> | ->]]; [done|].
    by apply settled_as_handle.
Qed.

Lemma settled_as_run (p : nat) (r : result json) (es : list event) (w : world) :
  settled_as p r w -> settled_as p r (run es w).1.
Proof.
  revert w. induction es as [|e es IH]; intros w Hw; [done|]. simpl.
  pose proof (settled_as_step p r e w Hw) as H1.
  destruct (step e w) as [w1 o1]. specialize (IH w1 H1).
  by destruct (run es w1).
Qed.

Lemma run_live_kept (K : Z) (p : nat) (es : list event) (w : world) :
  no_forced_discovery w ->
  Forall (fun e => unforced K e = true) es ->
  fired (CacheEvict K) (run es w).2 = 0%nat ->
  live K w = Some p -> live K (run es w).1 = Some p.
Proof.
  revert w. induction es as [|e es IH]; intros w Hw Hes Hf Hl; [done|].
  apply Forall_cons in Hes as [He Hes]. simpl in *.
  destruct (step_cache_step K e w He Hw) as [Hstep Hw1].
  destruct (step e w) as [w1 o1]. specialize (IH w1).
  destruct (run es w1) as [w2 o2]. simpl in *.
  rewrite fired_app in Hf.
  unfold cache_step in Hstep. rewrite Hl in Hstep.
  destruct Hstep as (Hl1 & _); [lia|].
  apply IH; [done|done|lia|done].
Qed.

(** The request of a cached promise fails (no answer, 403, or a status other
    than 401).  The rejected promise stays in the cache and its eviction
    timer is set 3000 ms from the failure.  After that, on every run in which
    no call forces a refresh of K and no eviction timer of K fires (the one
    just set, or an older one that a forced refresh left behind), every
    getSubscription call for K joins the rejected promise, no request is made
    for K, and awaiting the promise gives the same rejection. *)
Theorem failed_subscription_request_is_cached (w : world) (K : Z) (p : nat)
    (reply : http_reply) (es : list event) :
  inflight w !! p = Some (AwaitHttp false (KSubscription K)) ->
  live K w = Some p ->
  (p < next_id w)%nat ->
  no_forced_discovery w ->
  match reply with
  | Reply2xx _ | ReplyError 401 _ => False
  | _ => True
  end ->
  Forall (fun e => unforced K e = true) es ->
  let rejection :=
    Throw match reply with
          | NoResponse message => RateLimitError (JStr message)
          | ReplyError 403 data => RateLimitError data
          | ReplyError _ data | Reply2xx data => Thrown data
          end in
  let w' := (step (HttpReply p reply) w).1 in
  let r := run es w' in
  fired (CacheEvict K) r.2 = 0%nat ->
  (awaited p w' = Some rejection ∧
   timers w' = timers w ++ [mkTimer (next_id w) (clock w + 3000) None (CacheEvict K)]) ∧
  requests K r.2 = [] ∧
  Forall (eq p) (joined K r.2) ∧
  live K r.1 = Some p ∧
  awaited p r.1 = Some rejection.
Proof.
  intros Hid Hlive Hp Hw Hreply Hes rejection w' r Hf.
  destruct (subscription_request_fails w K p reply Hid Hlive Hreply)
    as (Hl' & Ha' & Ht' & _).
  fold w' in Hl', Ha', Ht'. fold rejection in Ha'.
  assert (Hw' : no_forced_discovery w').
  { by apply (step_cache_step K (HttpReply p reply) w). }
  pose proof (run_cache K es w' Hw' Hes Hf) as Hrun. rewrite Hl' in Hrun.
  destruct Hrun as [Hreq Hjoin].
  pose proof (run_live_kept K p es w' Hw' Hes Hf Hl') as Hlr.
  assert (Hs : settled_as p rejection w').
  { assert (Hfin : ∀ e0 w0,
              promises (finish p false (KSubscription K) (Throw e0) w0).1 !! p
                = Some (Throw e0) ∧
              inflight (finish p false (KSubscription K) (Throw e0) w0).1 !! p = None ∧
              (next_id w0 <= next_id (finish p false (KSubscription K) (Throw e0) w0).1)%nat).
    { intros e0 w0. unfold finish, settle, setTimeout. simpl.
      rewrite lookup_insert_eq, lookup_delete_eq. repeat split. lia. }
    assert (Hex : ∃ e0, promises w' !! p = Some (Throw e0) ∧ inflight w' !! p = None ∧
                        (p < next_id w')%nat).
    { subst w'. cbn [step fst]. rewrite Hid.
      destruct reply as [d|m|statusCode d]; [done| |]; cbn [request_resume].
      - exists (RateLimitError (JStr m)).
        destruct (Hfin (RateLimitError (JStr m)) w) as (? & ? & ?).
        split; [done|]. split; [done|lia].
      - destruct (statusCode =? 401) eqn:E401;
          [apply Z.eqb_eq in E401; by subst statusCode|]. cbn [andb].
        destruct (statusCode =? 403).
        + exists (RateLimitError d).
          destruct (Hfin (RateLimitError d)
                      (update_this (_setRateLimitHandler (clock w)) w)) as (? & ? & Hn).
          change (next_id (update_this (_setRateLimitHandler (clock w)) w))
            with (next_id w) in Hn.
          split; [done|]. split; [done|lia].
        + exists (Thrown d). destruct (Hfin (Thrown d) w) as (? & ? & ?).
          split; [done|]. split; [done|lia]. }
    destruct Hex as (e0 & Hpr & Hin & Hn).
    unfold awaited in Ha'. rewrite Hpr in Ha'. injection Ha' as Ha'.
    subst e0. unfold settled_as. rewrite Hpr. split; [reflexivity|done]. }
  pose proof (settled_as_run p rejection es w' Hs) as (Hpr & _).
  split; [done|]. split; [done|]. split; [done|]. split; [done|].
  unfold awaited, r. rewrite Hpr. reflexivity.
Qed.

(** On the subscription 7, whose request is answered with 500 at time 40:
    two calls before the eviction at 3040 get the same rejection. *)
Lemma failed_subscription_request_is_cached_witness :
  let w := (run [CallGetSubscription (Some 7) false; Tick 40] (new_world 15000)).1 in
  let w' := (step (HttpReply 0 (ReplyError 500 (JStr "oops"))) w).1 in
  let r := run [CallGetSubscription (Some 7) false; Tick 3039;
                CallGetSubscription (Some 7) false] w' in
  requests 7 r.2 = [] ∧ joined 7 r.2 = [0; 0]%nat ∧
  awaited 0 r.1 = Some (Throw (Thrown (JStr "oops"))).
Proof.
  cbv zeta.
  assert (Hw : no_forced_discovery
                 (run [CallGetSubscription (Some 7) false; Tick 40] (new_world 15000)).1).
  { intros id.
    change (inflight (run [CallGetSubscription (Some 7) false; Tick 40]
                        (new_world 15000)).1)
      with (<[0%nat := AwaitHttp false (KSubscription 7)]> (∅ : gmap nat task)).
    destruct (decide (id = 0%nat)) as [->|Hne].
    - by rewrite lookup_insert_eq.
    - by rewrite lookup_insert_ne, lookup_empty. }
  pose proof (failed_subscription_request_is_cached
                (run [CallGetSubscription (Some 7) false; Tick 40] (new_world 15000)).1
                7 0 (ReplyError 500 (JStr "oops"))
                [CallGetSubscription (Some 7) false; Tick 3039;
                 CallGetSubscription (Some 7) false]
                eq_refl eq_refl (le_n 1) Hw I
                ltac:(repeat constructor) eq_refl) as (_ & Hr & _ & _ & Ha).
  split; [exact Hr|]. split; [reflexivity|exact Ha].
Defined.

Lemma call_all_evicts (K : Z) (due : list timer) (w : world) :
  (∃ tm, tm ∈ due ∧ tm_body tm = CacheEvict K) -> live K (call_all due w).1 = None.
Proof.
  revert w. induction due as [|tm due IH]; intros w (x & Hx & Hb).
  - by apply elem_of_nil in Hx.
  - cbn [call_all].
    destruct (call_body (tm_body tm) w) as [w1 o1] eqn:E1.
    destruct (call_all due w1) as [w2 o2] eqn:E2. cbn [fst].
    apply elem_of_cons in Hx as [->|Hx].
    + rewrite Hb in E1. simpl in E1. simplify_eq.
      pose proof (call_all_cache K due
                    (update_this
                       (fun s => set_lastSubscriptionRequests
                                   (<[K := None]> (lastSubscriptionRequests s)) s) w))
        as (_ & _ & _ & H).
      rewrite E2 in H. apply H. unfold live. simpl. by rewrite lookup_insert_eq.
    + specialize (IH w1). rewrite E2 in IH. apply IH. eauto.
Qed.

(** A forced refresh does not cancel the eviction timer of the entry it
    replaces.  When that timer fires, it empties the cache while the forced
    request is still in flight, and the next plain call sends a second
    request for the same subscription. *)
Theorem forced_refresh_is_evicted_by_old_timer (w : world) (K : Z) (tm : timer) (now : Z) :
  tm ∈ timers w -> tm_body tm = CacheEvict K -> tm_due tm ≤ now ->
  isBlocked (this w) = false ->
  let w1 := (getSubscription_fetch K true w).1 in
  let w2 := (tick now w1).1 in
  live K w1 = Some (next_id w) ∧
  live K w2 = None ∧
  inflight w2 !! next_id w = Some (AwaitHttp false (KSubscription K)) ∧
  (getSubscription_fetch K false w2).2
    = [ObsRequest (S (next_id w)) (KSubscription K);
       ObsHttp (S (next_id w)) (KSubscription K);
       ObsJoined K (S (next_id w))].
Proof.
  intros Htm Hb Hdue Hopen w1 w2.
  assert (E1 : w1 =
            set_inflight (<[next_id w := AwaitHttp false (KSubscription K)]> (inflight w))
              (update_this
                 (fun s => set_lastSubscriptionRequests
                             (<[K := Some (next_id w)]> (lastSubscriptionRequests s)) s)
                 (set_next_id (S (next_id w)) w))).
  { subst w1. unfold getSubscription_fetch, call_request, request, rate_limited. simpl.
    by rewrite Hopen. }
  assert (Hl1 : live K w1 = Some (next_id w)).
  { rewrite E1. unfold live. simpl. by rewrite lookup_insert_eq. }
  destruct (tick_frame now w1) as (_ & Hn2 & Hi2 & _ & _ & Hb2 & _).
  fold w2 in Hn2, Hi2, Hb2.
  assert (Hl2 : live K w2 = None).
  { subst w2. rewrite tick_unfold. cbv zeta. apply call_all_evicts.
    exists tm. split; [|done]. rewrite merge_sort_Permutation.
    apply list_elem_of_filter. split; [lia|]. by rewrite E1. }
  split; [done|]. split; [done|]. split.
  - rewrite Hi2, E1. simpl. by rewrite lookup_insert_eq.
  - assert (Hn : next_id w2 = S (next_id w)) by by rewrite Hn2, E1.
    assert (Hopen2 : isBlocked (this w2) = false) by by rewrite Hb2, E1.
    unfold live in Hl2. unfold getSubscription_fetch, call_request, request, rate_limited.
    destruct (lastSubscriptionRequests (this w2) !! K) as [[q|]|]; [done| |];
      simpl; rewrite Hopen2, Hn; done.
Qed.

(** On the subscription 7: fetched at time 0, its entry is due for eviction at
    3000; a forced refresh at 2900 is still in flight then. *)
Lemma forced_refresh_is_evicted_by_old_timer_witness :
  let w := (run [CallGetSubscription (Some 7) false;
                 HttpReply 0 (Reply2xx JNull); Tick 2900] (new_world 15000)).1 in
  let w2 := (tick 3000 (getSubscription_fetch 7 true w).1).1 in
  live 7 w2 = None ∧
  inflight w2 !! 2%nat = Some (AwaitHttp false (KSubscription 7)).
Proof.
  pose proof (forced_refresh_is_evicted_by_old_timer
                (run [CallGetSubscription (Some 7) false;
                      HttpReply 0 (Reply2xx JNull); Tick 2900] (new_world 15000)).1
                7 (mkTimer 1 3000 None (CacheEvict 7)) 3000) as H.
  destruct H as (_ & H2 & H3 & _);
    [by apply list_elem_of_singleton|reflexivity|reflexivity|reflexivity|].
  exact (conj H2 H3).
Defined.

(** ** The sensor poller on every run *)

Lemma polls_app (o1 o2 : list obs) : polls (o1 ++ o2) = polls o1 ++ polls o2.
Proof. apply flat_map_app. Qed.

Lemma call_all_no_poller (due : list timer) (w : world) :
  (∀ tm, tm ∈ due -> tm_body tm ≠ SensorRefresh) ->
  polls (call_all due w).2 = [] ∧ fired SensorRefresh (call_all due w).2 = 0%nat.
Proof.
  revert w. induction due as [|tm due IH]; intros w Hdue; [done|].
  cbn [call_all].
  assert (Hb : tm_body tm ≠ SensorRefresh) by (apply Hdue; by left).
  destruct (call_body (tm_body tm) w) as [w1 o1] eqn:E1.
  destruct (IH w1) as [IH1 IH2]; [intros x Hx; apply Hdue; by right|].
  destruct (call_all due w1) as [w2 o2]. cbn [snd] in *.
  rewrite polls_app, fired_app, IH1, IH2.
  destruct (tm_body tm) as [i| |]; simpl in E1; simplify_eq; done.
Qed.

Lemma call_all_refreshTime (due : list timer) (w : world) :
  sensorRefreshTime (this (call_all due w).1) = sensorRefreshTime (this w).
Proof.
  revert w. induction due as [|tm due IH]; intros w; [done|]. simpl.
  destruct (call_body (tm_body tm) w) as [w1 o1] eqn:E1. specialize (IH w1).
  destruct (call_all due w1) as [w2 o2]. simpl in *. rewrite IH.
  destruct (tm_body tm); simpl in E1; simplify_eq; reflexivity.
Qed.

Lemma filter_rearm (b : timer_body) (t : Z) (l : list timer) :
  filter (fun tm => tm_body tm = b) (flat_map (rearm t) l)
  = flat_map (rearm t) (filter (fun tm => tm_body tm = b) l).
Proof.
  induction l as [|tm l IH]; [done|]. simpl.
  rewrite filter_app, IH, (filter_cons (fun tm => tm_body tm = b)).
  destruct (decide (tm_body tm = b)) as [Hb|Hb]; cbn [flat_map]; unfold rearm at 1 3.
  - destruct (tm_repeat tm); [|done]. by rewrite filter_cons_True.
  - destruct (tm_repeat tm); [|done]. by rewrite filter_cons_False.
Qed.

(** The timers of the poller after a tick: those not yet due, and those that
    fired, put back one period later. *)
Lemma pollers_tick (now : Z) (w : world) :
  let t := Z.max (clock w) now in
  pollers (tick now w).1 ≡ₚ
    filter (fun tm => ¬ tm_due tm ≤ t) (pollers w)
    ++ flat_map (rearm t) (filter (fun tm => tm_due tm ≤ t) (pollers w)).
Proof.
  intros t. rewrite tick_unfold. cbv zeta. fold t.
  set (ds := merge_sort due_le (filter (fun tm => tm_due tm ≤ t) (timers w))).
  unfold pollers at 1.
  destruct (call_all_frame ds
              (set_timers (filter (fun tm => ¬ tm_due tm ≤ t) (timers w)
                           ++ flat_map (rearm t) ds) (set_clock t w))) as (-> & _).
  cbn [timers set_timers].
  rewrite filter_app, filter_rearm.
  apply Permutation_app.
  - unfold pollers. by rewrite filter_swap.
  - apply Permutation_flat_map. unfold ds, pollers.
    rewrite merge_sort_Permutation. by rewrite filter_swap.
Qed.

(** *** Invariants of the timers, step by step *)

Section TimerInvariant.

Variable I : world -> Prop.

Hypothesis I_kept : ∀ w w',
  timers w' = timers w ->
  sensorRefreshInterval (this w') = sensorRefreshInterval (this w) ->
  sensorRefreshTime (this w') = sensorRefreshTime (this w) ->
  I w -> I w'.
Hypothesis I_add : ∀ b due period w,
  b ≠ SensorRefresh -> I w ->
  I (set_timers (timers w ++ [mkTimer (next_id w) due period b]) w).
Hypothesis I_clear : ∀ h w, I w -> I (clearTimeout h w).
Hypothesis I_tick : ∀ now w, I w -> I (tick now w).1.
Hypothesis I_subscribe : ∀ id callback w, I w -> I (subscribeToSensor id callback w).

Lemma I_handle (w : world) : I w -> I (handleSensorRefreshLockout w).
Proof.
  intros Hw. unfold handleSensorRefreshLockout.
  destruct (negb _); [done|].
  pose proof (I_clear (sensorRefreshLockoutTimeout (this w)) w Hw) as Hc.
  pose proof (I_add LockoutExpire
                (clock (clearTimeout (sensorRefreshLockoutTimeout (this w)) w)
                 + sensorRefreshLockoutDuration) None _ ltac:(done) Hc) as Ha.
  revert Ha. apply I_kept; by destruct (sensorRefreshLockoutTimeout (this w)).
Qed.

Lemma I_settle (id : nat) (k : continuation) (r : result json) (w : world) :
  I w -> I (settle id k r w).1.
Proof.
  intros Hw. destruct k as [|i|sub state]; simpl; [done| |].
  - pose proof (I_add (CacheEvict i) (clock w + subscriptionCacheTime) None w
                  ltac:(done) Hw) as Ha.
    revert Ha. by apply I_kept.
  - destruct r; [by apply I_handle|done].
Qed.

Lemma I_finish (id : nat) (tokenRefreshed : bool) (k : continuation)
    (r : result json) (w : world) :
  I w -> I (finish id tokenRefreshed k r w).1.
Proof.
  intros Hw. unfold finish.
  set (w0 := set_inflight (delete id (inflight w)) w).
  assert (Hw0 : I w0) by (revert Hw; by apply I_kept).
  destruct tokenRefreshed, r as [d|e]; try by apply I_settle.
  assert (Hf : sensorRefreshInterval (refresh_catch (clock w0) e (this w0)).1
               = sensorRefreshInterval (this w0) ∧
               sensorRefreshTime (refresh_catch (clock w0) e (this w0)).1
               = sensorRefreshTime (this w0)).
  { unfold refresh_catch. destruct (err_prop "status" e) as [v|]; [|done].
    by destruct (loose_eq v 403). }
  destruct Hf as [Hi Ht].
  destruct (refresh_catch (clock w0) e (this w0)) as [s e']. simpl in *.
  apply I_settle. revert Hw0. by apply I_kept.
Qed.

Lemma I_request (id : nat) (tokenRefreshed : bool) (k : continuation) (w : world) :
  I w -> I (request id tokenRefreshed k w).1.
Proof.
  intros Hw. unfold request. destruct (rate_limited _ _).
  - by apply I_finish.
  - revert Hw. by apply I_kept.
Qed.

Lemma I_call_request (id : nat) (k : continuation) (w : world) :
  I w -> I (call_request id k w).1.
Proof.
  intros Hw. unfold call_request.
  pose proof (I_request id false k w Hw).
  by destruct (request id false k w).
Qed.

Lemma I_fetch (i : Z) (forceRefresh : bool) (w : world) :
  I w -> I (getSubscription_fetch i forceRefresh w).1.
Proof.
  intros Hw. unfold getSubscription_fetch.
  set (w1 := update_this _ (set_next_id (S (next_id w)) w)).
  assert (Hw1 : I w1) by (revert Hw; by apply I_kept).
  pose proof (I_call_request (next_id w) (KSubscription i) w1 Hw1) as H.
  destruct (call_request (next_id w) (KSubscription i) w1) as [w2 o].
  destruct forceRefresh; [exact H|].
  by destruct (lastSubscriptionRequests (this w) !! i) as [[p|]|].
Qed.

Lemma I_step (e : event) (w : world) : I w -> I (step e w).1.
Proof.
  intros Hw.
  assert (Hk : ∀ w', timers w' = timers w ->
                 sensorRefreshInterval (this w') = sensorRefreshInterval (this w) ->
                 sensorRefreshTime (this w') = sensorRefreshTime (this w) -> I w').
  { intros w' H1 H2 H3. by apply (I_kept w). }
  destruct e as [now| |sub f|newState|id cb|id|id reply|id r|id r|id r|data|data];
    cbn [step fst].
  - by apply I_tick.
  - apply I_call_request. by apply Hk.
  - unfold getSubscription.
    destruct (if no_id sub then subId (this w) else sub) as [i|]; [|by apply Hk].
    destruct (no_id (Some i)); [by apply Hk|]. by apply I_fetch.
  - unfold setAlarmState. destruct (indexOf_is_minus_one _ _); [done|].
    destruct (no_id (subId (this w))); [by apply Hk|].
    apply I_call_request. by apply Hk.
  - by apply I_subscribe.
  - unfold unsubscribeFromSensor.
    set (w1 := update_this _ w).
    assert (Hw1 : I w1) by by apply Hk.
    destruct (_ =? _)%nat; [|done]. by apply I_clear.
  - destruct (inflight w !! id) as [[tr k|k|f|st]|]; try done.
    unfold request_resume. destruct reply as [d|m|statusCode d].
    + apply I_finish. by apply Hk.
    + by apply I_finish.
    + destruct ((statusCode =? 401) && negb tr); [by apply Hk|].
      destruct (statusCode =? 403); apply I_finish; [|done]. by apply Hk.
  - destruct (inflight w !! id) as [[tr k|k|f|st]|]; try done.
    unfold request_refreshed. destruct r.
    + by apply I_request.
    + by apply I_finish.
  - destruct (inflight w !! id) as [[tr k|k|f|st]|]; try done.
    unfold getSubscription_resume.
    destruct r as [[|i [|j l]]|err]; try by apply Hk.
    apply I_fetch. by apply Hk.
  - destruct (inflight w !! id) as [[tr k|k|f|st]|]; try done.
    unfold setAlarmState_resume.
    destruct r; [|by apply Hk]. apply I_call_request. by apply Hk.
  - unfold getLocks_resume. destruct (js_length data); [|done]. by apply Hk.
  - destruct (_socketCallback_frame data w) as [_ [-> | ->]]; [done|].
    by apply I_handle.
Qed.

Lemma I_run (es : list event) (w : world) : I w -> I (run es w).1.
Proof.
  revert w. induction es as [|e es IH]; intros w Hw; [done|]. simpl.
  pose proof (I_step e w Hw) as H1.
  destruct (step e w) as [w1 o1]. specialize (IH w1 H1).
  by destruct (run es w1).
Qed.

End TimerInvariant.

Lemma poller_stopped_tick (now : Z) (w : world) :
  poller_stopped w ->
  poller_stopped (tick now w).1 ∧
  polls (tick now w).2 = [] ∧ fired SensorRefresh (tick now w).2 = 0%nat.
Proof.
  intros [H1 H2]. split.
  - split.
    + rewrite tick_unfold. cbv zeta. by rewrite call_all_interval.
    + apply Permutation_nil_r. rewrite (pollers_tick now w), H2. done.
  - rewrite tick_unfold. cbv zeta. apply call_all_no_poller.
    intros tm. rewrite merge_sort_Permutation, list_elem_of_filter.
    intros [_ Htm] Hb.
    assert (Hin : tm ∈ pollers w) by (by apply list_elem_of_filter).
    rewrite H2 in Hin. by apply elem_of_nil in Hin.
Qed.

Lemma poller_stopped_run (es : list event) (w : world) :
  poller_stopped w -> poller_stopped (run es w).1.
Proof.
  apply I_run.
  - intros w1 w2 Ht Hi _ [H1 H2]. unfold poller_stopped, pollers in *. by rewrite Ht, Hi.
  - intros b due period w1 Hb [H1 H2]. unfold poller_stopped, pollers in *. simpl.
    split; [done|]. by rewrite filter_app, filter_cons_False, filter_nil, app_nil_r.
  - intros h w1 [H1 H2]. destruct h as [i|]; [|done].
    unfold poller_stopped, pollers in *. simpl. split; [done|].
    by rewrite filter_swap, H2.
  - intros now w1 Hw1. by apply poller_stopped_tick.
  - intros id cb w1 [[h Hh] Hp]. unfold subscribeToSensor. rewrite Hh.
    split; [by exists h|done].
Qed.

(** unsubscribeFromSensor stops the poller when the last subscription goes,
    and keeps the handle in sensorRefreshInterval.  From then on no sequence
    of calls, answers and timer ticks starts it again: no poller timer is
    ever pending and no tick runs the poller's function, whatever is
    subscribed afterwards. *)
Theorem stopped_poller_never_restarts (w : world) (es : list event) (now : Z) :
  poller_stopped w ->
  let w' := (run es w).1 in
  poller_stopped w' ∧
  polls (tick now w').2 = [] ∧ fired SensorRefresh (tick now w').2 = 0%nat.
Proof.
  intros Hw w'.
  pose proof (poller_stopped_run es w Hw) as H.
  split; [exact H|]. by apply poller_stopped_tick.
Qed.

(** On a client where A subscribed and unsubscribed: B subscribes, and no tick polls. *)
Lemma stopped_poller_never_restarts_witness :
  let w := (run [CallSubscribeToSensor "A" 1%nat; CallUnsubscribeFromSensor "A"]
              (new_world 15000)).1 in
  let w' := (run [CallSubscribeToSensor "B" 2%nat; Tick 15000] w).1 in
  sensorSubscriptions (this w') = [("B", 2%nat)] ∧
  polls (tick 30000 w').2 = [].
Proof.
  split; [reflexivity|].
  apply (stopped_poller_never_restarts
           (run [CallSubscribeToSensor "A" 1%nat; CallUnsubscribeFromSensor "A"]
              (new_world 15000)).1
           [CallSubscribeToSensor "B" 2%nat; Tick 15000] 30000).
  split; [by exists 0%nat|reflexivity].
Defined.

Lemma poller_single_run (refreshTime : Z) (es : list event) (w : world) :
  poller_single refreshTime w -> poller_single refreshTime (run es w).1.
Proof.
  apply I_run.
  - intros w1 w2 Ht Hi Hr [H1 H2]. unfold poller_single, pollers in *.
    by rewrite Ht, Hi, Hr.
  - intros b due period w1 Hb [H1 H2]. unfold poller_single, pollers in *. simpl.
    split; [done|].
    by rewrite filter_app, filter_cons_False, filter_nil, app_nil_r.
  - intros h w1 [H1 H2]. destruct h as [i|]; [|done].
    unfold poller_single, pollers in *. simpl. split; [done|].
    rewrite filter_swap.
    destruct (sensorRefreshInterval (this w1)) as [h|]; [|by rewrite H2].
    destruct H2 as [-> | (due & ->)]; [by left|].
    rewrite filter_cons, filter_nil. destruct (decide _); [right; eauto|by left].
  - intros now w1 [H1 H2].
    pose proof (pollers_tick now w1) as Hp. cbv zeta in Hp.
    assert (Hi : sensorRefreshInterval (this (tick now w1).1)
                 = sensorRefreshInterval (this w1)).
    { rewrite tick_unfold. cbv zeta. by rewrite call_all_interval. }
    assert (Hr : sensorRefreshTime (this (tick now w1).1) = sensorRefreshTime (this w1)).
    { rewrite tick_unfold. cbv zeta. by rewrite call_all_refreshTime. }
    unfold poller_single. rewrite Hi, Hr. split; [done|].
    destruct (sensorRefreshInterval (this w1)) as [h|].
    + destruct H2 as [H2 | (due & H2)]; rewrite H2 in Hp.
      * left. by apply Permutation_nil_r.
      * right. rewrite !filter_cons, !filter_nil in Hp. cbn [tm_due] in Hp.
        destruct (decide (due ≤ Z.max (clock w1) now)) as [Hd|Hd].
        -- rewrite decide_False in Hp by tauto. simpl in Hp.
           apply Permutation_singleton_r in Hp. eauto.
        -- rewrite decide_True in Hp by done. simpl in Hp.
           apply Permutation_singleton_r in Hp. eauto.
    + rewrite H2 in Hp. by apply Permutation_nil_r.
  - intros id cb w1 [H1 H2]. unfold subscribeToSensor.
    destruct (sensorRefreshInterval (this w1)) as [h|] eqn:Eh.
    + unfold poller_single. simpl. by rewrite Eh.
    + unfold poller_single, pollers in *. simpl. split; [done|]. right.
      exists (clock w1 + sensorRefreshTime (this w1)).
      rewrite filter_app, H2, filter_cons_True, filter_nil by done.
      simpl. by rewrite H1.
Qed.

(** On every run of the client from its construction at most one timer of
    the sensor poller is pending; it is the timer whose handle
    sensorRefreshInterval holds, and its period is the refresh time given to
    the constructor. *)
Theorem reachable_single_poller (refreshTime : Z) (es : list event) :
  let w := (run es (new_world refreshTime)).1 in
  pollers w = [] ∨
  ∃ h due, sensorRefreshInterval (this w) = Some h ∧
           pollers w = [mkTimer h due (Some refreshTime) SensorRefresh].
Proof.
  intros w.
  assert (H : poller_single refreshTime w).
  { apply poller_single_run. by split. }
  destruct H as [_ H]. destruct (sensorRefreshInterval (this w)) as [h|]; [|by left].
  destruct H as [H | (due & H)]; [by left|right; eauto].
Qed.

Lemma call_all_locked_out (due : list timer) (w : world) (h : nat) :
  (∀ tm, tm ∈ due -> tm_body tm ≠ LockoutExpire) ->
  sensorRefreshLockoutTimeout (this w) = Some h ->
  Forall (fun d => d ≠ PollGetSensors) (polls (call_all due w).2).
Proof.
  revert w. induction due as [|tm due IH]; intros w Hdue Hh; [by constructor|].
  cbn [call_all].
  assert (Hb : tm_body tm ≠ LockoutExpire) by (apply Hdue; by left).
  destruct (call_body (tm_body tm) w) as [w1 o1] eqn:E1.
  assert (H1 : sensorRefreshLockoutTimeout (this w1) = Some h ∧
               Forall (fun d => d ≠ PollGetSensors) (polls o1)).
  { destruct (tm_body tm) as [i| |]; [|by destruct Hb|]; simpl in E1; simplify_eq; simpl.
    - split; [done|constructor].
    - split; [done|]. constructor; [|constructor].
      unfold sensorRefresh_body. rewrite Hh. by destruct (_ =? _)%nat. }
  destruct H1 as [Hh1 Ho1].
  specialize (IH w1 ltac:(intros x Hx; apply Hdue; by right) Hh1).
  destruct (call_all due w1) as [w2 o2]. cbn [snd] in *.
  rewrite polls_app. by apply Forall_app.
Qed.

(** While the lockout is armed, a tick that comes before its expiry never
    polls the sensors: every run of the poller's function returns before it
    calls getSensors. *)
Theorem no_poll_while_locked_out (w : world) (h : nat) (due now : Z) :
  lockout_pending h due w ->
  Z.max (clock w) now < due ->
  Forall (fun d => d ≠ PollGetSensors) (polls (tick now w).2) ∧
  lockout_pending h due (tick now w).1.
Proof.
  intros Hp Hlt.
  pose proof (tick_lockout_pending h due now w Hp) as Ht.
  destruct (decide (due ≤ Z.max (clock w) now)) as [Hle|_]; [lia|].
  split; [|apply Ht].
  destruct Hp as [Hf Hl].
  rewrite tick_unfold. cbv zeta. apply (call_all_locked_out _ _ h); [|done].
  intros tm. rewrite merge_sort_Permutation, list_elem_of_filter.
  intros [Hdue Htm] Hb.
  assert (Hin : tm ∈ lockouts w) by (by apply list_elem_of_filter).
  rewrite Hl in Hin. apply list_elem_of_singleton in Hin. subst tm. simpl in Hdue. lia.
Qed.

(** On a client with a lock and a subscriber, polling every second: the lockout
    runs until 15000, and the tick at 14000 does not poll. *)
Lemma no_poll_while_locked_out_witness :
  let w := handleSensorRefreshLockout
             (subscribeToSensor "A" 1
                (getLocks_resume (JArr [JObj []]) (new_world 1000))) in
  polls (tick 14000 w).2 = [PollLockedOut] ∧
  Forall (fun d => d ≠ PollGetSensors) (polls (tick 14000 w).2).
Proof.
  split; [reflexivity|].
  apply (no_poll_while_locked_out
           (handleSensorRefreshLockout
              (subscribeToSensor "A" 1
                 (getLocks_resume (JArr [JObj []]) (new_world 1000))))
           1 15000 14000); [split; reflexivity|reflexivity].
Defined.

(** ** Discovery of the subscription *)

Lemma List_filter_decide {A} (f : A -> bool) (P : A -> Prop) `{!∀ x, Decision (P x)}
    (l : list A) :
  (∀ x, f x = true <-> P x) -> List.filter f l = filter P l.
Proof.
  intros Hf. induction l as [|x l IH]; [done|]. simpl. rewrite filter_cons, IH.
  destruct (decide (P x)) as [Hp|Hp].
  - by rewrite (proj2 (Hf x) Hp).
  - destruct (f x) eqn:E; [|done]. by apply Hf in E.
Qed.

Lemma getSubscriptions_resume_matching (accountNumber : option string) (data : list plan)
    (w : world) :
  (getSubscriptions_resume accountNumber data w).2 = filter (matching accountNumber) data.
Proof.
  assert (Hst : ∀ s, existsb (Z.eqb (sStatus s)) [7; 10; 20] = true <-> sStatus s ∈ [7; 10; 20]).
  { intros s. rewrite existsb_exists. split.
    - intros (x & Hx & E). apply Z.eqb_eq in E. rewrite E. by apply list_elem_of_In.
    - intros H. exists (sStatus s). split; [by apply list_elem_of_In|apply Z.eqb_refl]. }
  assert (E : (getSubscriptions_resume accountNumber data w).2 =
              match accountNumber with
              | Some a =>
                  if truthy (JStr a)
                  then List.filter (fun s => String.eqb (account s) a)
                         (List.filter (fun s => existsb (Z.eqb (sStatus s)) [7; 10; 20]) data)
                  else List.filter (fun s => existsb (Z.eqb (sStatus s)) [7; 10; 20]) data
              | None => List.filter (fun s => existsb (Z.eqb (sStatus s)) [7; 10; 20]) data
              end).
  { unfold getSubscriptions_resume. cbv zeta.
    by destruct (match accountNumber with Some _ => _ | None => _ end) as [|s [|s' l]]. }
  rewrite E. clear E.
  destruct accountNumber as [a|].
  - cbn [truthy]. destruct (String.eqb a "") eqn:Ea; cbn [negb].
    + apply String.eqb_eq in Ea. subst a.
      apply List_filter_decide. intros s. rewrite Hst. unfold matching. tauto.
    + apply String.eqb_neq in Ea.
      rewrite (List_filter_decide _ (fun s => sStatus s ∈ [7; 10; 20]) data Hst).
      rewrite (List_filter_decide _ (fun s => account s = a) _
                 (fun s => String.eqb_eq (account s) a)).
      rewrite list_filter_filter. apply list_filter_iff.
      intros s. unfold matching. tauto.
  - apply List_filter_decide. intros s. rewrite Hst. unfold matching. tauto.
Qed.

(** getSubscription without an id looks the plans up and goes on with the
    one plan that is active (sStatus 7, 10 or 20) and, when an account number
    is set, belongs to that account: it becomes subId and its subscription is
    fetched through the cache.  With no such plan, or with several, the call
    fails, no request is made, and subId and the cache are as they were. *)
Theorem discovery_selects_the_matching_plan (id : nat) (forceRefresh : bool)
    (accountNumber : option string) (data : list plan) (w : world) :
  let r := discover id forceRefresh accountNumber data w in
  let w0 := set_inflight (delete id (inflight w)) w in
  match filter (matching accountNumber) data with
  | [] =>
      r = (w0, [ObsSettled id (Throw (Error "No matching monitoring plans found. Check your account and ensure you have an active plan."))])
  | [s] =>
      r = getSubscription_fetch (plan_sid s) forceRefresh
            (update_this (set_subId (Some (plan_sid s))) w0)
  | _ => r = (w0, [ObsSettled id (Throw (Error "Multiple plans found."))])
  end.
Proof.
  intros r w0. subst r w0. unfold discover.
  pose proof (getSubscriptions_resume_matching accountNumber data w) as H.
  destruct (getSubscriptions_resume accountNumber data w) as [w1 subs] eqn:E.
  cbn [snd] in H. rewrite <- H. clear H.
  unfold getSubscriptions_resume in E. cbv zeta in E.
  destruct (match accountNumber with Some _ => _ | None => _ end) as [|s [|s' l]];
    by inversion E.
Qed.

(** ** getAlarmState *)

Lemma includes_elem_of (xs : list string) (v : json) (x : string) :
  includes xs v = Some x -> x ∈ xs.
Proof.
  destruct v as [| | | |y| |]; try done. unfold includes.
  destruct (existsb (String.eqb y) xs) eqn:E; [|done]. intros [= <-].
  apply existsb_exists in E as (z & Hz & E).
  apply String.eqb_eq in E. subst z. by apply list_elem_of_In.
Qed.

Lemma getAlarmState_resume_valid (retry : bool) (subscription : json) (state : string) :
  getAlarmState_resume retry subscription = StateIs state -> state ∈ validStates.
Proof.
  unfold getAlarmState_resume.
  destruct (prop "location" subscription) as [location|]; [|done]. cbv zeta.
  destruct (truthy (if truthy location then _ else _)); [|done].
  destruct (truthy (default JUndefined (prop "isAlarming" _))).
  { intros [= <-]. unfold validStates. set_solver. }
  destruct (includes validStates _) as [alarmState|] eqn:E.
  - intros [= <-]. by apply includes_elem_of in E.
  - by destruct (negb retry).
Qed.

Lemma getAlarmState_resume_retries_once (subscription : json) :
  getAlarmState_resume true subscription ≠ RetryForced.
Proof.
  unfold getAlarmState_resume.
  destruct (prop "location" subscription) as [location|]; [|done]. cbv zeta.
  destruct (truthy (if truthy location then _ else _)); [|done].
  destruct (truthy (default JUndefined (prop "isAlarming" _))); [done|].
  by destruct (includes validStates _).
Qed.

Lemma getAlarmState_states (forceRefresh : bool) (answers : list (result json))
    (state : string) :
  (getAlarmState forceRefresh false answers).2 = Some (Return state) -> state ∈ validStates.
Proof.
  destruct answers as [|[sub|e] rest]; simpl; [done| |done].
  destruct (getAlarmState_resume false sub) eqn:E1.
  - intros [= <-]. by apply (getAlarmState_resume_valid false sub).
  - destruct rest as [|[sub2|e2] rest2]; simpl; [done| |done].
    pose proof (getAlarmState_resume_retries_once sub2) as H.
    destruct (getAlarmState_resume true sub2) eqn:E2; try done.
    intros [= <-]. by apply (getAlarmState_resume_valid true sub2).
  - done.
Qed.

Lemma includes_None (xs : list string) (v : json) :
  includes xs v = None <-> ∀ x, v = JStr x -> x ∉ xs.
Proof.
  assert (Hex : ∀ y, existsb (String.eqb y) xs = true <-> y ∈ xs).
  { intros y. rewrite existsb_exists. split.
    - intros (z & Hz & E). apply String.eqb_eq in E. subst z. by apply list_elem_of_In.
    - intros H. exists y. split; [by apply list_elem_of_In|apply String.eqb_refl]. }
  destruct v as [| | | |y| |]; simpl; try (split; [intros _ x; discriminate|done]).
  destruct (existsb (String.eqb y) xs) eqn:E.
  - split; [done|]. intros H. apply Hex in E. by destruct (H y eq_refl).
  - split; [|done]. intros _ x [= <-] Hin. apply Hex in Hin. congruence.
Qed.

Lemma getAlarmState_resume_reports (retry : bool) (subscription isAlarming alarmState : json) :
  reports subscription isAlarming alarmState ->
  getAlarmState_resume retry subscription =
    if truthy isAlarming then StateIs "ALARM"
    else match includes validStates alarmState with
         | Some state => StateIs state
         | None => if negb retry then RetryForced
                   else Fails (Error "Alarm state not understood")
         end.
Proof.
  intros (location & system & Hl & Htl & Hs & Hts & Ha & Hst).
  unfold getAlarmState_resume. rewrite Hl. cbv zeta. rewrite Htl, Hs. simpl.
  rewrite Hts, Ha, Hst. reflexivity.
Qed.

Lemma getAlarmState_resume_retry (subscription : json) :
  getAlarmState_resume false subscription = RetryForced ->
  ∃ isAlarming alarmState,
    reports subscription isAlarming alarmState ∧ truthy isAlarming = false ∧
    unknown_state alarmState.
Proof.
  unfold getAlarmState_resume.
  destruct (prop "location" subscription) as [location|] eqn:Hl; [|done]. cbv zeta.
  destruct (truthy location) eqn:Htl.
  2:{ by rewrite Htl. }
  destruct (prop "system" location) as [system|] eqn:Hs; [|done]. simpl.
  destruct (truthy system) eqn:Hts; [|done].
  assert (Hp : ∀ name, prop name system = Some (default JUndefined (prop name system))).
  { intros name. by destruct system. }
  destruct (truthy (default JUndefined (prop "isAlarming" system))) eqn:Ha; [done|].
  destruct (includes validStates (default JUndefined (prop "alarmState" system))) eqn:Hi;
    [done|].
  intros _. eexists _, _. split; [|split; [exact Ha|]].
  - exists location, system. by repeat split.
  - exact (proj1 (includes_None _ _) Hi).
Qed.

(** getAlarmState returns one of the seven states the code lists, whatever
    the subscriptions it is given look like.  It asks for the subscription
    once, and a second and last time, with forceRefresh, exactly when the
    first answer has a location.system that is not alarming and whose
    alarmState is not in the list.  A first answer that is alarming gives
    ALARM, one with a listed state gives that state, both without a second
    call; a second answer that again has an unlisted state makes the call
    fail with 'Alarm state not understood'. *)
Theorem getAlarmState_returns_a_valid_state (forceRefresh : bool)
    (answers : list (result json)) :
  let r := getAlarmState forceRefresh false answers in
  (∀ state, r.2 = Some (Return state) -> state ∈ validStates) ∧
  (r.1 = [forceRefresh] ∨ r.1 = [forceRefresh; true]) ∧
  (r.1 = [forceRefresh; true] <->
   ∃ subscription rest isAlarming alarmState,
     answers = Return subscription :: rest ∧
     reports subscription isAlarming alarmState ∧
     truthy isAlarming = false ∧ unknown_state alarmState) ∧
  (∀ subscription rest isAlarming alarmState,
     answers = Return subscription :: rest ->
     reports subscription isAlarming alarmState ->
     (truthy isAlarming = true -> r = ([forceRefresh], Some (Return "ALARM"))) ∧
     (∀ state, truthy isAlarming = false -> alarmState = JStr state ->
               state ∈ validStates -> r = ([forceRefresh], Some (Return state))) ∧
     (∀ second rest' isAlarming' alarmState',
        truthy isAlarming = false -> unknown_state alarmState ->
        rest = Return second :: rest' ->
        reports second isAlarming' alarmState' ->
        truthy isAlarming' = false -> unknown_state alarmState' ->
        r = ([forceRefresh; true], Some (Throw (Error "Alarm state not understood"))))).
Proof.
  intros r. subst r.
  assert (Hshape : ∀ rest, (getAlarmState true true rest).1 = [true]).
  { intros [|[sub2|e2] rest2]; simpl; try done.
    pose proof (getAlarmState_resume_retries_once sub2) as H.
    by destruct (getAlarmState_resume true sub2). }
  split; [intros state; apply getAlarmState_states|]. split; [|split].
  - destruct answers as [|[sub|e] rest]; simpl; [by left| |by left].
    destruct (getAlarmState_resume false sub); [by left| |by left].
    specialize (Hshape rest). destruct (getAlarmState true true rest) as [calls out].
    simpl in *. subst calls. by right.
  - split.
    + destruct answers as [|[sub|e] rest]; simpl; [done| |done].
      destruct (getAlarmState_resume false sub) eqn:E; [done| |done].
      intros _. destruct (getAlarmState_resume_retry sub E) as (a & s & Hr & Ha & Hu).
      by exists sub, rest, a, s.
    + intros (sub & rest & a & s & -> & Hr & Ha & Hu). simpl.
      rewrite (getAlarmState_resume_reports false sub a s Hr), Ha.
      rewrite (proj2 (includes_None validStates s) Hu). simpl.
      specialize (Hshape rest). destruct (getAlarmState true true rest) as [calls out].
      simpl in *. by subst calls.
  - intros sub rest a s -> Hr. simpl.
    rewrite (getAlarmState_resume_reports false sub a s Hr).
    split; [|split].
    + by intros ->.
    + intros state -> -> Hin.
      assert (E : existsb (String.eqb state) validStates = true).
      { apply existsb_exists. exists state.
        split; [by apply list_elem_of_In|apply String.eqb_refl]. }
      assert (Hi : includes validStates (JStr state) = Some state).
      { unfold includes. by rewrite E. }
      by rewrite Hi.
    + intros sub2 rest2 a2 s2 -> Hu -> Hr2 Ha2 Hu2.
      rewrite (proj2 (includes_None validStates s) Hu). simpl.
      rewrite (getAlarmState_resume_reports true sub2 a2 s2 Hr2), Ha2.
      by rewrite (proj2 (includes_None validStates s2) Hu2).
Qed.

(** ** The accessory and the states of the alarm *)

Module AlarmStateProperties.
Import SS3Alarm SS3AlarmState.

(** Whatever state getAlarmState returns, refreshState on a linked accessory
    writes a current state that is defined, then the target state, then
    clears the fault; the target state it writes is undefined exactly when
    the state is ALARM or ALARM_COUNT. *)
Theorem refreshState_writes_no_target_in_alarm (forceRefresh : bool)
    (answers : list (result json)) (state : string) (a : alarm) :
  service a = true ->
  (getAlarmState forceRefresh false answers).2 = Some (Return state) ->
  ∃ current,
    refreshState (Return state) a
      = [WriteCurrentState (Some current);
         WriteTargetState (TARGET_SS3_TO_HOMEKIT state); WriteFault false] ∧
    (TARGET_SS3_TO_HOMEKIT state = None <-> state = "ALARM" ∨ state = "ALARM_COUNT").
Proof.
  intros Hs Hout.
  pose proof (getAlarmState_states forceRefresh answers state Hout) as Hv.
  unfold refreshState, setFault. rewrite Hs.
  unfold validStates in Hv.
  repeat (apply elem_of_cons in Hv as [->|Hv];
          [eexists; split; [reflexivity|]; split;
             [try discriminate; tauto | intros [?|?]; try discriminate; reflexivity]|]).
  by apply elem_of_nil in Hv.
Qed.

(** On a system that is alarming. *)
Lemma refreshState_writes_no_target_in_alarm_witness :
  let siren :=
    JObj [("location", JObj [("system", JObj [("isAlarming", JBool true);
                                              ("alarmState", JStr "AWAY")])])] in
  (getAlarmState false false [Return siren]).2 = Some (Return "ALARM") ∧
  ∃ current,
    refreshState (Return "ALARM") (mkAlarm true 0 0)
      = [WriteCurrentState (Some current); WriteTargetState None; WriteFault false].
Proof.
  split; [reflexivity|].
  destruct (refreshState_writes_no_target_in_alarm false
              [Return (JObj [("location",
                              JObj [("system", JObj [("isAlarming", JBool true);
                                                     ("alarmState", JStr "AWAY")])])])]
              "ALARM" (mkAlarm true 0 0) eq_refl eq_refl) as (current & H & _).
  by exists current.
Defined.

(** Each target state HomeKit can set has a SimpliSafe state; that state
    passes the check of setAlarmState, and read back through
    TARGET_SS3_TO_HOMEKIT it is the target state again. *)
Theorem target_state_round_trip (homekitState : SecuritySystemTargetState) (state : string)
    (w : world) :
  TARGET_HOMEKIT_TO_SS3 homekitState = Some state ->
  TARGET_SS3_TO_HOMEKIT state = Some homekitState ∧
  toLowerCase state ∈ validAlarmStates ∧
  (setAlarmState state w).2 ≠ [ObsThrown (Error "Invalid target state")].
Proof.
  intros H.
  assert (Hv : TARGET_SS3_TO_HOMEKIT state = Some homekitState ∧
               toLowerCase state ∈ validAlarmStates).
  { destruct homekitState; simpl in H; simplify_eq;
      (split; [reflexivity|]); unfold validAlarmStates; simpl; set_solver. }
  destruct Hv as [H1 H2]. split; [done|]. split; [done|].
  unfold setAlarmState.
  destruct (indexOf_is_minus_one validAlarmStates (toLowerCase state)) eqn:E.
  { by apply indexOf_is_minus_one_spec in E. }
  destruct (no_id (subId (this w))); [done|].
  by destruct (call_request_head (next_id w)
                 (KSetAlarmState (subId (this w)) (toLowerCase state))
                 (set_next_id (S (next_id w)) w)) as (rest & ->).
Qed.

(** On the target state AWAY_ARM. *)
Lemma target_state_round_trip_witness :
  TARGET_SS3_TO_HOMEKIT "AWAY" = Some TARGET_AWAY_ARM ∧
  toLowerCase "AWAY" ∈ validAlarmStates.
Proof.
  destruct (target_state_round_trip TARGET_AWAY_ARM "AWAY" (new_world 15000) eq_refl)
    as (H1 & H2 & _).
  exact (conj H1 H2).
Defined.

End AlarmStateProperties.

(** ** The socket and the accessory *)

(** Whatever the socket emits, the accessory sets the timer that calls
    startListening again, 1000 ms later, exactly when the client has closed
    and dropped its socket: on an error, on reconnect_failed and on a
    disconnect by the server.  Any other disconnect leaves the socket in
    place and sets no timer.  None of these events writes a characteristic. *)
Theorem accessory_restarts_when_socket_is_dropped (m : socket_message) (a : SS3Alarm.alarm) :
  let l := socket_listener m true in
  let r := on_events l.2 a in
  r.2 = (if l.1 then [] else [SS3Alarm.SetTimeout SS3Alarm.StartListening 1000]) ∧
  l.1 = match m with
        | SocketConnect => true
        | SocketError err => negb (truthy err)
        | SocketReconnectFailed => false
        | SocketDisconnect reason => negb (String.eqb reason "io server disconnect")
        end ∧
  SS3Alarm.nRetries r.1 = SS3Alarm.nRetries a ∧
  SS3Alarm.nSocketConnectFailures r.1
    = match m with SocketConnect => 0 | _ => SS3Alarm.nSocketConnectFailures a end.
Proof.
  destruct m as [|err| |reason]; cbn [socket_listener].
  - done.
  - by destruct (truthy err).
  - done.
  - by destruct (String.eqb reason "io server disconnect").
Qed.

(** ** The function of the sensor poller *)

Lemma notify_cons (subscriptions : list (string * nat)) (x : sensor) (sensors : list sensor) :
  notify subscriptions (x :: sensors) =
    map (fun sub => (sub.2, x)) (filter (fun sub => sub.1 = serial x) subscriptions)
    ++ notify subscriptions sensors.
Proof. reflexivity. Qed.

Lemma filter_map_callback (c : nat) (x : sensor) (l : list (string * nat)) :
  filter (fun p : nat * sensor => p.1 = c) (map (fun sub : string * nat => (sub.2, x)) l)
  = map (fun sub => (sub.2, x)) (filter (fun sub : string * nat => sub.2 = c) l).
Proof.
  induction l as [|sub l IH]; [done|]. simpl.
  rewrite !filter_cons. simpl. rewrite IH.
  by destruct (decide (sub.2 = c)).
Qed.

(** The poller hands a sensor to the callbacks registered under its serial
    and to no other: a callback is called with a sensor exactly when it is
    registered under the serial of that sensor, and a callback registered
    once gets the sensors with its id in the order of the answer, each
    once. *)
Theorem notify_delivers_by_serial (subscriptions : list (string * nat))
    (sensors : list sensor) :
  (∀ c x, (c, x) ∈ notify subscriptions sensors <->
          x ∈ sensors ∧ (serial x, c) ∈ subscriptions) ∧
  (∀ id c, filter (fun sub => sub.2 = c) subscriptions = [(id, c)] ->
           map snd (filter (fun p => p.1 = c) (notify subscriptions sensors))
           = filter (fun x => serial x = id) sensors).
Proof.
  split.
  - intros c x. unfold notify. rewrite list_elem_of_In, in_flat_map. split.
    + intros (y & Hy & Hin). apply list_elem_of_In in Hy, Hin.
      apply list_elem_of_fmap in Hin as ([id c'] & [= -> ->] & Hsub).
      apply list_elem_of_filter in Hsub as [Hid Hsub]. simpl in Hid. subst id.
      done.
    + intros [Hx Hsub]. exists x. split; [by apply list_elem_of_In|].
      apply list_elem_of_In, list_elem_of_fmap. exists (serial x, c). split; [done|].
      by apply list_elem_of_filter.
  - intros id c Hc. induction sensors as [|x sensors IH]; [done|].
    rewrite notify_cons, filter_app, map_app, IH, filter_map_callback.
    rewrite filter_swap, Hc, filter_cons, filter_nil. simpl.
    rewrite (filter_cons (fun x => serial x = id)).
    destruct (decide (id = serial x)) as [->|Hne].
    + by rewrite decide_True.
    + by rewrite decide_False.
Qed.

Lemma poller_run_app (debug : bool) (es1 es2 : list poller_event) (s : suppression) :
  poller_run debug (es1 ++ es2) s =
    let r1 := poller_run debug es1 s in
    let r2 := poller_run debug es2 r1.1 in (r2.1, r1.2 ++ r2.2).
Proof.
  revert s. induction es1 as [|e es1 IH]; intros s; simpl.
  - by destruct (poller_run debug es2 s).
  - destruct (poller_step debug e s) as [s1 l1]. rewrite IH. simpl.
    destruct (poller_run debug es1 s1) as [s2 l2]. simpl.
    destruct (poller_run debug es2 s2) as [s3 l3]. simpl.
    by rewrite app_assoc.
Qed.

Lemma suppression_window_counts (errs : list error) (n : Z) :
  poller_run false (map PollThrows errs) (mkSuppression true (Some n))
  = (mkSuppression true (Some (n + Z.of_nat (length (counted errs)))), []).
Proof.
  revert n. induction errs as [|e errs IH]; intros n; simpl.
  - by rewrite Z.add_0_r.
  - unfold sensorRefresh_catch. destruct (instanceof_RateLimitError e); simpl.
    + by rewrite IH.
    + rewrite IH. do 3 f_equal. lia.
Qed.

(** Without debug logging the poller says nothing while errors of getSensors
    come in; when the timer set at the first error fires, it logs one
    warning with the number of errors caught since then, RateLimitErrors not
    counted, and a run with RateLimitErrors only sets no timer and logs
    nothing.  With debug logging every other error is logged at once. *)
Theorem suppressed_errors_are_counted (errs : list error) (s : suppression) :
  errorSupperessionTimeout s = false ->
  (poller_run false (map PollThrows errs ++ [SuppressionExpires]) s).2
    = match counted errs with
      | [] => []
      | _ => [LogWarn (Z.of_nat (length (counted errs)))]
      end ∧
  poller_run true (map PollThrows errs) s = (s, map LogError (counted errs)).
Proof.
  intros Hs. split.
  - induction errs as [|e errs IH]; simpl.
    + by rewrite Hs.
    + unfold sensorRefresh_catch at 1. destruct (instanceof_RateLimitError e) eqn:Ee; simpl.
      * destruct (poller_run false _ s) as [s2 l2]. exact IH.
      * rewrite Hs. simpl. rewrite poller_run_app, suppression_window_counts. simpl.
        assert (H0 : (0 <? 1 + Z.of_nat (length (counted errs))) = true)
          by (apply Z.ltb_lt; lia).
        rewrite H0, app_nil_r. do 2 f_equal. lia.
  - clear Hs. induction errs as [|e errs IH]; simpl; [done|].
    unfold sensorRefresh_catch. destruct (instanceof_RateLimitError e); simpl.
    + by rewrite IH.
    + by rewrite IH.
Qed.

(** On three errors, one of them a RateLimitError: the warning counts two. *)
Lemma suppressed_errors_are_counted_witness :
  (poller_run false
     (map PollThrows [Error "timeout"; RateLimitError JNull; TypeError]
      ++ [SuppressionExpires])
     (mkSuppression false None)).2
  = [LogWarn 2].
Proof.
  exact (proj1 (suppressed_errors_are_counted
                  [Error "timeout"; RateLimitError JNull; TypeError]
                  (mkSuppression false None) eq_refl)).
Defined.

Module AccessoryProperties.
Import SS3Alarm.


Lemma setAlarmState_calls_app (l1 l2 : list effect) :
  setAlarmState_calls (l1 ++ l2) = setAlarmState_calls l1 ++ setAlarmState_calls l2.
Proof. apply flat_map_app. Qed.



(** A push of the socket, as the accessory sees it: it never changes the
    counters of the accessory, never sets a timer and never writes the
    current state ALARM_TRIGGERED; a push of another subscription, or from a
    sensor that is not the app, a keypad, a keychain or a door lock, writes
    nothing at all; a disarm (1400, 1407) or a cancel (1406) from one of
    those writes the target state DISARM and the current state DISARMED. *)
Theorem push_reaches_the_accessory (data : push) (w : world) (a : alarm) :
  let r := deliver (step (SocketEvent data) w).2 a in
  r.1 = a ∧
  (∀ e, e ∈ r.2 ->
     (∃ v, e = UpdateTargetState v) ∨ (∃ v, e = UpdateCurrentState v ∧ v ≠ ALARM_TRIGGERED)) ∧
  (subId (this w) ≠ Some (sid data) ∨ service a = false ∨
   (∀ t, sensorType data = Some t -> t ∉ alarm_sensor_types) -> r.2 = []) ∧
  (subId (this w) = Some (sid data) -> service a = true ->
   (∃ t, sensorType data = Some t ∧ t ∈ alarm_sensor_types) ->
   eventType data ≠ "alarm" -> eventType data ≠ "alarmCancel" ->
   eventCid data = 1400 ∨ eventCid data = 1407 ∨ eventCid data = 1406 ->
   r.2 = [UpdateTargetState TARGET_DISARM; UpdateCurrentState DISARMED]).
Proof.
  intros r.
  assert (Hcall : (step (SocketEvent data) w).2 = [] ∨
                  ∃ ev, (step (SocketEvent data) w).2 = [ObsCallback ev (Some data)] ∧
                        ev ≠ Some CONNECTED ∧ ev ≠ Some CONNECTION_LOST).
  { cbn [step]. unfold _socketCallback.
    destruct (negb _); [by left|].
    destruct (String.eqb (eventType data) "alarm"); [right; eexists; by split|].
    destruct (String.eqb (eventType data) "alarmCancel"); [right; eexists; by split|].
    repeat (match goal with
            | |- context [match ?x with _ => _ end] => destruct x
            end; try (by left); try (right; eexists; by split)). }
  assert (Hon : ∀ ev, ev ≠ Some CONNECTED -> ev ≠ Some CONNECTION_LOST ->
            on_event ev (Some data) a =
              (a, if service a && match sensorType data with
                                   | Some t => existsb (Z.eqb t) alarm_sensor_types
                                   | None => false
                                   end
                  then characteristic_updates ev else [])).
  { intros ev H1 H2. unfold on_event.
    destruct ev as [[]|]; try done;
      by destruct (service a && _). }
  assert (Hty : ∀ t, existsb (Z.eqb t) alarm_sensor_types = true <-> t ∈ alarm_sensor_types).
  { intros t. rewrite existsb_exists. split.
    - intros (x & Hx & E). apply Z.eqb_eq in E. subst x. by apply list_elem_of_In.
    - intros H. exists t. split; [by apply list_elem_of_In|apply Z.eqb_refl]. }
  split; [|split; [|split]].
  - subst r. destruct Hcall as [->|(ev & -> & H1 & H2)]; [done|].
    simpl. by rewrite (Hon ev H1 H2).
  - subst r. destruct Hcall as [->|(ev & -> & H1 & H2)].
    { intros e He. by apply elem_of_nil in He. }
    simpl. rewrite (Hon ev H1 H2). simpl. rewrite app_nil_r.
    destruct (service a && _).
    + intros e He. destruct ev as [[]|]; simpl in He;
        repeat (apply elem_of_cons in He as [->|He]; [eauto|]);
        by apply elem_of_nil in He.
    + intros e He. by apply elem_of_nil in He.
  - intros Hcase. subst r.
    destruct Hcase as [Hsid | [Hs | Hty']].
    + cbn [step]. unfold _socketCallback.
      rewrite bool_decide_eq_false_2 by congruence. done.
    + destruct Hcall as [->|(ev & -> & H1 & H2)]; [done|].
      simpl. rewrite (Hon ev H1 H2), Hs. done.
    + destruct Hcall as [->|(ev & -> & H1 & H2)]; [done|].
      simpl. rewrite (Hon ev H1 H2).
      destruct (sensorType data) as [t|]; [|by rewrite andb_false_r].
      destruct (existsb (Z.eqb t) alarm_sensor_types) eqn:E;
        [|by rewrite andb_false_r].
      apply Hty in E. by destruct (Hty' t eq_refl).
  - intros Hsid Hs (t & Ht & Hin) Ha Hc Hcid. subst r.
    cbn [step]. unfold _socketCallback.
    rewrite bool_decide_eq_true_2 by done. cbn [negb].
    rewrite (proj2 (String.eqb_neq _ _) Ha), (proj2 (String.eqb_neq _ _) Hc).
    apply Hty in Hin.
    destruct Hcid as [-> | [-> | ->]]; cbn [snd deliver];
      rewrite Hon by done; rewrite Hs, Ht, Hin; reflexivity.
Qed.

End AccessoryProperties.

(** ** The lockout and the list of locks *)

(** getLocks switches the lockout on when the answer lists a lock and off
    when it lists none.  It neither sets nor clears a timer: a lockout that
    is armed runs to its end, and with the lockout off
    handleSensorRefreshLockout does nothing. *)
Theorem getLocks_switches_the_lockout (locks : list json) (w : world) :
  let w' := getLocks_resume (JArr locks) w in
  sensorRefreshLockoutEnabled (this w') = bool_decide (locks ≠ []) ∧
  timers w' = timers w ∧
  sensorRefreshLockoutTimeout (this w') = sensorRefreshLockoutTimeout (this w) ∧
  (locks = [] -> handleSensorRefreshLockout w' = w').
Proof.
  intros w'. subst w'. unfold getLocks_resume, js_length, gt_zero. cbn [to_number].
  split; [|split; [done|split; [done|]]].
  - destruct locks as [|x l]; [done|].
    cbn [update_this set_this this set_sensorRefreshLockoutEnabled sensorRefreshLockoutEnabled].
    rewrite bool_decide_eq_true_2 by done. apply Z.ltb_lt. simpl length. lia.
  - intros ->. apply handleSensorRefreshLockout_disabled. done.
Qed.

(** ** generateSimplisafeId *)

Lemma get_supported (i : nat) :
  (i < 58)%nat -> ∃ c, String.get i supportedCharacters = Some c.
Proof.
  intros Hi. do 58 (destruct i as [|i]; [by eexists|]). lia.
Qed.

(** The id is eleven characters long: five characters of the alphabet, a
    dash, five more characters of the alphabet; without the dash it is the
    ten characters drawn, in the order they were drawn. *)
Theorem generateSimplisafeId_format (rolls : list nat) :
  (10 <= length rolls)%nat -> Forall (fun i => (i < 58)%nat) rolls ->
  let id := generateSimplisafeId rolls in
  String.length id = 11%nat ∧
  String.get 5 id = Some "-"%char ∧
  (String.substring 0 5 id ++ String.substring 6 5 id)%string = pick 10 rolls ∧
  ∀ i c, i ≠ 5%nat -> String.get i id = Some c ->
         ∃ j, j ∈ rolls ∧ String.get j supportedCharacters = Some c.
Proof.
  intros Hlen Hall.
  do 10 (destruct rolls as [|? rolls]; [simpl in Hlen; lia|]).
  repeat match goal with
         | H : Forall _ (_ :: _) |- _ => apply Forall_cons in H as [? H]
         end.
  repeat match goal with
         | H : (?n < 58)%nat |- _ =>
             let c := fresh "c" in
             let E := fresh "E" in
             destruct (get_supported n H) as [c E]; revert E; clear H
         end.
  intros E0 E1 E2 E3 E4 E5 E6 E7 E8 E9 id. subst id.
  unfold generateSimplisafeId. cbn [pick].
  rewrite E0, E1, E2, E3, E4, E5, E6, E7, E8, E9.
  split; [reflexivity|]. split; [reflexivity|]. split; [reflexivity|].
  intros i x Hi Hget.
  do 11 (destruct i as [|i];
         [first [by destruct Hi
                |simpl in Hget; injection Hget as <-; eexists;
                 (split; [|eassumption]); set_solver]|]).
  simpl in Hget. by destruct i.
Qed.

(** On the draws 0 to 4 and 57 down to 53. *)
Lemma generateSimplisafeId_format_witness :
  let id := generateSimplisafeId [0; 1; 2; 3; 4; 57; 56; 55; 54; 53]%nat in
  id = "ABCDE-98765" ∧ String.length id = 11%nat ∧ String.get 5 id = Some "-"%char.
Proof.
  split; [reflexivity|].
  destruct (generateSimplisafeId_format [0; 1; 2; 3; 4; 57; 56; 55; 54; 53]%nat)
    as (H1 & H2 & _); [simpl; lia|repeat constructor|].
  exact (conj H1 H2).
Defined.
